(** * OFC messaging gateway: campaign dispatcher, webhook receiver and relay

    A shallow embedding of
    - [OfficialWhatsAppManager] (the gateway client: session cache,
      [getStatus], [apiRequest], [sendText], [sendMedia]);
    - [sendWebhook] / [sendWebhookWithRetry] (the webhook relay);
    - [processCampaign] and the campaign routes (create, start, control);
    - the [POST /webhook] receiver.

    JavaScript runs one continuation at a time: the code between two
    [await]s is atomic.  Asynchronous functions are therefore modelled as
    tasks with a program counter naming the [await] they are suspended at,
    and a step resumes one task up to its next [await]. *)

From stdpp Require Import gmap strings list fin_maps pretty.
From Stdlib Require Import ZArith Lia.

Local Open Scope string_scope.

(** ** JavaScript helpers *)

(** A value caught by [catch (error)]: an [Error] instance carrying its
    [message], or anything else. *)
Inductive Thrown :=
  | ErrorObj (message : string)
  | NotAnError.

(** Truthiness of a possibly-undefined string: [undefined], [null] and the
    empty string are falsy. *)
Definition truthy (s : option string) : bool :=
  match s with
  | Some s => negb (String.eqb s "")
  | None => false
  end.

(** [a || b] on possibly-undefined strings, [b] being a string. *)
Definition or_else (a : option string) (b : string) : string :=
  match a with
  | Some s => if String.eqb s "" then b else s
  | None => b
  end.

Definition lower_ascii (c : Ascii.ascii) : Ascii.ascii :=
  let n := Ascii.nat_of_ascii c in
  if (65 <=? n)%nat && (n <=? 90)%nat then Ascii.ascii_of_nat (n + 32) else c.

Fixpoint toLowerCase (s : string) : string :=
  match s with
  | EmptyString => EmptyString
  | String c r => String (lower_ascii c) (toLowerCase r)
  end.

Fixpoint endsWith_from (s suffix : string) : bool :=
  if String.eqb s suffix then true
  else match s with
       | EmptyString => false
       | String _ r => endsWith_from r suffix
       end.

Definition endsWith (s suffix : string) : bool := endsWith_from s suffix.

(** ** The gateway client *)

Module Gateway.

Record OfficialInstanceSession := {
  phoneNumberId : string;
  accessToken : string;
  businessAccountId : string }.

(** The declared return type of [getStatus]:
    ["disconnected" | "connecting" | "connected" | "qr" | "not_found"]. *)
Inductive ConnectionStatus :=
  | disconnected | connecting | connected | qr | not_found.

#[global] Instance ConnectionStatus_eq_dec : EqDecision ConnectionStatus.
Proof. solve_decision. Defined.

(** The columns of the Instance table read by [getSession] and by the
    campaign routes. *)
Record InstanceRow := {
  waNumber : option string;
  waPhoneNumberId : option string;
  waAccessToken : option string;
  waBusinessAccountId : option string }.

Abbreviation Sessions := (gmap string OfficialInstanceSession).
Abbreviation Instances := (gmap string InstanceRow).

Definition notConfigured (instanceId : string) : Thrown :=
  ErrorObj ("Instance " +:+ instanceId +:+
    " is not configured efficiently. Missing Phone Number ID or Access Token.").

(** [getSession]: the cached session, else the credentials of the
    instance row, which are cached on the way. *)
Definition getSession (sessions : Sessions) (instances : Instances)
    (instanceId : string) : Sessions * (Thrown + OfficialInstanceSession) :=
  match sessions !! instanceId with
  | Some s => (sessions, inr s)
  | None =>
    match instances !! instanceId with
    | None => (sessions, inl (notConfigured instanceId))
    | Some row =>
      if truthy (waPhoneNumberId row) && truthy (waAccessToken row) then
        let session := {|
          phoneNumberId := or_else (waPhoneNumberId row) "";
          accessToken := or_else (waAccessToken row) "";
          businessAccountId := or_else (waBusinessAccountId row) "" |} in
        (<[instanceId := session]> sessions, inr session)
      else (sessions, inl (notConfigured instanceId))
    end
  end.

Definition getStatus (sessions : Sessions) (instanceId : string) : ConnectionStatus :=
  if decide (is_Some (sessions !! instanceId)) then connected else disconnected.

(** [disconnect] as far as the session cache goes. *)
Definition disconnect (sessions : Sessions) (instanceId : string) : Sessions :=
  delete instanceId sessions.

(** The body of a provider response: not JSON at all ([response.json()]
    rejects with a SyntaxError), or JSON whose [error?.message] is read. *)
Inductive ResponseBody :=
  | NotJson (syntaxError : string)
  | Json (error_message : option string).

Record Response := {
  ok : bool;
  statusText : string;
  body : ResponseBody }.

(** What [fetch] does with a request: rejects (network failure) or
    resolves with a response. *)
Inductive FetchResult :=
  | FetchRejects (e : Thrown)
  | FetchResolves (r : Response).

(** The JSON body of a [POST {phoneNumberId}/messages] request. *)
Record SendBody := {
  to : string;
  type : string;
  text_body : option string;
  media_link : option string;
  media_caption : option string }.

Record Request := {
  url : string;
  method : string;
  authorization : string;
  payload : SendBody }.

(** The outcome of a gateway call: the session cache afterwards, the
    request handed to [fetch] (if the call got that far) and the value
    the promise settles with ([inl]: rejected). *)
Record Call := {
  sessions_after : Sessions;
  issued : option Request;
  settled : Thrown + unit }.

Definition apiRequest (sessions : Sessions) (instances : Instances)
    (instanceId method endpoint : string) (payload : SendBody)
    (net : FetchResult) : Call :=
  match getSession sessions instances instanceId with
  | (sessions', inl e) =>
      {| sessions_after := sessions'; issued := None; settled := inl e |}
  | (sessions', inr session) =>
    let req := {|
      url := "https://graph.facebook.com/v19.0/" +:+ endpoint;
      method := method;
      authorization := "Bearer " +:+ accessToken session;
      payload := payload |} in
    let result :=
      match net with
      | FetchRejects e => inl e
      | FetchResolves r =>
        match body r with
        | NotJson msg => inl (ErrorObj msg)
        | Json error_message =>
          if ok r then inr tt
          else inl (ErrorObj (or_else error_message
                                ("API Request Failed: " +:+ statusText r)))
        end
      end in
    {| sessions_after := sessions'; issued := Some req; settled := result |}
  end.

Definition sendText (sessions : Sessions) (instances : Instances)
    (instanceId to text : string) (net : FetchResult) : Call :=
  match getSession sessions instances instanceId with
  | (sessions', inl e) =>
      {| sessions_after := sessions'; issued := None; settled := inl e |}
  | (sessions', inr session) =>
      apiRequest sessions' instances instanceId "POST"
        (phoneNumberId session +:+ "/messages")
        {| to := to; type := "text"; text_body := Some text;
           media_link := None; media_caption := None |} net
  end.

(** The media type [sendMedia] picks when [options.type] is absent. *)
Definition mediaTypeOf (mediaUrl : string) : string :=
  let lowerUrl := toLowerCase mediaUrl in
  if endsWith lowerUrl ".mp4" then "video"
  else if endsWith lowerUrl ".mp3" || endsWith lowerUrl ".ogg" then "audio"
  else if endsWith lowerUrl ".pdf" || endsWith lowerUrl ".doc"
          || endsWith lowerUrl ".docx" then "document"
  else if endsWith lowerUrl ".webp" then "sticker"
  else "image".

(** [sendMedia] as the dispatcher calls it: [options = { caption }]. *)
Definition sendMedia (sessions : Sessions) (instances : Instances)
    (instanceId to mediaUrl : string) (caption : option string)
    (net : FetchResult) : Call :=
  match getSession sessions instances instanceId with
  | (sessions', inl e) =>
      {| sessions_after := sessions'; issued := None; settled := inl e |}
  | (sessions', inr session) =>
    let type := mediaTypeOf mediaUrl in
    let caption' :=
      if truthy caption && negb (String.eqb type "audio")
         && negb (String.eqb type "sticker")
      then caption else None in
    apiRequest sessions' instances instanceId "POST"
      (phoneNumberId session +:+ "/messages")
      {| to := to; type := type; text_body := None;
         media_link := Some mediaUrl; media_caption := caption' |} net
  end.

End Gateway.

(** ** The webhook relay *)

Module Relay.

(** What one [fetch] to a destination does: it resolves with an HTTP
    status, rejects (network failure), or is aborted by the
    [env.webhookTimeout] timer. *)
Inductive Delivery :=
  | Responded (status : Z)
  | NetworkError
  | TimedOut.

(** [response.ok]: the status is in the range 200-299. *)
Definition response_ok (status : Z) : bool :=
  (200 <=? status)%Z && (status <=? 299)%Z.

Definition sendWebhook (d : Delivery) : bool :=
  match d with
  | Responded status => response_ok status
  | NetworkError => false
  | TimedOut => false
  end.

(** What [sendWebhookWithRetry] does, in order: a call of [sendWebhook]
    (numbered by [attempt]) or a [setTimeout] of so many milliseconds. *)
Inductive Action :=
  | Attempt (attempt : Z)
  | Sleep (ms : Z).

#[global] Instance Action_eq_dec : EqDecision Action.
Proof. solve_decision. Defined.

(** The [for] loop from [attempt] on; [net k] is what the network does
    with the [k]-th attempt. [fuel] bounds the iterations left. *)
Fixpoint retry_from (fuel : nat) (webhookRetryAttempts : Z)
    (net : Z → Delivery) (attempt : Z) : list Action :=
  match fuel with
  | O => []
  | S fuel' =>
    if (attempt <=? webhookRetryAttempts)%Z then
      Attempt attempt ::
      (if sendWebhook (net attempt) then []
       else
         (if (attempt <? webhookRetryAttempts)%Z
          then [Sleep (1000 * 2 ^ (attempt - 1))%Z] else [])
         ++ retry_from fuel' webhookRetryAttempts net (attempt + 1)%Z)
    else []
  end.

(** [attempt] runs from 1 to [env.webhookRetryAttempts], so that many
    iterations are all the loop can make. *)
Definition sendWebhookWithRetry (webhookRetryAttempts : Z)
    (net : Z → Delivery) : list Action :=
  retry_from (Z.to_nat webhookRetryAttempts) webhookRetryAttempts net 1%Z.

(** The trace of [n] failed attempts starting at [attempt], each followed
    by its back-off. *)
Fixpoint failed_prefix (n : nat) (attempt : Z) : list Action :=
  match n with
  | O => []
  | S n' => Attempt attempt :: Sleep (1000 * 2 ^ (attempt - 1))%Z
            :: failed_prefix n' (attempt + 1)%Z
  end.

End Relay.

(** ** The durable store: campaigns and messages *)

Module CampaignStatus.
Inductive t := PENDING | RUNNING | PAUSED | COMPLETED | CANCELLED.

#[global] Instance eq_dec : EqDecision t.
Proof. solve_decision. Defined.
End CampaignStatus.

Module Campaign.
Record t := {
  instanceId : string;
  name : string;
  status : CampaignStatus.t;
  delay : Z;
  totalMessages : nat;
  sentMessages : nat;
  failedMessages : nat;
  startedAt : option Z;
  completedAt : option Z }.

(** [data: { status }] *)
Definition set_status (s : CampaignStatus.t) (c : t) : t :=
  {| instanceId := instanceId c; name := name c; status := s;
     delay := delay c; totalMessages := totalMessages c;
     sentMessages := sentMessages c; failedMessages := failedMessages c;
     startedAt := startedAt c; completedAt := completedAt c |}.

(** [data: { status: 'COMPLETED', completedAt: new Date() }] *)
Definition complete (now : Z) (c : t) : t :=
  {| instanceId := instanceId c; name := name c;
     status := CampaignStatus.COMPLETED;
     delay := delay c; totalMessages := totalMessages c;
     sentMessages := sentMessages c; failedMessages := failedMessages c;
     startedAt := startedAt c; completedAt := Some now |}.

(** [data: { status: 'RUNNING', startedAt: new Date() }] *)
Definition start (now : Z) (c : t) : t :=
  {| instanceId := instanceId c; name := name c;
     status := CampaignStatus.RUNNING;
     delay := delay c; totalMessages := totalMessages c;
     sentMessages := sentMessages c; failedMessages := failedMessages c;
     startedAt := Some now; completedAt := completedAt c |}.

(** [data: { sentMessages: { increment: 1 } }] *)
Definition increment_sent (c : t) : t :=
  {| instanceId := instanceId c; name := name c; status := status c;
     delay := delay c; totalMessages := totalMessages c;
     sentMessages := sentMessages c + 1; failedMessages := failedMessages c;
     startedAt := startedAt c; completedAt := completedAt c |}.

(** [data: { failedMessages: { increment: 1 } }] *)
Definition increment_failed (c : t) : t :=
  {| instanceId := instanceId c; name := name c; status := status c;
     delay := delay c; totalMessages := totalMessages c;
     sentMessages := sentMessages c; failedMessages := failedMessages c + 1;
     startedAt := startedAt c; completedAt := completedAt c |}.
End Campaign.

Module Message.
(** The columns of the Message table that the dispatcher and the webhook
    receiver read or write.  [status] is kept as the string the code
    writes: the receiver stores [status.status.toUpperCase()]. *)
Record t := {
  id : string;
  campaignId : option string;
  instanceId : string;
  contactId : option string;
  waMessageId : option string;
  from : string;
  to : string;
  direction : string;
  body : option string;
  mediaUrl : option string;
  mediaType : option string;
  status : string;
  errorMsg : option string;
  createdAt : Z;
  sentAt : option Z;
  deliveredAt : option Z;
  readAt : option Z }.

#[global] Instance eq_dec : EqDecision t.
Proof. solve_decision. Defined.

(** [data: { status: 'SENT', sentAt: new Date() }] *)
Definition mark_sent (now : Z) (m : t) : t :=
  {| id := id m; campaignId := campaignId m; instanceId := instanceId m;
     contactId := contactId m; waMessageId := waMessageId m;
     from := from m; to := to m; direction := direction m; body := body m;
     mediaUrl := mediaUrl m; mediaType := mediaType m;
     status := "SENT"; errorMsg := errorMsg m; createdAt := createdAt m;
     sentAt := Some now; deliveredAt := deliveredAt m; readAt := readAt m |}.

(** [data: { status: 'FAILED', errorMsg }] *)
Definition mark_failed (msg : string) (m : t) : t :=
  {| id := id m; campaignId := campaignId m; instanceId := instanceId m;
     contactId := contactId m; waMessageId := waMessageId m;
     from := from m; to := to m; direction := direction m; body := body m;
     mediaUrl := mediaUrl m; mediaType := mediaType m;
     status := "FAILED"; errorMsg := Some msg; createdAt := createdAt m;
     sentAt := sentAt m; deliveredAt := deliveredAt m; readAt := readAt m |}.

(** The [data] of the receiver's [updateMany] for a status update. *)
Definition ack (st : string) (delivered read : option Z) (m : t) : t :=
  {| id := id m; campaignId := campaignId m; instanceId := instanceId m;
     contactId := contactId m; waMessageId := waMessageId m;
     from := from m; to := to m; direction := direction m; body := body m;
     mediaUrl := mediaUrl m; mediaType := mediaType m;
     status := st; errorMsg := errorMsg m; createdAt := createdAt m;
     sentAt := sentAt m;
     deliveredAt := match delivered with Some d => Some d | None => deliveredAt m end;
     readAt := match read with Some d => Some d | None => readAt m end |}.
End Message.

Module Store.
Record t := {
  campaigns : gmap string Campaign.t;
  messages : list Message.t;
  instances : gmap string Gateway.InstanceRow }.

(** The rejection of [update] when no row matches [where]. *)
Definition recordNotFound : Thrown :=
  ErrorObj "Record to update not found.".

(** [prisma.campaign.update({ where: { id }, data })]. *)
Definition campaign_update (id : string) (data : Campaign.t → Campaign.t)
    (st : t) : option t :=
  match campaigns st !! id with
  | None => None
  | Some c => Some {| campaigns := <[id := data c]> (campaigns st);
                      messages := messages st; instances := instances st |}
  end.

Definition update_where_id (id : string) (data : Message.t → Message.t)
    (m : Message.t) : Message.t :=
  if decide (Message.id m = id) then data m else m.

(** [prisma.message.update({ where: { id }, data })]. *)
Definition message_update (id : string) (data : Message.t → Message.t)
    (st : t) : option t :=
  if decide (id ∈ Message.id <$> messages st) then
    Some {| campaigns := campaigns st;
            messages := update_where_id id data <$> messages st;
            instances := instances st |}
  else None.

(** The first row in [orderBy: { createdAt: 'asc' }]: a row with the
    least [createdAt].  The code orders by [createdAt] only, so among
    rows of equal [createdAt] the choice is the database's; the database
    of this model takes the one inserted first (the table is kept in
    insertion order).  [Selection.earliest_pending] says what every
    database answers. *)
Fixpoint oldest (l : list Message.t) : option Message.t :=
  match l with
  | [] => None
  | m :: rest =>
    match oldest rest with
    | None => Some m
    | Some m' =>
      if (Message.createdAt m <=? Message.createdAt m')%Z then Some m else Some m'
    end
  end.

(** [where: { campaignId, status: 'PENDING' }] *)
Definition pending_of (campaignId : string) (m : Message.t) : Prop :=
  Message.campaignId m = Some campaignId ∧ Message.status m = "PENDING".

#[global] Instance pending_of_dec campaignId m : Decision (pending_of campaignId m).
Proof. unfold pending_of. apply _. Defined.

(** [prisma.message.findFirst({ where: { campaignId, status: 'PENDING' },
    orderBy: { createdAt: 'asc' } })]. *)
Definition findFirstPending (campaignId : string) (st : t) : option Message.t :=
  oldest (filter (pending_of campaignId) (messages st)).

(** The rows that belong to a campaign. *)
Definition campaign_rows (ms : list Message.t) : list Message.t :=
  filter (λ m, is_Some (Message.campaignId m)) ms.

(** A change of the Message table by code other than the campaign
    routes: the rows of campaigns are what they were, and keys stay
    unique. *)
Definition foreign (ms ms' : list Message.t) : Prop :=
  campaign_rows ms' = campaign_rows ms ∧ NoDup (Message.id <$> ms').

#[global] Instance foreign_dec ms ms' : Decision (foreign ms ms').
Proof. unfold foreign. apply _. Defined.

(** The writes to the Message table outside the campaign routes: the
    receiver's [create] of an inbound row, an [update] or [updateMany]
    keyed by [waMessageId] (status updates, the saved media path), and
    the gateway's [deleteMany] keyed by [contactId]. *)
Definition inbound_create (row : Message.t) (ms : list Message.t)
    : list Message.t :=
  ms ++ [row].

Definition update_where_waMessageId (waMessageId : string)
    (data : Message.t → Message.t) (ms : list Message.t) : list Message.t :=
  (λ m, if decide (Message.waMessageId m = Some waMessageId)
        then data m else m) <$> ms.

Definition deleteMany_where_contactId (contactId : string)
    (ms : list Message.t) : list Message.t :=
  filter (λ m, Message.contactId m ≠ Some contactId) ms.
End Store.

(** ** The campaign dispatcher *)

Module Dispatcher.

(** Where a running [processCampaign] is suspended: the [await] whose
    result it is waiting for, with the locals that are live there. *)
Inductive Pc :=
  | AtLoad                                   (* campaign.findUnique *)
  | AtPause                                  (* campaign.update PAUSED *)
  | AtFind (campaign : Campaign.t)           (* message.findFirst *)
  | AtComplete                               (* campaign.update COMPLETED *)
  | AtSend (campaign : Campaign.t) (message : Message.t)
                                             (* waManager.sendMedia / sendText *)
  | AtMarkSent (campaign : Campaign.t) (message : Message.t)
                                             (* message.update SENT *)
  | AtIncrementSent (campaign : Campaign.t) (message : Message.t)
                                             (* campaign.update sentMessages *)
  | AtMarkFailed (campaign : Campaign.t) (message : Message.t) (error : Thrown)
                                             (* message.update FAILED *)
  | AtIncrementFailed (campaign : Campaign.t)
                                             (* campaign.update failedMessages *)
  | AtSleep (campaign : Campaign.t).         (* setTimeout(resolve, delay) *)

(** How a resumed [processCampaign] stops: at its next [await], by
    [return], or by an exception that leaves the function. Either of the
    last two runs the [finally] block. *)
Inductive Outcome :=
  | Suspended (pc : Pc)
  | Returned
  | Rejected (e : Thrown).

(** What the environment supplies when a task is resumed: the value of
    [new Date()] and what the provider does with a request. *)
Record Oracle := {
  now : Z;
  net : Gateway.FetchResult }.

(** [error instanceof Error ? error.message : 'Unknown error'] *)
Definition describe (error : Thrown) : string :=
  match error with
  | ErrorObj message => message
  | NotAnError => "Unknown error"
  end.

(** The gateway call of one iteration: media send if [message.mediaUrl]
    is truthy, else text send. *)
Definition send (sessions : Gateway.Sessions) (st : Store.t)
    (campaign : Campaign.t) (message : Message.t)
    (net : Gateway.FetchResult) : Gateway.Call :=
  if truthy (Message.mediaUrl message) then
    Gateway.sendMedia sessions (Store.instances st)
      (Campaign.instanceId campaign) (Message.to message)
      (or_else (Message.mediaUrl message) "")
      (if truthy (Message.body message) then Message.body message else None)
      net
  else
    Gateway.sendText sessions (Store.instances st)
      (Campaign.instanceId campaign) (Message.to message)
      (or_else (Message.body message) "") net.

Record Resumed := {
  store_after : Store.t;
  sessions_after : Gateway.Sessions;
  issued : option Gateway.Request;
  outcome : Outcome }.

Definition resumed (st : Store.t) (sessions : Gateway.Sessions)
    (o : Outcome) : Resumed :=
  {| store_after := st; sessions_after := sessions; issued := None;
     outcome := o |}.

(** One resumption of [processCampaign(campaignId)]: the awaited
    operation completes and the body runs on to the next [await]. *)
Definition proc_step (o : Oracle) (campaignId : string) (pc : Pc)
    (st : Store.t) (sessions : Gateway.Sessions) : Resumed :=
  match pc with
  | AtLoad =>
    match Store.campaigns st !! campaignId with
    | None => resumed st sessions Returned
    | Some campaign =>
      if decide (Campaign.status campaign ≠ CampaignStatus.RUNNING) then
        resumed st sessions Returned
      else if decide (Gateway.getStatus sessions (Campaign.instanceId campaign)
                      ≠ Gateway.connected) then
        resumed st sessions (Suspended AtPause)
      else resumed st sessions (Suspended (AtFind campaign))
    end
  | AtPause =>
    match Store.campaign_update campaignId
            (Campaign.set_status CampaignStatus.PAUSED) st with
    | Some st' => resumed st' sessions Returned
    | None => resumed st sessions (Rejected Store.recordNotFound)
    end
  | AtFind campaign =>
    match Store.findFirstPending campaignId st with
    | None => resumed st sessions (Suspended AtComplete)
    | Some message => resumed st sessions (Suspended (AtSend campaign message))
    end
  | AtComplete =>
    match Store.campaign_update campaignId (Campaign.complete (now o)) st with
    | Some st' => resumed st' sessions Returned
    | None => resumed st sessions (Rejected Store.recordNotFound)
    end
  | AtSend campaign message =>
    let call := send sessions st campaign message (net o) in
    {| store_after := st;
       sessions_after := Gateway.sessions_after call;
       issued := Gateway.issued call;
       outcome :=
         match Gateway.settled call with
         | inr _ => Suspended (AtMarkSent campaign message)
         | inl e => Suspended (AtMarkFailed campaign message e)
         end |}
  | AtMarkSent campaign message =>
    match Store.message_update (Message.id message)
            (Message.mark_sent (now o)) st with
    | Some st' => resumed st' sessions (Suspended (AtIncrementSent campaign message))
    | None =>
      resumed st sessions
        (Suspended (AtMarkFailed campaign message Store.recordNotFound))
    end
  | AtIncrementSent campaign message =>
    match Store.campaign_update campaignId Campaign.increment_sent st with
    | Some st' => resumed st' sessions (Suspended (AtSleep campaign))
    | None =>
      resumed st sessions
        (Suspended (AtMarkFailed campaign message Store.recordNotFound))
    end
  | AtMarkFailed campaign message error =>
    match Store.message_update (Message.id message)
            (Message.mark_failed (describe error)) st with
    | Some st' => resumed st' sessions (Suspended (AtIncrementFailed campaign))
    | None => resumed st sessions (Rejected Store.recordNotFound)
    end
  | AtIncrementFailed campaign =>
    match Store.campaign_update campaignId Campaign.increment_failed st with
    | Some st' => resumed st' sessions (Suspended (AtSleep campaign))
    | None => resumed st sessions (Rejected Store.recordNotFound)
    end
  | AtSleep campaign => resumed st sessions (Suspended AtLoad)
  end.

(** The control actions of [controlCampaignSchema]. *)
Inductive Action := pause | resume | cancel.

Definition action_name (a : Action) : string :=
  match a with pause => "pause" | resume => "resume" | cancel => "cancel" end.

Inductive HttpResponse :=
  | Success (message : string)
  | HTTPException (status : Z) (message : string).

(** The suspended asynchronous functions of the process. The handlers
    are suspended at their [campaign.update], after their checks. *)
Inductive Task :=
  | Processor (campaignId : string) (pc : Pc)
  | StartHandler (id : string)
  | ControlHandler (id : string) (action : Action).

(** The state shared by all tasks: the store, the gateway's session
    cache, [runningProcessors], and (for the record) the requests handed
    to the provider, each with the id of the message it carries. *)
Record Memory := {
  store : Store.t;
  sessions : Gateway.Sessions;
  runningProcessors : gset string;
  provider_log : list (string * Gateway.Request) }.

Record World := {
  mem : Memory;
  tasks : list Task }.

(** The call [processCampaign(id)] up to its first [await]: the re-entry
    guard, then a processor suspended at [findUnique]. *)
Definition processCampaign (running : gset string) (id : string)
    : gset string * list Task :=
  if decide (id ∈ running) then (running, [])
  else ({[id]} ∪ running, [Processor id AtLoad]).

(** The checks of [POST /:id/start] on the campaign it read. *)
Definition start_check (sessions : Gateway.Sessions)
    (campaign : option Campaign.t) : option HttpResponse :=
  match campaign with
  | None => Some (HTTPException 404 "Campaign not found")
  | Some campaign =>
    if decide (Campaign.status campaign ≠ CampaignStatus.PENDING) then
      Some (HTTPException 400 "Campaign already started or finished")
    else if decide (Gateway.getStatus sessions (Campaign.instanceId campaign)
                    ≠ Gateway.connected) then
      Some (HTTPException 400 "Instance is not connected")
    else None
  end.

(** The checks of [POST /:id/control] on the campaign it read. *)
Definition control_check (action : Action) (campaign : option Campaign.t)
    : option HttpResponse :=
  match campaign with
  | None => Some (HTTPException 404 "Campaign not found")
  | Some campaign =>
    match action with
    | pause =>
      if decide (Campaign.status campaign ≠ CampaignStatus.RUNNING) then
        Some (HTTPException 400 "Campaign is not running")
      else None
    | resume =>
      if decide (Campaign.status campaign ≠ CampaignStatus.PAUSED) then
        Some (HTTPException 400 "Campaign is not paused")
      else None
    | cancel =>
      if decide (Campaign.status campaign = CampaignStatus.COMPLETED
                 ∨ Campaign.status campaign = CampaignStatus.CANCELLED) then
        Some (HTTPException 400 "Campaign already finished")
      else None
    end
  end.

(** The status each control action writes. *)
Definition control_data (action : Action) : Campaign.t → Campaign.t :=
  match action with
  | pause => Campaign.set_status CampaignStatus.PAUSED
  | resume => Campaign.set_status CampaignStatus.RUNNING
  | cancel => Campaign.set_status CampaignStatus.CANCELLED
  end.

(** A failed [update] leaves the handler through Hono's error handler. *)
Definition internalError : HttpResponse :=
  HTTPException 500 "Internal Server Error".

(** [POST /:id/start] from its [campaign.update] on. *)
Definition start_write (now : Z) (id : string) (m : Memory)
    : Memory * list Task * HttpResponse :=
  match Store.campaign_update id (Campaign.start now) (store m) with
  | None => (m, [], internalError)
  | Some st' =>
    let '(running', spawned) := processCampaign (runningProcessors m) id in
    ({| store := st'; sessions := sessions m; runningProcessors := running';
        provider_log := provider_log m |},
     spawned, Success "Campaign started successfully")
  end.

(** [POST /:id/control] from its [campaign.update] on. *)
Definition control_write (action : Action) (id : string) (m : Memory)
    : Memory * list Task * HttpResponse :=
  match Store.campaign_update id (control_data action) (store m) with
  | None => (m, [], internalError)
  | Some st' =>
    let '(running', spawned) :=
      match action with
      | resume => processCampaign (runningProcessors m) id
      | _ => (runningProcessors m, [])
      end in
    ({| store := st'; sessions := sessions m; runningProcessors := running';
        provider_log := provider_log m |},
     spawned,
     Success ("Campaign " +:+ action_name action +:+ "ed successfully"))
  end.

(** *** Creating campaigns *)

(** [message] / [content] of the two creation schemas. *)
Record Content := {
  type : string;
  text : option string;
  mediaUrl : option string;
  caption : option string }.

(** Modelled from the spec: the column defaults of the Campaign and
    Message tables, whose Prisma schema is not among the sources. A
    campaign is created PENDING with both counters at zero and no
    timestamps ("start is only valid from PENDING"; "total is fixed at
    creation"). *)
Definition new_campaign (name instanceId : string) (delay : Z)
    (totalMessages : nat) : Campaign.t :=
  {| Campaign.instanceId := instanceId; Campaign.name := name;
     Campaign.status := CampaignStatus.PENDING; Campaign.delay := delay;
     Campaign.totalMessages := totalMessages;
     Campaign.sentMessages := 0; Campaign.failedMessages := 0;
     Campaign.startedAt := None; Campaign.completedAt := None |}.

(** One row of the nested [messages: { create: ... }]; [key] is the id
    and the [createdAt] the database gives the row. *)
Definition new_message (campaignId instanceId : string)
    (instance : Gateway.InstanceRow) (to : string) (content : Content)
    (key : string * Z) : Message.t :=
  {| Message.id := key.1; Message.campaignId := Some campaignId;
     Message.instanceId := instanceId; Message.contactId := None;
     Message.waMessageId := None;
     Message.from := or_else (Gateway.waNumber instance) "unknown";
     Message.to := to; Message.direction := "OUTBOUND";
     Message.body := Some (or_else (text content) (or_else (caption content) ""));
     Message.mediaUrl := mediaUrl content;
     Message.mediaType :=
       Some (if String.eqb (type content) "media" then "image" else "text");
     Message.status := "PENDING"; Message.errorMsg := None;
     Message.createdAt := key.2; Message.sentAt := None;
     Message.deliveredAt := None; Message.readAt := None |}.

Module Simple.
(** [createSimpleCampaignSchema], parsed. *)
Record data := {
  name : string;
  instanceId : string;
  message : Content;
  recipients : list string;
  delay : Z }.

Definition rows (campaignId : string) (instance : Gateway.InstanceRow)
    (d : data) (keys : list (string * Z)) : list Message.t :=
  zip_with (λ to key, new_message campaignId (instanceId d) instance to
                        (message d) key)
    (recipients d) keys.

Definition campaign (d : data) : Campaign.t :=
  new_campaign (name d) (instanceId d) (delay d) (length (recipients d)).
End Simple.

Module Advanced.
(** [createAdvancedCampaignSchema], parsed. *)
Record data := {
  name : string;
  instanceId : string;
  messages : list (string * Content);
  delay : Z }.

Definition rows (campaignId : string) (instance : Gateway.InstanceRow)
    (d : data) (keys : list (string * Z)) : list Message.t :=
  zip_with (λ msg key, new_message campaignId (instanceId d) instance msg.1
                         msg.2 key)
    (messages d) keys.

Definition campaign (d : data) : Campaign.t :=
  new_campaign (name d) (instanceId d) (delay d) (length (messages d)).
End Advanced.

(** The keys the database generates are new: the campaign id is not in
    use, and the message ids are distinct, not in use, and one per row. *)
Definition fresh (st : Store.t) (id : string) (keys : list (string * Z))
    (rows : nat) : Prop :=
  Store.campaigns st !! id = None
  ∧ NoDup keys.*1
  ∧ Forall (λ k, k ∉ Message.id <$> Store.messages st) keys.*1
  ∧ length keys = rows.

#[global] Instance fresh_dec st id keys rows : Decision (fresh st id keys rows).
Proof. unfold fresh. apply _. Defined.

(** [prisma.campaign.create] with its nested message rows. *)
Definition campaign_create (id : string) (campaign : Campaign.t)
    (rows : list Message.t) (st : Store.t) : Store.t :=
  {| Store.campaigns := <[id := campaign]> (Store.campaigns st);
     Store.messages := Store.messages st ++ rows;
     Store.instances := Store.instances st |}.

Definition with_store (st : Store.t) (m : Memory) : Memory :=
  {| store := st; sessions := sessions m;
     runningProcessors := runningProcessors m;
     provider_log := provider_log m |}.

(** [POST /simple] and [POST /advanced] after parsing; [None] when the
    generated keys are not new, which a database does not do. *)
Definition createSimple (d : Simple.data) (id : string)
    (keys : list (string * Z)) (m : Memory) : option (Memory * HttpResponse) :=
  match Store.instances (store m) !! Simple.instanceId d with
  | None => Some (m, HTTPException 404 "Instance not found")
  | Some instance =>
    if decide (fresh (store m) id keys (length (Simple.recipients d))) then
      Some (with_store
              (campaign_create id (Simple.campaign d)
                 (Simple.rows id instance d keys) (store m)) m,
            Success "")
    else None
  end.

Definition createAdvanced (d : Advanced.data) (id : string)
    (keys : list (string * Z)) (m : Memory) : option (Memory * HttpResponse) :=
  match Store.instances (store m) !! Advanced.instanceId d with
  | None => Some (m, HTTPException 404 "Instance not found")
  | Some instance =>
    if decide (fresh (store m) id keys (length (Advanced.messages d))) then
      Some (with_store
              (campaign_create id (Advanced.campaign d)
                 (Advanced.rows id instance d keys) (store m)) m,
            Success "")
    else None
  end.

(** *** The interleaved process *)

(** Resuming a suspended task: the memory afterwards and the tasks that
    take its place (itself at a later [await], nothing once it has
    finished, or the processor a handler has started). *)
Definition resume_task (o : Oracle) (t : Task) (m : Memory)
    : Memory * list Task :=
  match t with
  | Processor campaignId pc =>
    let r := proc_step o campaignId pc (store m) (sessions m) in
    let log :=
      match pc, issued r with
      | AtSend _ message, Some request =>
          (Message.id message, request) :: provider_log m
      | _, _ => provider_log m
      end in
    match outcome r with
    | Suspended pc' =>
      ({| store := store_after r; sessions := sessions_after r;
          runningProcessors := runningProcessors m; provider_log := log |},
       [Processor campaignId pc'])
    | Returned | Rejected _ =>
      ({| store := store_after r; sessions := sessions_after r;
          runningProcessors := runningProcessors m ∖ {[campaignId]};
          provider_log := log |},
       [])
    end
  | StartHandler id =>
    let '(m', spawned, _) := start_write (now o) id m in (m', spawned)
  | ControlHandler id action =>
    let '(m', spawned, _) := control_write action id m in (m', spawned)
  end.

(** What can happen next in the process. [Elsewhere] stands for the
    writes of other code to the Message table (see [Store.foreign]). *)
Inductive Event :=
  | CreateSimple (d : Simple.data) (id : string) (keys : list (string * Z))
  | CreateAdvanced (d : Advanced.data) (id : string) (keys : list (string * Z))
  | StartRequest (id : string)
  | ControlRequest (id : string) (action : Action)
  | Resume (i : nat) (o : Oracle)
  | Connect (instanceId : string)
  | Disconnect (instanceId : string)
  | ConfigureInstance (instanceId : string) (row : Gateway.InstanceRow)
  | Elsewhere (messages : list Message.t).

Definition exec (e : Event) (w : World) : option World :=
  match e with
  | CreateSimple d id keys =>
    match createSimple d id keys (mem w) with
    | Some (m', _) => Some {| mem := m'; tasks := tasks w |}
    | None => None
    end
  | CreateAdvanced d id keys =>
    match createAdvanced d id keys (mem w) with
    | Some (m', _) => Some {| mem := m'; tasks := tasks w |}
    | None => None
    end
  | StartRequest id =>
    match start_check (sessions (mem w))
            (Store.campaigns (store (mem w)) !! id) with
    | Some _ => Some w
    | None => Some {| mem := mem w; tasks := tasks w ++ [StartHandler id] |}
    end
  | ControlRequest id action =>
    match control_check action (Store.campaigns (store (mem w)) !! id) with
    | Some _ => Some w
    | None =>
      Some {| mem := mem w; tasks := tasks w ++ [ControlHandler id action] |}
    end
  | Resume i o =>
    match tasks w !! i with
    | None => None
    | Some t =>
      let '(m', new) := resume_task o t (mem w) in
      Some {| mem := m';
              tasks := take i (tasks w) ++ new ++ drop (S i) (tasks w) |}
    end
  | Connect instanceId =>
    let m := mem w in
    Some {| mem :=
              {| store := store m;
                 sessions := (Gateway.getSession (sessions m)
                                (Store.instances (store m)) instanceId).1;
                 runningProcessors := runningProcessors m;
                 provider_log := provider_log m |};
            tasks := tasks w |}
  | Disconnect instanceId =>
    let m := mem w in
    Some {| mem :=
              {| store := store m;
                 sessions := Gateway.disconnect (sessions m) instanceId;
                 runningProcessors := runningProcessors m;
                 provider_log := provider_log m |};
            tasks := tasks w |}
  | ConfigureInstance instanceId row =>
    let m := mem w in
    Some {| mem :=
              with_store
                {| Store.campaigns := Store.campaigns (store m);
                   Store.messages := Store.messages (store m);
                   Store.instances := <[instanceId := row]> (Store.instances (store m)) |}
                m;
            tasks := tasks w |}
  | Elsewhere messages =>
    let m := mem w in
    if decide (Store.foreign (Store.messages (store m)) messages) then
      Some {| mem :=
                with_store
                  {| Store.campaigns := Store.campaigns (store m);
                     Store.messages := messages;
                     Store.instances := Store.instances (store m) |}
                  m;
              tasks := tasks w |}
    else None
  end.

(** The process starts with no campaign, no message and no task; the
    instance table and the session cache are arbitrary. *)
Definition initial (w : World) : Prop :=
  Store.campaigns (store (mem w)) = ∅
  ∧ Store.messages (store (mem w)) = []
  ∧ runningProcessors (mem w) = ∅
  ∧ provider_log (mem w) = []
  ∧ tasks w = [].

Inductive reachable : World → Prop :=
  | reachable_initial w : initial w → reachable w
  | reachable_exec w e w' : reachable w → exec e w = Some w' → reachable w'.

Fixpoint run (es : list Event) (w : World) : option World :=
  match es with
  | [] => Some w
  | e :: es' => match exec e w with Some w' => run es' w' | None => None end
  end.

(** *** One iteration of the loop, uninterrupted *)

Record Iteration := {
  it_store : Store.t;
  it_sessions : Gateway.Sessions;
  it_issued : list Gateway.Request;
  it_outcome : option Outcome }.

(** Resume the processor again and again until it is back at the top of
    the loop or has left the function; [os k] is the environment of the
    [k]-th resumption. [it_outcome] is [None] if [fuel] runs out. *)
Fixpoint run_iteration (fuel : nat) (os : nat → Oracle) (k : nat)
    (campaignId : string) (pc : Pc) (st : Store.t)
    (sessions : Gateway.Sessions) : Iteration :=
  match fuel with
  | O => {| it_store := st; it_sessions := sessions; it_issued := [];
            it_outcome := None |}
  | S fuel' =>
    let r := proc_step (os k) campaignId pc st sessions in
    match outcome r with
    | Suspended AtLoad | Returned | Rejected _ =>
      {| it_store := store_after r; it_sessions := sessions_after r;
         it_issued := option_list (issued r);
         it_outcome := Some (outcome r) |}
    | Suspended pc' =>
      let rest := run_iteration fuel' os (S k) campaignId pc'
                    (store_after r) (sessions_after r) in
      {| it_store := it_store rest; it_sessions := it_sessions rest;
         it_issued := option_list (issued r) ++ it_issued rest;
         it_outcome := it_outcome rest |}
    end
  end.

(** The longest path through the body resumes the processor eight times. *)
Definition iteration (os : nat → Oracle) (campaignId : string)
    (st : Store.t) (sessions : Gateway.Sessions) : Iteration :=
  run_iteration 8 os 0 campaignId AtLoad st sessions.

End Dispatcher.

(** ** The provider webhook receiver ([POST /webhook]) *)

Module Receiver.

(** [s.toUpperCase()] on the letters [a] to [z], which are all the
    letters of the status strings the provider sends ([sent],
    [delivered], [read], [failed]); other characters are left as they
    are, also those that JavaScript would map. *)
Definition upper_ascii (c : Ascii.ascii) : Ascii.ascii :=
  let n := Ascii.nat_of_ascii c in
  if (97 <=? n)%nat && (n <=? 122)%nat then Ascii.ascii_of_nat (n - 32) else c.

Fixpoint toUpperCase (s : string) : string :=
  match s with
  | EmptyString => EmptyString
  | String c r => String (upper_ascii c) (toUpperCase r)
  end.

(** *** The payload

    [{object, entry: [{changes: [{value: {metadata, messages?, statuses?,
    contacts?}}]}]}].  A field the handler guards ([?.], [||], [if]) is an
    [option]; the fields of a message that the provider always sends are
    plain. *)

Record Metadata := {
  phone_number_id : option string;
  display_phone_number : string }.

Record WaContact := {
  wa_id : string;
  profile_name : option string }.          (* [profile?.name] *)

Record Media := {
  media_id : option string;
  caption : option string;
  mime_type : option string }.

Record WaMessage := {
  id : string;
  from : string;
  type : string;
  timestamp : Z;                            (* [Number(message.timestamp)] *)
  text_body : option string;                (* [message.text?.body] *)
  media : option Media }.                   (* [message[message.type]] *)

Record WaStatus := {
  status_id : option string;                (* [status.id] *)
  status : option string }.                 (* [status.status] *)

Record Value := {
  metadata : option Metadata;
  messages : option (list WaMessage);
  statuses : option (list WaStatus);
  contacts : option (list WaContact) }.

Record Change := { value : option Value }.
Record Entry := { changes : option (list Change) }.
Record Body := { object : option string; entry : option (list Entry) }.

(** *** The store and what the handler sets off *)

Record Contact := {
  contact_id : string;
  contact_instanceId : string;
  waId : string;
  pushName : string }.

Record Db := {
  instances : gmap string Gateway.InstanceRow;
  contact_rows : list Contact;
  message_rows : list Message.t }.

(** The [data] argument of a [dispatchWebhook] call. *)
Inductive EventData :=
  | MessageData (message : WaMessage) (_metadata : Metadata)
  | AckData (status : WaStatus).

(** A call [dispatchWebhook(instanceId, event, data)]. *)
Record Dispatch := {
  d_instanceId : string;
  d_event : string;
  d_data : EventData }.

(** A call [handleMediaDownload(instanceId, messageId, type, mimetype)]. *)
Record Download := {
  dl_instanceId : string;
  dl_messageId : string;
  dl_type : string;
  dl_mimetype : option string }.

(** [keys] counts the row ids generated so far; [dispatched] and
    [downloads] list the calls made, latest first. *)
Record State := {
  db : Db;
  dispatched : list Dispatch;
  downloads : list Download;
  keys : nat }.

(** *** Code that may throw while changing the state *)

Definition M (A : Type) : Type := State → State * (Thrown + A).

#[global] Instance M_ret : MRet M := λ A a s, (s, inr a).

#[global] Instance M_bind : MBind M := λ A B f m s,
  match m s with
  | (s', inr a) => f a s'
  | (s', inl e) => (s', inl e)
  end.

Definition throw {A} (e : Thrown) : M A := λ s, (s, inl e).

Definition get_db : M Db := λ s, (s, inr (db s)).

Definition put_db (d : Db) : M unit := λ s,
  ({| db := d; dispatched := dispatched s; downloads := downloads s;
      keys := keys s |}, inr tt).

(** The next generated row id. *)
Definition new_key (uuid : nat → string) : M string := λ s,
  ({| db := db s; dispatched := dispatched s; downloads := downloads s;
      keys := S (keys s) |}, inr (uuid (keys s))).

Definition dispatchWebhook (instanceId event : string) (data : EventData)
    : M unit := λ s,
  ({| db := db s;
      dispatched := {| d_instanceId := instanceId; d_event := event;
                       d_data := data |} :: dispatched s;
      downloads := downloads s; keys := keys s |}, inr tt).

Definition handleMediaDownload (instanceId messageId type : string)
    (mimetype : option string) : M unit := λ s,
  ({| db := db s; dispatched := dispatched s;
      downloads := {| dl_instanceId := instanceId; dl_messageId := messageId;
                      dl_type := type; dl_mimetype := mimetype |} :: downloads s;
      keys := keys s |}, inr tt).

(** [for (const x of l) { body }]: an exception leaves the loop. *)
Fixpoint for_of {A} (l : list A) (body : A → M unit) : M unit :=
  match l with
  | [] => mret tt
  | x :: rest => body x ;; for_of rest body
  end.

(** *** Queries *)

(** [prisma.instance.findFirst({ where: { waPhoneNumberId } })] *)
Definition instance_findFirst (phone_number_id : string) (d : Db)
    : option (string * Gateway.InstanceRow) :=
  list_find (λ ir, Gateway.waPhoneNumberId ir.2 = Some phone_number_id)
            (map_to_list (instances d))
  ≫= λ found, Some found.2.

(** [prisma.contact.findUnique({ where: { instanceId_waId } })] *)
Definition contact_findUnique (instanceId waId' : string) (d : Db)
    : option Contact :=
  snd <$> list_find (λ c, contact_instanceId c = instanceId ∧ waId c = waId')
            (contact_rows d).

(** [prisma.message.findUnique({ where: { waMessageId } })] *)
Definition message_findUnique (waMessageId : string) (d : Db)
    : option Message.t :=
  snd <$> list_find (λ m, Message.waMessageId m = Some waMessageId)
            (message_rows d).

Definition set_pushName (n : string) (c : Contact) : Contact :=
  {| contact_id := contact_id c; contact_instanceId := contact_instanceId c;
     waId := waId c; pushName := n |}.

(** [value.contacts?.find(c => c.wa_id === from)?.profile?.name] *)
Definition pushName_of (v : Value) (from : string) : option string :=
  match contacts v with
  | None => None
  | Some cs =>
    match list_find (λ c, wa_id c = from) cs with
    | Some (_, c) => profile_name c
    | None => None
    end
  end.

(** [bodyText] and [mediaUrl] as the chain of [if]s leaves them. *)
Definition bodyText_of (message : WaMessage) : option string :=
  let t := type message in
  if String.eqb t "text" then text_body message
  else if String.eqb t "image" || String.eqb t "video"
          || String.eqb t "document" then media message ≫= caption
  else Some "".

Definition mediaUrl_of (message : WaMessage) : option string :=
  let t := type message in
  if String.eqb t "text" then Some ""
  else if String.eqb t "image" || String.eqb t "video"
          || String.eqb t "audio" || String.eqb t "document"
       then media message ≫= media_id
  else Some "".

(** *** The handler *)

Section handler.
Context (uuid : nat → string) (now : Z).

(** The body of [for (const message of value.messages)]. *)
Definition on_message (v : Value) (message : WaMessage) : M unit :=
  match metadata v with
  | None => mret tt
  | Some md =>
    if truthy (phone_number_id md) then
      d ← get_db;
      match instance_findFirst (or_else (phone_number_id md) "") d with
      | None => mret tt
      | Some (instanceId, _) =>
        let pushName' := pushName_of v (from message) in
        contact ←
          match contact_findUnique instanceId (from message) d with
          | None =>
            key ← new_key uuid;
            let c := {| contact_id := key; contact_instanceId := instanceId;
                        waId := from message;
                        pushName := or_else pushName' (from message) |} in
            d ← get_db;
            put_db {| instances := instances d;
                      contact_rows := contact_rows d ++ [c];
                      message_rows := message_rows d |} ;;
            mret c
          | Some c =>
            (if truthy pushName'
                && negb (String.eqb (pushName c) (or_else pushName' ""))
             then
               d ← get_db;
               put_db {| instances := instances d;
                         contact_rows :=
                           (λ c', if decide (contact_id c' = contact_id c)
                                  then set_pushName (or_else pushName' "") c'
                                  else c') <$> contact_rows d;
                         message_rows := message_rows d |}
             else mret tt) ;;
            mret c
          end;
        let bodyText := bodyText_of message in
        let mediaUrl := mediaUrl_of message in
        d ← get_db;
        match message_findUnique (id message) d with
        | Some _ => mret tt
        | None =>
          key ← new_key uuid;
          put_db {| instances := instances d;
                    contact_rows := contact_rows d;
                    message_rows := Store.inbound_create
                      {| Message.id := key; Message.campaignId := None;
                         Message.instanceId := instanceId;
                         Message.contactId := Some (contact_id contact);
                         Message.waMessageId := Some (id message);
                         Message.from := from message;
                         Message.to := display_phone_number md;
                         Message.direction := "INBOUND";
                         Message.body := bodyText;
                         Message.mediaUrl := mediaUrl;
                         Message.mediaType := Some (type message);
                         Message.status := "DELIVERED";
                         Message.errorMsg := None;
                         Message.createdAt := now;
                         Message.sentAt := Some (timestamp message * 1000)%Z;
                         Message.deliveredAt := None;
                         Message.readAt := None |} (message_rows d) |} ;;
          if bool_decide (type message ∈
                            ["image"; "video"; "audio"; "document"; "sticker"])
             && truthy mediaUrl
          then handleMediaDownload instanceId (id message) (type message)
                 (media message ≫= mime_type)
          else mret tt
        end ;;
        dispatchWebhook instanceId "message" (MessageData message md)
      end
    else mret tt
  end.

(** The body of [for (const status of value.statuses)]. *)
Definition on_status (v : Value) (st : WaStatus) : M unit :=
  match metadata v with
  | None => mret tt
  | Some md =>
    if truthy (phone_number_id md) then
      d ← get_db;
      match instance_findFirst (or_else (phone_number_id md) "") d with
      | None => mret tt
      | Some (instanceId, _) =>
        (if truthy (status_id st) then
           match status st with
           | None =>
             throw (ErrorObj
               "Cannot read properties of undefined (reading 'toUpperCase')")
           | Some s =>
             put_db {| instances := instances d;
                       contact_rows := contact_rows d;
                       message_rows :=
                         Store.update_where_waMessageId
                           (or_else (status_id st) "")
                           (Message.ack (toUpperCase s)
                              (if String.eqb s "delivered" then Some now else None)
                              (if String.eqb s "read" then Some now else None))
                           (message_rows d) |}
           end
         else mret tt) ;;
        dispatchWebhook instanceId "message_ack" (AckData st)
      end
    else mret tt
  end.

(** The body of [for (const change of entry.changes || [])]. *)
Definition on_change (change : Change) : M unit :=
  match value change with
  | None =>
    throw (ErrorObj "Cannot read properties of undefined (reading 'metadata')")
  | Some v =>
    match messages v with
    | Some ms => for_of ms (on_message v)
    | None => mret tt
    end ;;
    match statuses v with
    | Some ss => for_of ss (on_status v)
    | None => mret tt
    end
  end.

Definition on_entry (e : Entry) : M unit :=
  for_of (default [] (changes e)) on_change.

(** The [try] block after [c.req.json()] has resolved. *)
Definition process (body : Body) : M unit :=
  if decide (object body = Some "whatsapp_business_account") then
    for_of (default [] (entry body)) on_entry
  else mret tt.

Inductive Reply :=
  | Ok                       (* [c.json({ status: 'ok' })] *)
  | InternalServerError.     (* [c.json({ error: ... }, 500)] *)

(** [webhooks.post('/')]: [request] is [None] when the request body is
    not JSON, so that [c.req.json()] rejects. *)
Definition post (request : option Body) (s : State) : State * Reply :=
  match request with
  | None => (s, InternalServerError)
  | Some body =>
    match process body s with
    | (s', inr _) => (s', Ok)
    | (s', inl _) => (s', InternalServerError)
    end
  end.

End handler.

(** The rows holding a given provider message id, and the [message]
    events dispatched for it. *)
Definition rows_of (waMessageId : string) (s : State) : list Message.t :=
  filter (λ m, Message.waMessageId m = Some waMessageId) (message_rows (db s)).

Definition is_message_event (waMessageId : string) (d : Dispatch) : Prop :=
  d_event d = "message"
  ∧ match d_data d with
    | MessageData m _ => id m = waMessageId
    | AckData _ => False
    end.

#[global] Instance is_message_event_dec w d : Decision (is_message_event w d).
Proof. unfold is_message_event. destruct (d_data d); apply _. Defined.

Definition message_events (waMessageId : string) (s : State) : list Dispatch :=
  filter (is_message_event waMessageId) (dispatched s).

End Receiver.

Local Close Scope string_scope.

(** ** What the properties are stated with *)

Module Control.
Import Dispatcher.

(** The statuses from which each control action is a valid transition. *)
Definition allowed (action : Action) (s : CampaignStatus.t) : Prop :=
  match action with
  | pause => s = CampaignStatus.RUNNING
  | resume => s = CampaignStatus.PAUSED
  | cancel => s = CampaignStatus.PENDING ∨ s = CampaignStatus.RUNNING
              ∨ s = CampaignStatus.PAUSED
  end.

(** The status a valid transition leads to. *)
Definition target (action : Action) : CampaignStatus.t :=
  match action with
  | pause => CampaignStatus.PAUSED
  | resume => CampaignStatus.RUNNING
  | cancel => CampaignStatus.CANCELLED
  end.

(** A response with a 4xx status. *)
Definition client_error (r : HttpResponse) : Prop :=
  ∃ code message, r = HTTPException code message ∧ (400 ≤ code < 500)%Z.

(** [processCampaign(id)] was called between [w] and [w']: the id is
    registered, and a new loop was started unless one was registered. *)
Definition loop_invoked (id : string) (w w' : World) : Prop :=
  runningProcessors (mem w') = {[id]} ∪ runningProcessors (mem w)
  ∧ tasks w' = tasks w ++
      (if decide (id ∈ runningProcessors (mem w)) then []
       else [Processor id AtLoad]).

(** Nothing but the store changed. *)
Definition loop_untouched (w w' : World) : Prop :=
  runningProcessors (mem w') = runningProcessors (mem w)
  ∧ tasks w' = tasks w.

End Control.

Module Selection.
Import Dispatcher.

(** What [findFirst({ where: { campaignId, status: 'PENDING' }, orderBy:
    { createdAt: 'asc' } })] promises of its answer, however the
    database orders rows of equal [createdAt]: a PENDING row of the
    campaign that no other one precedes in [createdAt], or nothing when
    the campaign has no PENDING row. *)
Definition earliest_pending (campaignId : string) (st : Store.t)
    (answer : option Message.t) : Prop :=
  match answer with
  | Some m =>
    m ∈ Store.messages st
    ∧ Store.pending_of campaignId m
    ∧ ∀ m', m' ∈ Store.messages st → Store.pending_of campaignId m' →
            (Message.createdAt m ≤ Message.createdAt m')%Z
  | None => ∀ m, m ∈ Store.messages st → ¬ Store.pending_of campaignId m
  end.

(** The loop from the result of [message.findFirst] to its next [await]
    (the step [AtFind] of [proc_step]), for a database that answers the
    query with [findFirst]. *)
Definition select (findFirst : string → Store.t → option Message.t)
    (campaignId : string) (campaign : Campaign.t) (st : Store.t)
    (sessions : Gateway.Sessions) : Resumed :=
  match findFirst campaignId st with
  | None => resumed st sessions (Suspended AtComplete)
  | Some message => resumed st sessions (Suspended (AtSend campaign message))
  end.

(** A database that, among the rows of least [createdAt], answers with
    the one inserted last. *)
Definition last_inserted (campaignId : string) (st : Store.t)
    : option Message.t :=
  Store.oldest
    (reverse (filter (Store.pending_of campaignId) (Store.messages st))).

End Selection.

Module Safety.
Import Dispatcher.

(** The campaign ids of the active dispatch loops. *)
Definition proc_id (t : Task) : option string :=
  match t with
  | Processor campaignId _ => Some campaignId
  | _ => None
  end.

Definition proc_ids (ts : list Task) : list string := omap proc_id ts.

(** The message a loop has selected and not yet marked SENT or FAILED. *)
Definition in_flight (pc : Pc) : option Message.t :=
  match pc with
  | AtSend _ m | AtMarkSent _ m | AtMarkFailed _ m _ => Some m
  | _ => None
  end.

(** The message whose gateway call has settled but which is not marked. *)
Definition unmarked (pc : Pc) : option Message.t :=
  match pc with
  | AtMarkSent _ m | AtMarkFailed _ m _ => Some m
  | _ => None
  end.

(** 1 for a loop of [campaignId] that has marked its message and is about
    to increment a counter. *)
Definition uncounted (campaignId : string) (t : Task) : nat :=
  match t with
  | Processor id (AtIncrementSent _ _ | AtIncrementFailed _) =>
      if decide (id = campaignId) then 1 else 0
  | _ => 0
  end.

Definition pending_count (campaignId : string) (ms : list Message.t) : nat :=
  length (filter (Store.pending_of campaignId) ms).

(** How many more times a loop at [pc] can be resumed before it is back
    at the top of the loop or has left the function. *)
Definition rank (pc : Pc) : nat :=
  match pc with
  | AtLoad => 7
  | AtFind _ => 6
  | AtSend _ _ => 5
  | AtMarkSent _ _ => 4
  | AtIncrementSent _ _ => 3
  | AtMarkFailed _ _ _ => 2
  | AtIncrementFailed _ => 1
  | AtSleep _ | AtPause | AtComplete => 0
  end.

(** The rows of a new campaign: PENDING, owned by it, keyed by [keys]. *)
Definition new_rows (id : string) (keys : list (string * Z))
    (rows : list Message.t) : Prop :=
  Message.id <$> rows = keys.*1
  ∧ Forall (λ r, Message.campaignId r = Some id
                 ∧ Message.status r = "PENDING"%string
                 ∧ Message.waMessageId r = None
                 ∧ Message.contactId r = None) rows.

(** A campaign as it is created. *)
Definition created (c : Campaign.t) (n : nat) : Prop :=
  Campaign.status c = CampaignStatus.PENDING
  ∧ Campaign.totalMessages c = n
  ∧ Campaign.sentMessages c = 0
  ∧ Campaign.failedMessages c = 0.

(** A write of a handler: it changes the status (and [startedAt]) only,
    and never to COMPLETED. *)
Definition status_write (data : Campaign.t → Campaign.t) : Prop :=
  ∀ c, Campaign.totalMessages (data c) = Campaign.totalMessages c
       ∧ Campaign.sentMessages (data c) = Campaign.sentMessages c
       ∧ Campaign.failedMessages (data c) = Campaign.failedMessages c
       ∧ Campaign.status (data c) ≠ CampaignStatus.COMPLETED.

(** A write of the loop that marks a message: the row keeps its key, its
    campaign and its links, and is no longer PENDING. *)
Definition marking (data : Message.t → Message.t) : Prop :=
  ∀ m, Message.id (data m) = Message.id m
       ∧ Message.campaignId (data m) = Message.campaignId m
       ∧ Message.status (data m) ≠ "PENDING"%string
       ∧ Message.waMessageId (data m) = Message.waMessageId m
       ∧ Message.contactId (data m) = Message.contactId m.

(** A write of the loop that counts a message: one of the two counters
    goes up by one, nothing else changes. *)
Definition counting (data : Campaign.t → Campaign.t) : Prop :=
  ∀ c, Campaign.totalMessages (data c) = Campaign.totalMessages c
       ∧ Campaign.status (data c) = Campaign.status c
       ∧ Campaign.sentMessages c ≤ Campaign.sentMessages (data c)
       ∧ Campaign.failedMessages c ≤ Campaign.failedMessages (data c)
       ∧ Campaign.sentMessages (data c) + Campaign.failedMessages (data c)
         = Campaign.sentMessages c + Campaign.failedMessages c + 1.

Definition with_campaign (id : string) (c : Campaign.t) (st : Store.t)
    : Store.t :=
  {| Store.campaigns := <[id := c]> (Store.campaigns st);
     Store.messages := Store.messages st;
     Store.instances := Store.instances st |}.

Definition with_messages (ms : list Message.t) (st : Store.t) : Store.t :=
  {| Store.campaigns := Store.campaigns st;
     Store.messages := ms;
     Store.instances := Store.instances st |}.

(** The resumptions of a loop that write nothing. *)
Inductive quiet (id : string) (st : Store.t) : Pc → Pc → Prop :=
  | quiet_pause : quiet id st AtLoad AtPause
  | quiet_find c : quiet id st AtLoad (AtFind c)
  | quiet_complete c :
      Store.findFirstPending id st = None → quiet id st (AtFind c) AtComplete
  | quiet_send c m :
      Store.findFirstPending id st = Some m →
      quiet id st (AtFind c) (AtSend c m)
  | quiet_sleep c : quiet id st (AtSleep c) AtLoad.

(** What a resumption of the loop of [id] at a given [await] does to the
    store and to the provider log, and where it leaves the loop ([None]:
    the function is left), as long as the rows the loop works on exist. *)
Inductive effect (id : string) (st : Store.t)
    (log : list (string * Gateway.Request))
    : Pc → Store.t → list (string * Gateway.Request) → option Pc → Prop :=
  | effect_exit : effect id st log AtLoad st log None
  | effect_quiet pc pc' :
      quiet id st pc pc' → effect id st log pc st log (Some pc')
  | effect_send c m pc' log' :
      unmarked pc' = Some m →
      log' = log ∨ (∃ request, log' = (Message.id m, request) :: log) →
      effect id st log (AtSend c m) st log' (Some pc')
  | effect_pause c :
      Store.campaigns st !! id = Some c →
      effect id st log AtPause
        (with_campaign id (Campaign.set_status CampaignStatus.PAUSED c) st)
        log None
  | effect_complete c now :
      Store.campaigns st !! id = Some c →
      effect id st log AtComplete
        (with_campaign id (Campaign.complete now c) st) log None
  | effect_mark pc m data pc' :
      unmarked pc = Some m → uncounted id (Processor id pc') = 1 →
      marking data →
      effect id st log pc
        (with_messages
           (Store.update_where_id (Message.id m) data <$> Store.messages st) st)
        log (Some pc')
  | effect_count pc c c0 data :
      uncounted id (Processor id pc) = 1 →
      Store.campaigns st !! id = Some c0 → counting data →
      effect id st log pc (with_campaign id (data c0) st) log (Some (AtSleep c)).

(** What the loop of [id] counts for once it has been resumed. *)
Definition uncounted_next (id : string) (next : option Pc) : nat :=
  match next with
  | Some pc' => uncounted id (Processor id pc')
  | None => 0
  end.

(** The tasks a resumed loop leaves in its place. *)
Definition continuation (id : string) (next : option Pc) : list Task :=
  match next with
  | Some pc' => [Processor id pc']
  | None => []
  end.

(** The world after the loop of [id], found between [l1] and [l2], has
    been resumed with the given effect. *)
Definition after_effect (w : World) (l1 l2 : list Task) (id : string)
    (st' : Store.t) (ss' : Gateway.Sessions)
    (log' : list (string * Gateway.Request)) (next : option Pc) : World :=
  {| mem := {| store := st'; sessions := ss';
               runningProcessors :=
                 match next with
                 | Some _ => runningProcessors (mem w)
                 | None => runningProcessors (mem w) ∖ {[id]}
                 end;
               provider_log := log' |};
     tasks := l1 ++ continuation id next ++ l2 |}.

(** [w'] differs from [w] by what handlers do: the loops are those of
    [w], with perhaps a new one at the top of its body; the rows and the
    log are those of [w]; at most one campaign has its status written. *)
Record handled (w w' : World) : Prop := {
  handled_loops : ∀ id pc,
    Processor id pc ∈ tasks w' → Processor id pc ∈ tasks w ∨ pc = AtLoad;
  handled_kept : ∀ id pc,
    Processor id pc ∈ tasks w → Processor id pc ∈ tasks w';
  handled_uncounted : ∀ id,
    sum_list_with (uncounted id) (tasks w')
    = sum_list_with (uncounted id) (tasks w);
  handled_messages :
    Store.messages (store (mem w')) = Store.messages (store (mem w));
  handled_log : provider_log (mem w') = provider_log (mem w);
  handled_campaigns :
    Store.campaigns (store (mem w')) = Store.campaigns (store (mem w))
    ∨ ∃ id c data,
        Store.campaigns (store (mem w)) !! id = Some c
        ∧ status_write data
        ∧ Store.campaigns (store (mem w'))
          = <[id := data c]> (Store.campaigns (store (mem w))) }.

(** A campaign's total never changes and its counters never go down. *)
Definition grown (c c' : Campaign.t) : Prop :=
  Campaign.totalMessages c' = Campaign.totalMessages c
  ∧ Campaign.sentMessages c ≤ Campaign.sentMessages c'
  ∧ Campaign.failedMessages c ≤ Campaign.failedMessages c'.

(** The rows of campaigns carry no provider message id and no contact. *)
Definition unlinked (ms : list Message.t) : Prop :=
  ∀ m, m ∈ ms → is_Some (Message.campaignId m) →
       Message.waMessageId m = None ∧ Message.contactId m = None.

(** The world after other code has written [ms'] to the Message table. *)
Definition elsewhere (w : World) (ms' : list Message.t) : World :=
  {| mem := with_store
              {| Store.campaigns := Store.campaigns (store (mem w));
                 Store.messages := ms';
                 Store.instances := Store.instances (store (mem w)) |}
              (mem w);
     tasks := tasks w |}.

(** The loops and [runningProcessors]. *)
Record loops_ok (w : World) : Prop := {
  loops_single : NoDup (proc_ids (tasks w));
  loops_registered : ∀ id,
    id ∈ runningProcessors (mem w) ↔ id ∈ proc_ids (tasks w);
  loops_campaign : ∀ id pc,
    Processor id pc ∈ tasks w →
    is_Some (Store.campaigns (store (mem w)) !! id) }.

(** The message table. *)
Record rows_ok (w : World) : Prop := {
  rows_keys : NoDup (Message.id <$> Store.messages (store (mem w)));
  rows_owner : ∀ m id,
    m ∈ Store.messages (store (mem w)) →
    Message.campaignId m = Some id →
    is_Some (Store.campaigns (store (mem w)) !! id);
  rows_unlinked : unlinked (Store.messages (store (mem w)));
  rows_in_flight : ∀ id pc m,
    Processor id pc ∈ tasks w → in_flight pc = Some m →
    ∃ m', m' ∈ Store.messages (store (mem w))
          ∧ Message.id m' = Message.id m ∧ Store.pending_of id m' }.

(** The counters. *)
Record counters_ok (w : World) : Prop := {
  counters_sum : ∀ id c,
    Store.campaigns (store (mem w)) !! id = Some c →
    Campaign.sentMessages c + Campaign.failedMessages c
      + pending_count id (Store.messages (store (mem w)))
      + sum_list_with (uncounted id) (tasks w)
    = Campaign.totalMessages c;
  counters_done : ∀ id c,
    Store.campaigns (store (mem w)) !! id = Some c →
    Campaign.status c = CampaignStatus.COMPLETED
      ∨ Processor id AtComplete ∈ tasks w →
    pending_count id (Store.messages (store (mem w))) = 0
    ∧ sum_list_with (uncounted id) (tasks w) = 0 }.

(** The requests handed to the provider. *)
Record log_ok (w : World) : Prop := {
  log_once : NoDup (provider_log (mem w)).*1;
  log_known : ∀ mid,
    mid ∈ (provider_log (mem w)).*1 →
    mid ∈ Message.id <$> Store.campaign_rows (Store.messages (store (mem w)));
  log_marked : ∀ m,
    m ∈ Store.messages (store (mem w)) →
    Message.id m ∈ (provider_log (mem w)).*1 →
    Message.status m = "PENDING"%string →
    ∃ id pc m', Processor id pc ∈ tasks w ∧ unmarked pc = Some m'
                ∧ Message.id m' = Message.id m }.

Record invariant (w : World) : Prop := {
  inv_loops : loops_ok w;
  inv_rows : rows_ok w;
  inv_counters : counters_ok w;
  inv_log : log_ok w }.

End Safety.

Module Ingestion.
Import Receiver.

(** A computation that does not throw. *)
Definition returns {A} (m : M A) : Prop := ∀ s, ∃ s' a, m s = (s', inr a).

(** A status update the handler can process: when it carries an id, it
    carries a status string too. *)
Definition status_ok (st : WaStatus) : Prop :=
  truthy (status_id st) = true → is_Some (status st).

(** A message whose [timestamp], in seconds, is a time that [Date] can
    represent (8.64e15 ms on either side of the epoch); [new Date] of
    anything else is an invalid date, which the [create] does not take. *)
Definition timestamp_ok (m : WaMessage) : Prop :=
  (-8640000000000 ≤ timestamp m ≤ 8640000000000)%Z.

(** A change the handler can process: it has a [value], and the messages
    and the status updates in it are processable. *)
Definition change_ok (c : Change) : Prop :=
  ∃ v, value c = Some v
       ∧ Forall timestamp_ok (default [] (messages v))
       ∧ Forall status_ok (default [] (statuses v)).

(** A payload all of whose items the handler can process. *)
Definition processable (b : Body) : Prop :=
  Forall (λ e, Forall change_ok (default [] (changes e))) (default [] (entry b)).

(** A payload of the provider with these entries. *)
Definition batch (es : list Entry) : Body :=
  {| object := Some "whatsapp_business_account"%string; entry := Some es |}.

(** The change [c] cut off after the status updates [sts]. *)
Definition up_to (sts : list WaStatus) (v : Value) : Change :=
  {| value := Some {| metadata := metadata v; messages := messages v;
                      statuses := Some sts; contacts := contacts v |} |}.

End Ingestion.

Local Open Scope string_scope.

(** ** Sample data *)

Module Sample.

Definition instance1 : Gateway.InstanceRow :=
  {| Gateway.waNumber := Some "5511900000000";
     Gateway.waPhoneNumberId := Some "106540352242922";
     Gateway.waAccessToken := Some "EAAG-token";
     Gateway.waBusinessAccountId := Some "102290129340398" |}.

Definition session1 : Gateway.OfficialInstanceSession :=
  {| Gateway.phoneNumberId := "106540352242922";
     Gateway.accessToken := "EAAG-token";
     Gateway.businessAccountId := "102290129340398" |}.

Definition uuid (n : nat) : string := "row-" +:+ pretty n.

(** *** The receiver *)

Definition metadata1 : Receiver.Metadata :=
  {| Receiver.phone_number_id := Some "106540352242922";
     Receiver.display_phone_number := "5511900000000" |}.

Definition unknown_metadata : Receiver.Metadata :=
  {| Receiver.phone_number_id := Some "999999999999999";
     Receiver.display_phone_number := "5511911111111" |}.

Definition hello : Receiver.WaMessage :=
  {| Receiver.id := "wamid.HBgLNTUxMTk5";
     Receiver.from := "5511988887777";
     Receiver.type := "text";
     Receiver.timestamp := 1700000000;
     Receiver.text_body := Some "hello";
     Receiver.media := None |}.

Definition value_of (md : Receiver.Metadata) (ms : list Receiver.WaMessage)
    : Receiver.Value :=
  {| Receiver.metadata := Some md; Receiver.messages := Some ms;
     Receiver.statuses := None;
     Receiver.contacts :=
       Some [ {| Receiver.wa_id := "5511988887777";
                 Receiver.profile_name := Some "Ana" |} ] |}.

Definition payload (changes : list Receiver.Change) : Receiver.Body :=
  {| Receiver.object := Some "whatsapp_business_account";
     Receiver.entry := Some [ {| Receiver.changes := Some changes |} ] |}.

(** One inbound text message for a known phone-number id. *)
Definition delivery : Receiver.Body :=
  payload [ {| Receiver.value := Some (value_of metadata1 [hello]) |} ].

(** One inbound message for a phone-number id no instance has. *)
Definition stray : Receiver.Body :=
  payload [ {| Receiver.value := Some (value_of unknown_metadata [hello]) |} ].

(** A change without [value], then the inbound message of [delivery]. *)
Definition broken_then_delivery : Receiver.Body :=
  payload [ {| Receiver.value := None |};
            {| Receiver.value := Some (value_of metadata1 [hello]) |} ].

Definition receiver0 : Receiver.State :=
  {| Receiver.db :=
       {| Receiver.instances := {[ "inst-1" := instance1 ]};
          Receiver.contact_rows := [];
          Receiver.message_rows := [] |};
     Receiver.dispatched := [];
     Receiver.downloads := [];
     Receiver.keys := 0 |}.

(** *** The dispatcher *)

Definition text (s : string) : Dispatcher.Content :=
  {| Dispatcher.type := "text"; Dispatcher.text := Some s;
     Dispatcher.mediaUrl := None; Dispatcher.caption := None |}.

Definition promo : Dispatcher.Simple.data :=
  {| Dispatcher.Simple.name := "promo";
     Dispatcher.Simple.instanceId := "inst-1";
     Dispatcher.Simple.message := text "hi";
     Dispatcher.Simple.recipients := ["5511911110000"; "5511922220000"];
     Dispatcher.Simple.delay := 1000 |}.

Definition world0 : Dispatcher.World :=
  {| Dispatcher.mem :=
       {| Dispatcher.store :=
            {| Store.campaigns := ∅; Store.messages := [];
               Store.instances := {[ "inst-1" := instance1 ]} |};
          Dispatcher.sessions := {[ "inst-1" := session1 ]};
          Dispatcher.runningProcessors := ∅;
          Dispatcher.provider_log := [] |};
     Dispatcher.tasks := [] |}.

Definition accepted : Gateway.FetchResult :=
  Gateway.FetchResolves
    {| Gateway.ok := true; Gateway.statusText := "OK";
       Gateway.body := Gateway.Json None |}.

Definition rejected : Gateway.FetchResult :=
  Gateway.FetchResolves
    {| Gateway.ok := false; Gateway.statusText := "Bad Request";
       Gateway.body :=
         Gateway.Json (Some "(#131030) Recipient phone number not in allowed list") |}.

Definition at_time (t : Z) (net : Gateway.FetchResult) : Dispatcher.Oracle :=
  {| Dispatcher.now := t; Dispatcher.net := net |}.

(** The rows the receiver has stored after [delivery]. *)
Definition inbound_rows : list Message.t :=
  Receiver.message_rows
    (Receiver.db (Receiver.post uuid 5 (Some delivery) receiver0).1).

(** The receiver stores an inbound message; the campaign is created and
    started (twice, the two requests read the store before either
    writes), then the loop runs on its own for an iteration whose send
    the provider rejects. *)
Definition script : list Dispatcher.Event :=
  [ Dispatcher.Elsewhere inbound_rows;
    Dispatcher.CreateSimple promo "camp-1" [("msg-1", 10%Z); ("msg-2", 10%Z)];
    Dispatcher.StartRequest "camp-1";
    Dispatcher.StartRequest "camp-1";
    Dispatcher.Resume 0 (at_time 20 accepted);
    Dispatcher.Resume 1 (at_time 21 accepted);
    Dispatcher.Resume 0 (at_time 22 accepted);
    Dispatcher.Resume 0 (at_time 23 accepted);
    Dispatcher.Resume 0 (at_time 24 rejected);
    Dispatcher.Resume 0 (at_time 25 accepted);
    Dispatcher.Resume 0 (at_time 26 accepted) ].

(** A store with the campaign of [script] running. *)
Definition store1 : Store.t :=
  match Dispatcher.run (take 5 script) world0 with
  | Some w => Dispatcher.store (Dispatcher.mem w)
  | None => Dispatcher.store (Dispatcher.mem world0)
  end.

Definition sessions1 : Gateway.Sessions := {[ "inst-1" := session1 ]}.

(** The world at the end of [script]. *)
Definition world1 : Dispatcher.World :=
  default world0 (Dispatcher.run script world0).

(** The campaign of [script], as the store has it in [store1]. *)
Definition campaign1 : Campaign.t :=
  {| Campaign.instanceId := "inst-1"; Campaign.name := "promo";
     Campaign.status := CampaignStatus.RUNNING; Campaign.delay := 1000;
     Campaign.totalMessages := 2; Campaign.sentMessages := 0;
     Campaign.failedMessages := 0; Campaign.startedAt := Some 20%Z;
     Campaign.completedAt := None |}.

(** The first message of the campaign, as the store has it in [store1]. *)
Definition message1 : Message.t :=
  {| Message.id := "msg-1"; Message.campaignId := Some "camp-1";
     Message.instanceId := "inst-1"; Message.contactId := None;
     Message.waMessageId := None; Message.from := "5511900000000";
     Message.to := "5511911110000"; Message.direction := "OUTBOUND";
     Message.body := Some "hi"; Message.mediaUrl := None;
     Message.mediaType := Some "text"; Message.status := "PENDING";
     Message.errorMsg := None; Message.createdAt := 10;
     Message.sentAt := None; Message.deliveredAt := None;
     Message.readAt := None |}.

(** The second message of the campaign: created by the same request,
    after [message1], with the same [createdAt]. *)
Definition message2 : Message.t :=
  {| Message.id := "msg-2"; Message.campaignId := Some "camp-1";
     Message.instanceId := "inst-1"; Message.contactId := None;
     Message.waMessageId := None; Message.from := "5511900000000";
     Message.to := "5511922220000"; Message.direction := "OUTBOUND";
     Message.body := Some "hi"; Message.mediaUrl := None;
     Message.mediaType := Some "text"; Message.status := "PENDING";
     Message.errorMsg := None; Message.createdAt := 10;
     Message.sentAt := None; Message.deliveredAt := None;
     Message.readAt := None |}.

Definition not_allowed : Thrown :=
  ErrorObj "(#131030) Recipient phone number not in allowed list".

(** The sample campaign created and started; then a pause request and a
    cancel request that both read RUNNING before either writes, and the
    cancel is written. *)
Definition cancel_accepted : list Dispatcher.Event :=
  [ Dispatcher.CreateSimple promo "camp-1" [("msg-1", 10%Z); ("msg-2", 10%Z)];
    Dispatcher.StartRequest "camp-1";
    Dispatcher.Resume 0 (at_time 20 accepted);
    Dispatcher.ControlRequest "camp-1" Dispatcher.pause;
    Dispatcher.ControlRequest "camp-1" Dispatcher.cancel;
    Dispatcher.Resume 2 (at_time 21 accepted) ].

(** What follows: the pause is written, a resume request is made and
    written, and the loop runs up to its first [message.update]. *)
Definition after_cancel : list Dispatcher.Event :=
  [ Dispatcher.Resume 1 (at_time 22 accepted);
    Dispatcher.ControlRequest "camp-1" Dispatcher.resume;
    Dispatcher.Resume 1 (at_time 23 accepted);
    Dispatcher.Resume 0 (at_time 24 accepted);
    Dispatcher.Resume 0 (at_time 25 accepted);
    Dispatcher.Resume 0 (at_time 26 accepted) ].

(** The status of the sample campaign and the ids of the messages handed
    to the provider so far, the latest first. *)
Definition progress (w : Dispatcher.World)
    : option CampaignStatus.t * list string :=
  (Campaign.status
     <$> Store.campaigns (Dispatcher.store (Dispatcher.mem w)) !! "camp-1",
   (Dispatcher.provider_log (Dispatcher.mem w)).*1).

(** The environment of an iteration: the provider rejects what it gets. *)
Definition rejecting (k : nat) : Dispatcher.Oracle :=
  at_time (30 + Z.of_nat k) rejected.

End Sample.

From stdpp Require Import sorting.

(** ** The gateway client: connecting and disconnecting *)

Module Manager.

(** A field of a provider response: absent, [null] or a string. *)
Inductive Field :=
  | Undefined
  | Null
  | Str (s : string).

(** What a Prisma [update] does to a nullable text column when given
    such a value: [undefined] leaves the column as it is. *)
Definition set_field (f : Field) (old : option string) : option string :=
  match f with
  | Undefined => old
  | Null => None
  | Str s => Some s
  end.

(** The Instance table: the columns [getSession] reads, with the
    [status] and [waName] columns [connect] and [disconnect] write. *)
Record Instance := {
  row : Gateway.InstanceRow;
  status : string;
  waName : option string }.

(** A [fetch] made by [apiRequest] with method GET. *)
Record Get := {
  get_url : string;
  get_authorization : string }.

(** The manager and what it acts on: the session cache, the Instance
    table, the events given to [emit] (each with the [instanceId] of its
    payload) and the GET requests made, the latest first. *)
Record State := {
  sessions : Gateway.Sessions;
  instances : gmap string Instance;
  emitted : list (string * string);
  fetched : list Get }.

Definition with_sessions (ss : Gateway.Sessions) (s : State) : State :=
  {| sessions := ss; instances := instances s; emitted := emitted s;
     fetched := fetched s |}.

Definition emit (event instanceId : string) (s : State) : State :=
  {| sessions := sessions s; instances := instances s;
     emitted := (event, instanceId) :: emitted s; fetched := fetched s |}.

(** The JSON of [GET {phoneNumberId}], as far as [connect] reads it. *)
Record PhoneInfo := {
  display_phone_number : Field;
  verified_name : Field }.

(** What the provider does with the GET: [fetch] or [response.json()]
    rejects, or there is a response with its JSON. *)
Inductive Verification :=
  | Rejects (e : Thrown)
  | Answers (ok : bool) (statusText : string) (error_message : option string)
            (info : PhoneInfo).

(** [apiRequest(instanceId, 'GET', endpoint)]. *)
Definition apiRequest (instanceId endpoint : string) (net : Verification)
    (s : State) : State * (Thrown + PhoneInfo) :=
  match Gateway.getSession (sessions s) (row <$> instances s) instanceId with
  | (ss, inl e) => (with_sessions ss s, inl e)
  | (ss, inr session) =>
    let request := {|
      get_url := "https://graph.facebook.com/v19.0/" +:+ endpoint;
      get_authorization := "Bearer " +:+ Gateway.accessToken session |} in
    ({| sessions := ss; instances := instances s; emitted := emitted s;
        fetched := request :: fetched s |},
     match net with
     | Rejects e => inl e
     | Answers ok statusText error_message info =>
       if ok then inr info
       else inl (ErrorObj (or_else error_message
                             ("API Request Failed: " +:+ statusText)))
     end)
  end.

(** [prisma.instance.update({ where: { id }, data })]; [None] when no
    row has the id, which makes the call reject. *)
Definition instance_update (id : string) (data : Instance → Instance)
    (s : State) : option State :=
  match instances s !! id with
  | None => None
  | Some i =>
    Some {| sessions := sessions s; instances := <[id := data i]> (instances s);
            emitted := emitted s; fetched := fetched s |}
  end.

(** [data: { status }] *)
Definition set_status (st : string) (i : Instance) : Instance :=
  {| row := row i; status := st; waName := waName i |}.

(** [data: { status: 'CONNECTED', waNumber: data.display_phone_number,
    waName: data.verified_name }] *)
Definition verified (info : PhoneInfo) (i : Instance) : Instance :=
  {| row := {| Gateway.waNumber :=
                 set_field (display_phone_number info) (Gateway.waNumber (row i));
               Gateway.waPhoneNumberId := Gateway.waPhoneNumberId (row i);
               Gateway.waAccessToken := Gateway.waAccessToken (row i);
               Gateway.waBusinessAccountId := Gateway.waBusinessAccountId (row i) |};
     status := "CONNECTED";
     waName := set_field (verified_name info) (waName i) |}.

(** The [try] block of [connect]; it resolves with the [waNumber] of the
    value [connect] returns. *)
Definition connect_try (net : Verification) (instanceId : string) (s : State)
    : State * (Thrown + Field) :=
  match Gateway.getSession (sessions s) (row <$> instances s) instanceId with
  | (ss, inl e) => (with_sessions ss s, inl e)
  | (ss, inr session) =>
    match apiRequest instanceId (Gateway.phoneNumberId session) net
            (with_sessions ss s) with
    | (s1, inl e) => (s1, inl e)
    | (s1, inr info) =>
      match instance_update instanceId (verified info) s1 with
      | None => (s1, inl Store.recordNotFound)
      | Some s2 => (emit "ready" instanceId s2, inr (display_phone_number info))
      end
    end
  end.

(** [connect], run without interruption: what the [try] block throws is
    rethrown once the row is marked DISCONNECTED, unless that [update]
    rejects itself. *)
Definition connect (net : Verification) (instanceId : string) (s : State)
    : State * (Thrown + Field) :=
  match connect_try net instanceId s with
  | (s1, inr waNumber) => (s1, inr waNumber)
  | (s1, inl error) =>
    match instance_update instanceId (set_status "DISCONNECTED") s1 with
    | None => (s1, inl Store.recordNotFound)
    | Some s2 => (s2, inl error)
    end
  end.

(** [disconnect], run without interruption. *)
Definition disconnect (instanceId : string) (s : State)
    : State * (Thrown + unit) :=
  let s1 := with_sessions (Gateway.disconnect (sessions s) instanceId) s in
  match instance_update instanceId (set_status "DISCONNECTED") s1 with
  | None => (s1, inl Store.recordNotFound)
  | Some s2 => (emit "disconnected" instanceId s2, inr tt)
  end.

Definition logout (instanceId : string) (s : State) : State * (Thrown + unit) :=
  disconnect instanceId s.

Definition deleteInstance (instanceId : string) (s : State)
    : State * (Thrown + unit) :=
  disconnect instanceId s.

(** The ids [findMany({ where: { status: 'CONNECTED' } })] gives, in the
    order of the table. *)
Definition connected_ids (s : State) : list string :=
  (filter (λ kv, status kv.2 = "CONNECTED") (map_to_list (instances s))).*1.

(** The loop of [reconnectAll] over the ids read: every [connect] runs
    inside [try]/[catch], what it throws is logged. [net id] is what the
    provider does with the request for [id]. *)
Definition reconnect (net : string → Verification) (ids : list string)
    (s : State) : State :=
  foldl (λ s id, (connect (net id) id s).1) s ids.

Definition reconnectAll (net : string → Verification) (s : State) : State :=
  reconnect net (connected_ids s) s.

End Manager.

(** ** The gateway client: message bodies *)

Module Outbound.

(** The members of a message body: a string, or an object of strings.
    An object is the map from its keys to their values. *)
Inductive Json :=
  | JString (s : string)
  | JObject (fields : gmap string string).

(** The [options] of [sendMedia], as far as it reads them; no [options]
    at all is the record of three [None]. *)
Record MediaOptions := {
  type : option string;
  caption : option string;
  filename : option string }.

(** [let type = options?.type || 'image'], then the extension checks
    when [options.type] is falsy. *)
Definition media_type (mediaUrl : string) (o : MediaOptions) : string :=
  if truthy (type o) then or_else (type o) ""
  else Gateway.mediaTypeOf mediaUrl.

Definition mediaObject (mediaUrl : string) (o : MediaOptions)
    : gmap string string :=
  let type := media_type mediaUrl o in
  let mediaObject : gmap string string := {[ "link" := mediaUrl ]} in
  let mediaObject :=
    if truthy (caption o) && negb (String.eqb type "audio")
       && negb (String.eqb type "sticker")
    then <["caption" := or_else (caption o) ""]> mediaObject
    else mediaObject in
  if truthy (filename o) && String.eqb type "document"
  then <["filename" := or_else (filename o) ""]> mediaObject
  else mediaObject.

(** The [body] that [sendMedia] hands to [apiRequest], as
    [JSON.stringify] sees it: its own members.  [body[type] =
    mediaObject] replaces the member of that name if there is one and
    adds one otherwise; for the name [__proto__] it sets the prototype
    of [body] instead, and [body] gets no member. *)
Definition sendMedia_body (to mediaUrl : string) (o : MediaOptions)
    : gmap string Json :=
  let type := media_type mediaUrl o in
  let body : gmap string Json :=
    {[ "messaging_product" := JString "whatsapp";
       "recipient_type" := JString "individual";
       "to" := JString to;
       "type" := JString type ]} in
  if String.eqb type "__proto__" then body
  else <[type := JObject (mediaObject mediaUrl o)]> body.

(** *** Polls *)

(** [s.substring(0, n)] *)
Definition prefix (n : nat) (s : string) : string := String.substring 0 n s.

Record Button := {
  reply_id : string;
  reply_title : string }.

Record Row := {
  row_id : string;
  row_title : string }.

Record ListSection := {
  section_title : string;
  rows : list Row }.

(** The [interactive] member of the body. *)
Inductive Interactive :=
  | ButtonMessage (body_text : string) (buttons : list Button)
  | ListMessage (header_text body_text button : string)
                (sections : list ListSection).

(** [sendPoll]: [options.slice(0, 3)] turned into reply buttons. *)
Definition sendPoll (title : string) (options : list string) : Interactive :=
  ButtonMessage title
    (imap (λ i opt, {| reply_id := "btn_" +:+ pretty i;
                       reply_title := prefix 20 opt |})
          (take 3 options)).

Definition sendListMessage (buttonText title : string)
    (sections : list ListSection) : Interactive :=
  ListMessage title title buttonText sections.

(** The two literals of [sendRealPoll] that are not ASCII, character by
    character: ['Opções'] and ['Ver Opções']. *)
Definition opcoes : string :=
  "Op" +:+ String (Ascii.ascii_of_nat 231) (String (Ascii.ascii_of_nat 245) "es").

(** [sendRealPoll]: buttons for up to three options, else a list. *)
Definition sendRealPoll (question : string) (options : list string)
    : Interactive :=
  if length options <=? 3 then sendPoll question options
  else
    sendListMessage ("Ver " +:+ opcoes) question
      [ {| section_title := opcoes;
           rows := imap (λ i opt, {| row_id := "poll_" +:+ pretty i;
                                     row_title := prefix 24 opt |})
                        options |} ].

(** What the recipient can choose from: the id and the title of every
    button or row. *)
Definition choices (m : Interactive) : list (string * string) :=
  match m with
  | ButtonMessage _ buttons => (λ b, (reply_id b, reply_title b)) <$> buttons
  | ListMessage _ _ _ sections =>
    sections ≫= λ s, (λ r, (row_id r, row_title r)) <$> rows s
  end.

End Outbound.

(** ** The gateway client: chats *)

Module Chats.
Import Receiver.

Definition not_older (a b : Message.t) : Prop :=
  (Message.createdAt b ≤ Message.createdAt a)%Z.

#[global] Instance not_older_dec a b : Decision (not_older a b).
Proof. unfold not_older. apply _. Defined.

(** [orderBy: { createdAt: 'desc' }]; rows with the same [createdAt]
    come in the order the sort leaves them in. *)
Definition newest_first (ms : list Message.t) : list Message.t :=
  merge_sort not_older ms.

(** [where: { instanceId, contactId }] *)
Definition of_chat (instanceId contactId : string) (m : Message.t) : Prop :=
  Message.instanceId m = instanceId ∧ Message.contactId m = Some contactId.

#[global] Instance of_chat_dec i c m : Decision (of_chat i c m).
Proof. unfold of_chat. apply _. Defined.

(** [options?.limit || 50], for a [limit] that is a count. *)
Definition limit_of (limit : option nat) : nat :=
  match limit with
  | Some (S n) => S n
  | _ => 50
  end.

(** [messages.reverse()]: the rows [getChatMessages] returns, before
    they are mapped. *)
Definition chat_rows (instanceId chatId : string) (limit : option nat)
    (d : Db) : list Message.t :=
  match contact_findUnique instanceId chatId d with
  | None => []
  | Some contact =>
    reverse (take (limit_of limit)
               (newest_first
                  (filter (of_chat instanceId (contact_id contact))
                          (message_rows d))))
  end.

(** An element of the array [getChatMessages] returns; its [timestamp]
    ([createdAt] in seconds) is left out. *)
Record ChatMessage := {
  cm_id : string;
  cm_from : string;
  cm_to : string;
  cm_body : option string;
  cm_mediaUrl : option string;
  cm_mediaType : option string;
  cm_type : string;
  cm_fromMe : bool;
  cm_status : string }.

Definition view (m : Message.t) : ChatMessage :=
  {| cm_id := or_else (Message.waMessageId m) (Message.id m);
     cm_from := Message.from m;
     cm_to := Message.to m;
     cm_body := Message.body m;
     cm_mediaUrl := Message.mediaUrl m;
     cm_mediaType := Message.mediaType m;
     cm_type := or_else (Message.mediaType m) "text";
     cm_fromMe := String.eqb (Message.direction m) "OUTBOUND";
     cm_status := toLowerCase (Message.status m) |}.

Definition getChatMessages (instanceId chatId : string) (limit : option nat)
    (d : Db) : list ChatMessage :=
  view <$> chat_rows instanceId chatId limit d.

Definition getChatById (instanceId chatId : string) (d : Db)
    : option Contact :=
  contact_findUnique instanceId chatId d.

(** [deleteChat]: the messages of the contact, then the contact. *)
Definition deleteChat (instanceId chatId : string) (d : Db) : Db :=
  match contact_findUnique instanceId chatId d with
  | None => d
  | Some contact =>
    {| instances := instances d;
       contact_rows :=
         filter (λ c, contact_id c ≠ contact_id contact) (contact_rows d);
       message_rows :=
         Store.deleteMany_where_contactId (contact_id contact)
           (message_rows d) |}
  end.

End Chats.

(** ** The webhook receiver: where a payload goes *)

Module Routing.
Import Receiver.

(** The instance the items of a [value] are stored under: the one
    [findFirst] gives for the phone-number id of its metadata. *)
Definition instance_of (d : Db) (v : Value) : option string :=
  match metadata v with
  | None => None
  | Some md =>
    if truthy (phone_number_id md)
    then fst <$> instance_findFirst (or_else (phone_number_id md) "") d
    else None
  end.

(** A payload none of whose values is for an instance of the table. *)
Definition unroutable (d : Db) (b : Body) : Prop :=
  Forall (λ e, Forall (λ c, ∀ v, value c = Some v → instance_of d v = None)
                      (default [] (changes e)))
         (default [] (entry b)).

(** The provider message ids of the stored rows, in the order of the
    rows that have one. *)
Definition provider_ids (s : State) : list string :=
  omap Message.waMessageId (message_rows (db s)).

(** The key [instanceId_waId] of the stored contacts, row by row. *)
Definition contact_keys (s : State) : list (string * string) :=
  (λ c, (contact_instanceId c, waId c)) <$> contact_rows (db s).

End Routing.

(** ** The dispatch loop, left to itself *)

Module Loop.
Import Dispatcher.

(** The [while (true)] of [processCampaign] with no other task in
    between: iteration after iteration until the function is left.
    [os i] is the environment of the [i]-th iteration; [it_outcome] is
    [None] if the function has not been left after [rounds] iterations. *)
Fixpoint run (rounds : nat) (os : nat → nat → Oracle) (i : nat)
    (campaignId : string) (st : Store.t) (sessions : Gateway.Sessions)
    : Iteration :=
  match rounds with
  | O => {| it_store := st; it_sessions := sessions; it_issued := [];
            it_outcome := None |}
  | S rounds' =>
    let it := iteration (os i) campaignId st sessions in
    match it_outcome it with
    | Some (Suspended AtLoad) =>
      let rest := run rounds' os (S i) campaignId (it_store it)
                    (it_sessions it) in
      {| it_store := it_store rest; it_sessions := it_sessions rest;
         it_issued := it_issued it ++ it_issued rest;
         it_outcome := it_outcome rest |}
    | _ => it
    end
  end.

End Loop.

(** ** The webhook relay: time spent waiting *)

Module Backoff.

(** The milliseconds a trace of the relay spends in [setTimeout]. *)
Definition waited (trace : list Relay.Action) : Z :=
  foldr (λ a acc, match a with
                  | Relay.Sleep ms => (ms + acc)%Z
                  | Relay.Attempt _ => acc
                  end) 0%Z trace.

(** The calls of [sendWebhook] in a trace. *)
Definition attempts (trace : list Relay.Action) : nat :=
  foldr (λ a acc, match a with
                  | Relay.Attempt _ => S acc
                  | Relay.Sleep _ => acc
                  end) 0 trace.

End Backoff.

(** ** Sample data for the gateway client *)

Module SampleGateway.

(** The instance of [Sample], as the Instance table has it once it has
    been connected. *)
Definition manager1 : Manager.State :=
  {| Manager.sessions := Sample.sessions1;
     Manager.instances :=
       {[ "inst-1" := {| Manager.row := Sample.instance1;
                         Manager.status := "CONNECTED";
                         Manager.waName := Some "Loja" |} ]};
     Manager.emitted := [];
     Manager.fetched := [] |}.

(** The provider turns the access token down. *)
Definition token_expired : Manager.Verification :=
  Manager.Answers false "Unauthorized"
    (Some "Error validating access token: Session has expired")
    {| Manager.display_phone_number := Manager.Undefined;
       Manager.verified_name := Manager.Undefined |}.

(** The database of the receiver after the inbound message of
    [Sample.delivery]. *)
Definition inbox1 : Receiver.Db :=
  Receiver.db (Receiver.post Sample.uuid 5 (Some Sample.delivery)
                 Sample.receiver0).1.

End SampleGateway.

Local Close Scope string_scope.

(** * Properties *)

(** ** The gateway client *)

(** C10: [getStatus] answers ['connected'] exactly when a session for the
    instance id is cached in the session map and ['disconnected']
    otherwise; it never answers ['connecting'], ['qr'] or ['not_found'].
    So the connection check of the start handler passes exactly when the
    campaign is PENDING and credentials are cached. *)
Theorem getStatus_reflects_session_cache
    (sessions : Gateway.Sessions) (instanceId : string) :
  (Gateway.getStatus sessions instanceId = Gateway.connected
     ↔ is_Some (sessions !! instanceId))
  ∧ (Gateway.getStatus sessions instanceId = Gateway.disconnected
     ↔ sessions !! instanceId = None)
  ∧ Gateway.getStatus sessions instanceId ≠ Gateway.connecting
  ∧ Gateway.getStatus sessions instanceId ≠ Gateway.qr
  ∧ Gateway.getStatus sessions instanceId ≠ Gateway.not_found
  ∧ ∀ campaign : Campaign.t,
      Campaign.instanceId campaign = instanceId →
      (Dispatcher.start_check sessions (Some campaign) = None
       ↔ Campaign.status campaign = CampaignStatus.PENDING
         ∧ is_Some (sessions !! instanceId)).
Proof.
  assert (Hst : ∀ campaign : Campaign.t,
      Campaign.instanceId campaign = instanceId →
      (Dispatcher.start_check sessions (Some campaign) = None
       ↔ Campaign.status campaign = CampaignStatus.PENDING
         ∧ Gateway.getStatus sessions instanceId = Gateway.connected)).
  { intros campaign <-. unfold Dispatcher.start_check.
    repeat case_decide; split; try done; tauto. }
  unfold Gateway.getStatus in *.
  destruct (decide (is_Some (sessions !! instanceId))) as [Hs|Hs] in Hst |- *.
  - split_and!; try done.
    + split; [done|]. intros Hn. rewrite Hn in Hs. by destruct Hs.
    + intros campaign Hc. rewrite (Hst campaign Hc). tauto.
  - split_and!; try done.
    + split; [|done]. intros _. by apply eq_None_not_Some.
    + intros campaign Hc. rewrite (Hst campaign Hc). split; [|tauto].
      by intros [_ ?].
Qed.

(** ** The webhook relay *)

Section relay.
Context (webhookRetryAttempts : Z) (net : Z → Relay.Delivery).

(** The loop, started at [attempt] with fuel for the attempts left, makes
    [j] failed attempts, each followed by its back-off, and one last
    attempt that succeeds or is the last one allowed. *)
Lemma retry_from_trace (fuel : nat) (attempt : Z) :
  (attempt ≤ webhookRetryAttempts)%Z →
  (webhookRetryAttempts - attempt < Z.of_nat fuel)%Z →
  ∃ j : nat,
    Relay.retry_from fuel webhookRetryAttempts net attempt
      = Relay.failed_prefix j attempt ++ [Relay.Attempt (attempt + Z.of_nat j)]
    ∧ (attempt + Z.of_nat j ≤ webhookRetryAttempts)%Z
    ∧ (∀ k, (attempt ≤ k < attempt + Z.of_nat j)%Z →
            Relay.sendWebhook (net k) = false)
    ∧ (Relay.sendWebhook (net (attempt + Z.of_nat j)) = true
       ∨ (attempt + Z.of_nat j)%Z = webhookRetryAttempts).
Proof.
  revert attempt. induction fuel as [|fuel IH]; intros attempt Hle Hfuel.
  { lia. }
  simpl. destruct (Z.leb_spec attempt webhookRetryAttempts) as [_|]; [|lia].
  destruct (Relay.sendWebhook (net attempt)) eqn:Hsend.
  - exists 0%nat. simpl. rewrite Z.add_0_r. repeat split; auto; lia.
  - destruct (Z.ltb_spec attempt webhookRetryAttempts) as [Hlt|Hge].
    + destruct (IH (attempt + 1)%Z) as (j & Htr & Hb & Hfail & Hlast); [lia|lia|].
      exists (S j). rewrite Htr. simpl.
      replace (attempt + 1 + Z.of_nat j)%Z with (attempt + Z.of_nat (S j))%Z in * by lia.
      repeat split; auto.
      intros k Hk. destruct (decide (k = attempt)) as [->|]; [done|].
      apply Hfail. lia.
    + exists 0%nat. simpl. rewrite Z.add_0_r.
      destruct fuel; simpl.
      * repeat split; auto; try lia.
      * destruct (Z.leb_spec (attempt + 1) webhookRetryAttempts); [lia|].
        repeat split; auto; lia.
Qed.

(** More fuel than attempts left changes nothing: the loop ends by its
    own condition. *)
Lemma retry_from_fuel (fuel fuel' : nat) (attempt : Z) :
  (webhookRetryAttempts - attempt < Z.of_nat fuel)%Z →
  (fuel ≤ fuel')%nat →
  Relay.retry_from fuel' webhookRetryAttempts net attempt
    = Relay.retry_from fuel webhookRetryAttempts net attempt.
Proof.
  revert fuel' attempt. induction fuel as [|fuel IH]; intros fuel' attempt Hf Hle.
  - destruct fuel'; [done|]. simpl.
    destruct (Z.leb_spec attempt webhookRetryAttempts); [lia|done].
  - destruct fuel' as [|fuel']; [lia|]. simpl.
    destruct (Z.leb_spec attempt webhookRetryAttempts); [|done].
    destruct (Relay.sendWebhook (net attempt)); [done|].
    f_equal. f_equal. apply IH; lia.
Qed.

(** The [k]-th failed attempt ([k] counted from [attempt]) is followed at
    once by a wait of exactly [1000 * 2^(k-1)] ms. *)
Lemma failed_prefix_lookup (n i : nat) (attempt : Z) :
  (i < n)%nat →
  Relay.failed_prefix n attempt !! (2 * i)%nat
    = Some (Relay.Attempt (attempt + Z.of_nat i))
  ∧ Relay.failed_prefix n attempt !! (2 * i + 1)%nat
    = Some (Relay.Sleep (1000 * 2 ^ (attempt + Z.of_nat i - 1))).
Proof.
  revert i attempt. induction n as [|n IH]; intros i attempt Hi; [lia|].
  destruct i as [|i].
  - simpl. by rewrite Z.add_0_r.
  - replace (2 * S i)%nat with (S (S (2 * i))) by lia.
    replace (S (S (2 * i)) + 1)%nat with (S (S (2 * i + 1))) by lia.
    cbn [Relay.failed_prefix lookup list_lookup].
    destruct (IH i (attempt + 1)%Z) as [H1 H2]; [lia|].
    replace (attempt + 1 + Z.of_nat i)%Z
      with (attempt + Z.of_nat (S i))%Z in H1, H2 by lia.
    by split.
Qed.

Lemma length_failed_prefix (j : nat) (attempt : Z) :
  length (Relay.failed_prefix j attempt) = (2 * j)%nat.
Proof.
  revert attempt. induction j as [|j IH]; intros attempt; [done|].
  cbn [Relay.failed_prefix length]. rewrite IH. lia.
Qed.

(** What [sendWebhook] returns: [true] for a response with a status from
    200 to 299, [false] for any other response, for a [fetch] that
    rejects and for one aborted by the timer. *)
Lemma sendWebhook_true (d : Relay.Delivery) :
  Relay.sendWebhook d = true
  ↔ ∃ status, d = Relay.Responded status ∧ (200 ≤ status ≤ 299)%Z.
Proof.
  destruct d as [status| |]; simpl; unfold Relay.response_ok.
  - rewrite andb_true_iff, Z.leb_le, Z.leb_le. split.
    + intros H. by exists status.
    + by intros (? & [= <-] & ?).
  - split; [done|]. by intros (? & ? & ?).
  - split; [done|]. by intros (? & ? & ?).
Qed.

(** C5: an attempt succeeds when the destination answers with a status
    from 200 to 299; any other answer, a network error and a timeout
    are failed attempts.  [sendWebhookWithRetry] makes [n] attempts,
    numbered from 1, with [n] at most the configured maximum: every
    attempt before the last failed and is followed at once by a wait of
    [1000 * 2^(k-1)] ms, then by the next attempt; the last attempt
    either succeeded or was the last one allowed, and nothing follows
    it. *)
Theorem sendWebhookWithRetry_trace :
  (∀ d, Relay.sendWebhook d = true
        ↔ ∃ status, d = Relay.Responded status ∧ (200 ≤ status ≤ 299)%Z)
  ∧ Relay.sendWebhook Relay.NetworkError = false
  ∧ Relay.sendWebhook Relay.TimedOut = false
  ∧ ∃ n : nat,
      (Z.of_nat n ≤ Z.max 0 webhookRetryAttempts)%Z
      ∧ (n = 0%nat ↔ (webhookRetryAttempts < 1)%Z)
      ∧ length (Relay.sendWebhookWithRetry webhookRetryAttempts net)
        = (2 * n - 1)%nat
      ∧ (∀ k : nat, (1 ≤ k ≤ n)%nat →
           Relay.sendWebhookWithRetry webhookRetryAttempts net
             !! (2 * (k - 1))%nat
           = Some (Relay.Attempt (Z.of_nat k)))
      ∧ (∀ k : nat, (1 ≤ k < n)%nat →
           Relay.sendWebhookWithRetry webhookRetryAttempts net
             !! (2 * k - 1)%nat
           = Some (Relay.Sleep (1000 * 2 ^ (Z.of_nat k - 1))))
      ∧ (∀ k : nat, (1 ≤ k < n)%nat →
           ¬ ∃ status, net (Z.of_nat k) = Relay.Responded status
                       ∧ (200 ≤ status ≤ 299)%Z)
      ∧ (n ≠ 0%nat →
         (∃ status, net (Z.of_nat n) = Relay.Responded status
                    ∧ (200 ≤ status ≤ 299)%Z)
         ∨ Z.of_nat n = webhookRetryAttempts).
Proof.
  split; [exact sendWebhook_true|]. split; [done|]. split; [done|].
  unfold Relay.sendWebhookWithRetry.
  destruct (Z.ltb_spec webhookRetryAttempts 1) as [Hlt|Hge].
  - exists 0%nat.
    replace (Z.to_nat webhookRetryAttempts) with 0%nat by lia.
    split_and!; try done; lia.
  - destruct (retry_from_trace (Z.to_nat webhookRetryAttempts) 1)
      as (j & Htr & Hb & Hfail & Hlast); [lia|lia|].
    exists (S j). rewrite Htr.
    replace (1 + Z.of_nat j)%Z with (Z.of_nat (S j)) in * by lia.
    split_and!.
    + lia.
    + split; [done|lia].
    + rewrite length_app, length_failed_prefix. simpl. lia.
    + intros k Hk. destruct (decide (k = S j)) as [->|Hne].
      * rewrite lookup_app_r by (rewrite length_failed_prefix; lia).
        rewrite length_failed_prefix.
        by replace (2 * (S j - 1) - 2 * j)%nat with 0%nat by lia.
      * rewrite lookup_app_l by (rewrite length_failed_prefix; lia).
        destruct (failed_prefix_lookup j (k - 1) 1) as [H _]; [lia|].
        rewrite H. by replace (1 + Z.of_nat (k - 1))%Z with (Z.of_nat k) by lia.
    + intros k Hk.
      rewrite lookup_app_l by (rewrite length_failed_prefix; lia).
      destruct (failed_prefix_lookup j (k - 1) 1) as [_ H]; [lia|].
      replace (2 * k - 1)%nat with (2 * (k - 1) + 1)%nat by lia.
      rewrite H. by replace (1 + Z.of_nat (k - 1) - 1)%Z with (Z.of_nat k - 1)%Z by lia.
    + intros k Hk Hok. apply sendWebhook_true in Hok.
      rewrite Hfail in Hok by lia. done.
    + intros _. destruct Hlast as [Hok|Hlast]; [left|by right].
      by apply sendWebhook_true.
Qed.

End relay.

(** C5 (witness): a destination that times out once and then answers
    204, with four attempts allowed: one wait of a second, two attempts. *)
Lemma sendWebhookWithRetry_trace_witness :
  let net := λ k, if (k =? 2)%Z then Relay.Responded 204 else Relay.TimedOut in
  length (Relay.sendWebhookWithRetry 4 net) = 3%nat
  ∧ Relay.sendWebhookWithRetry 4 net !! 0%nat = Some (Relay.Attempt 1)
  ∧ Relay.sendWebhookWithRetry 4 net !! 1%nat = Some (Relay.Sleep 1000)
  ∧ Relay.sendWebhookWithRetry 4 net !! 2%nat = Some (Relay.Attempt 2).
Proof.
  intros net.
  destruct (sendWebhookWithRetry_trace 4 net)
    as (_ & _ & _ & n & Hn & Hz & Hlen & Hatt & Hsl & Hfail & Hlast).
  assert (n = 2%nat) as ->.
  { destruct n as [|[|[|n]]].
    - lia.
    - destruct Hlast as [(status & Hs & _)|Hl]; [done|done|lia].
    - done.
    - destruct (Hfail 2%nat); [lia|]. by exists 204%Z. }
  split; [exact Hlen|]. split; [exact (Hatt 1%nat ltac:(lia))|].
  split; [exact (Hsl 1%nat ltac:(lia))|exact (Hatt 2%nat ltac:(lia))].
Defined.

(** 1 s, 2 s, 4 s between four failing attempts, and no wait at the end. *)
Example sendWebhookWithRetry_all_fail :
  Relay.sendWebhookWithRetry 4 (λ _, Relay.Responded 503)
  = [Relay.Attempt 1; Relay.Sleep 1000; Relay.Attempt 2; Relay.Sleep 2000;
     Relay.Attempt 3; Relay.Sleep 4000; Relay.Attempt 4].
Proof. reflexivity. Qed.

Example sendWebhookWithRetry_second_succeeds :
  Relay.sendWebhookWithRetry 4
    (λ k, if (k =? 2)%Z then Relay.Responded 204 else Relay.TimedOut)
  = [Relay.Attempt 1; Relay.Sleep 1000; Relay.Attempt 2].
Proof. reflexivity. Qed.

(** ** The store *)

Section store.
Import Store.

Lemma campaign_update_Some id data st st' :
  campaign_update id data st = Some st' →
  ∃ c, campaigns st !! id = Some c
       ∧ campaigns st' = <[id := data c]> (campaigns st)
       ∧ messages st' = messages st
       ∧ instances st' = instances st.
Proof.
  unfold campaign_update. destruct (campaigns st !! id) as [c|]; [|done].
  intros [= <-]. by exists c.
Qed.

Lemma campaign_update_lookup id data st c :
  campaigns st !! id = Some c →
  campaign_update id data st
  = Some {| campaigns := <[id := data c]> (campaigns st);
            messages := messages st; instances := instances st |}.
Proof. unfold campaign_update. by intros ->. Qed.

Lemma message_update_Some id data st st' :
  message_update id data st = Some st' →
  id ∈ Message.id <$> messages st
  ∧ campaigns st' = campaigns st
  ∧ messages st' = update_where_id id data <$> messages st
  ∧ instances st' = instances st.
Proof.
  unfold message_update. case_decide; [|done]. by intros [= <-].
Qed.

Lemma oldest_None l : oldest l = None → l = [].
Proof.
  destruct l as [|m l]; [done|]. simpl.
  destruct (oldest l); [case_match|]; done.
Qed.

Lemma oldest_elem l m : oldest l = Some m → m ∈ l.
Proof.
  induction l as [|x l IH]; [done|]. simpl.
  destruct (oldest l) as [m'|].
  - case_match; intros [= <-]; [left|right; by apply IH].
  - intros [= <-]. left.
Qed.

(** [oldest] over the rows matching [P]: the table splits at the chosen
    row; the matching rows before it are strictly younger and the
    matching rows after it are not older. *)
Lemma oldest_filter_split (P : Message.t → Prop) `{!∀ m, Decision (P m)} l m :
  oldest (filter P l) = Some m →
  ∃ l1 l2, l = l1 ++ m :: l2 ∧ P m
    ∧ (∀ m', m' ∈ l1 → P m' → (Message.createdAt m < Message.createdAt m')%Z)
    ∧ (∀ m', m' ∈ l2 → P m' → (Message.createdAt m ≤ Message.createdAt m')%Z).
Proof.
  revert m. induction l as [|x l IH]; intros m; [done|].
  rewrite filter_cons. destruct (decide (P x)) as [Hx|Hx].
  - simpl. destruct (oldest (filter P l)) as [m'|] eqn:Hold.
    + destruct (IH m' eq_refl) as (l1 & l2 & -> & Hm' & Hl1 & Hl2).
      destruct (Z.leb_spec (Message.createdAt x) (Message.createdAt m'));
        intros [= <-].
      * exists [], (l1 ++ m' :: l2). split_and!; [done|done|set_solver|].
        intros m'' [Hin|[->|Hin]%elem_of_cons]%elem_of_app Hp.
        -- specialize (Hl1 _ Hin Hp). lia.
        -- done.
        -- specialize (Hl2 _ Hin Hp). lia.
      * exists (x :: l1), l2. split_and!; [done|done| |done].
        intros m'' [->|Hin]%elem_of_cons Hp; [lia|by apply Hl1].
    + intros [= <-]. apply oldest_None in Hold.
      exists [], l. split_and!; [done|done|set_solver|].
      intros m' Hin Hp.
      assert (m' ∈ filter P l) as Hf by (by apply list_elem_of_filter).
      rewrite Hold in Hf. by apply elem_of_nil in Hf.
  - intros (l1 & l2 & -> & Hm & Hl1 & Hl2)%IH.
    exists (x :: l1), l2. split_and!; [done|done| |done].
    intros m' [->|Hin]%elem_of_cons Hp; [done|by apply Hl1].
Qed.

Lemma findFirstPending_None id st :
  findFirstPending id st = None ↔ filter (pending_of id) (messages st) = [].
Proof.
  unfold findFirstPending. split; [apply oldest_None|by intros ->].
Qed.

Lemma findFirstPending_Some id st m :
  findFirstPending id st = Some m → m ∈ messages st ∧ pending_of id m.
Proof.
  intros H%oldest_elem. by apply list_elem_of_filter in H as [? ?].
Qed.

End store.

(** ** One iteration of the dispatch loop *)

#[local] Arguments Dispatcher.run_iteration : simpl never.

Section iteration.
Import Dispatcher.

Lemma run_iteration_S fuel os k id pc st ss :
  run_iteration (S fuel) os k id pc st ss
  = let r := proc_step (os k) id pc st ss in
    match outcome r with
    | Suspended AtLoad | Returned | Rejected _ =>
      {| it_store := store_after r; it_sessions := sessions_after r;
         it_issued := option_list (issued r);
         it_outcome := Some (outcome r) |}
    | Suspended pc' =>
      let rest := run_iteration fuel os (S k) id pc'
                    (store_after r) (sessions_after r) in
      {| it_store := it_store rest; it_sessions := it_sessions rest;
         it_issued := option_list (issued r) ++ it_issued rest;
         it_outcome := it_outcome rest |}
    end.
Proof. done. Qed.

(** A resumed loop moves towards the end of the body. *)
Lemma proc_step_rank o id pc st ss pc' :
  outcome (proc_step o id pc st ss) = Suspended pc' →
  pc' = AtLoad ∨ Safety.rank pc' < Safety.rank pc.
Proof.
  destruct pc; simpl; repeat case_match; simpl; intros [= <-]; simpl;
    auto with lia.
Qed.

(** Only the gateway call hands a request to the provider. *)
Lemma proc_step_issued o id pc st ss :
  Safety.rank pc ≠ 5 → issued (proc_step o id pc st ss) = None.
Proof. destruct pc; simpl; repeat case_match; simpl; done. Qed.

Lemma run_iteration_settles fuel os k id pc st ss :
  Safety.rank pc < fuel →
  is_Some (it_outcome (run_iteration fuel os k id pc st ss)).
Proof.
  revert k pc st ss. induction fuel as [|fuel IH]; intros k pc st ss Hr; [lia|].
  rewrite run_iteration_S. cbv zeta.
  destruct (outcome (proc_step (os k) id pc st ss)) as [pc'| |] eqn:Ho;
    [|by eexists..].
  apply proc_step_rank in Ho as Hrank.
  destruct pc'; try (by eexists); cbn [it_outcome]; apply IH;
    destruct Hrank as [?|?]; try done; lia.
Qed.

(** The fuel of [iteration] is enough: an iteration always ends, at the
    top of the loop or by leaving the function. *)
Lemma iteration_settles os id st ss :
  is_Some (it_outcome (iteration os id st ss)).
Proof. apply run_iteration_settles. simpl. lia. Qed.

(** Past the gateway call an iteration hands nothing to the provider. *)
Lemma run_iteration_quiet fuel os k id pc st ss :
  Safety.rank pc < 5 → it_issued (run_iteration fuel os k id pc st ss) = [].
Proof.
  revert k pc st ss. induction fuel as [|fuel IH]; intros k pc st ss Hr; [done|].
  rewrite run_iteration_S. cbv zeta.
  rewrite proc_step_issued by lia.
  destruct (outcome (proc_step (os k) id pc st ss)) as [pc'| |] eqn:Ho;
    [|done..].
  apply proc_step_rank in Ho as Hrank.
  destruct pc'; try done; cbn [it_issued option_list app]; apply IH;
    destruct Hrank as [?|?]; try done; lia.
Qed.

Context (os : nat → Oracle) (id : string).

(** An iteration resumption by resumption; the fuel is left abstract so
    that each equation is checked on one step only. *)
Lemma run_next fuel k pc st ss r pc' :
  proc_step (os k) id pc st ss = r →
  outcome r = Suspended pc' → pc' ≠ AtLoad →
  run_iteration (S fuel) os k id pc st ss
  = let rest := run_iteration fuel os (S k) id pc'
                  (store_after r) (sessions_after r) in
    {| it_store := it_store rest; it_sessions := it_sessions rest;
       it_issued := option_list (issued r) ++ it_issued rest;
       it_outcome := it_outcome rest |}.
Proof.
  intros <- Ho Hne. rewrite run_iteration_S. cbv zeta. rewrite Ho.
  by destruct pc'.
Qed.

Lemma run_last fuel k pc st ss r :
  proc_step (os k) id pc st ss = r →
  outcome r ∈ [Suspended AtLoad; Returned] ∨ (∃ e, outcome r = Rejected e) →
  run_iteration (S fuel) os k id pc st ss
  = {| it_store := store_after r; it_sessions := sessions_after r;
       it_issued := option_list (issued r);
       it_outcome := Some (outcome r) |}.
Proof.
  intros <- Ho. rewrite run_iteration_S. cbv zeta.
  destruct Ho as [Ho|[e Ho]].
  - apply elem_of_cons in Ho as [Ho|Ho%list_elem_of_singleton]; by rewrite Ho.
  - by rewrite Ho.
Qed.

(** A step that neither sends nor ends the iteration. *)
Lemma run_quiet_next fuel k pc st ss st' ss' pc' :
  proc_step (os k) id pc st ss = resumed st' ss' (Suspended pc') →
  pc' ≠ AtLoad →
  run_iteration (S fuel) os k id pc st ss
  = run_iteration fuel os (S k) id pc' st' ss'.
Proof.
  intros Hr Hne. rewrite (run_next _ _ _ _ _ _ pc' Hr) by done.
  simpl. by destruct (run_iteration _ _ _ _ _ _).
Qed.

Lemma run_quiet_last fuel k pc st ss st' ss' o :
  proc_step (os k) id pc st ss = resumed st' ss' o →
  o ∈ [Suspended AtLoad; Returned] ∨ (∃ e, o = Rejected e) →
  run_iteration (S fuel) os k id pc st ss
  = {| it_store := st'; it_sessions := ss'; it_issued := [];
       it_outcome := Some o |}.
Proof. intros Hr Ho. by rewrite (run_last _ _ _ _ _ _ Hr). Qed.

Context (st : Store.t) (ss : Gateway.Sessions) (c : Campaign.t).
Context (Hc : Store.campaigns st !! id = Some c).
Context (Hrunning : Campaign.status c = CampaignStatus.RUNNING).

Lemma proc_step_load_connected o :
  Gateway.getStatus ss (Campaign.instanceId c) = Gateway.connected →
  proc_step o id AtLoad st ss = resumed st ss (Suspended (AtFind c)).
Proof. intros Hconn. simpl. by rewrite Hc, Hrunning, Hconn. Qed.

Lemma proc_step_load_disconnected o :
  Gateway.getStatus ss (Campaign.instanceId c) ≠ Gateway.connected →
  proc_step o id AtLoad st ss = resumed st ss (Suspended AtPause).
Proof.
  intros Hdis. simpl. rewrite Hc, Hrunning. simpl.
  by rewrite decide_True by done.
Qed.

Lemma proc_step_find_some o c' m :
  Store.findFirstPending id st = Some m →
  proc_step o id (AtFind c') st ss = resumed st ss (Suspended (AtSend c' m)).
Proof. intros Hm. simpl. by rewrite Hm. Qed.

Lemma proc_step_find_none o c' :
  Store.findFirstPending id st = None →
  proc_step o id (AtFind c') st ss = resumed st ss (Suspended AtComplete).
Proof. intros Hm. simpl. by rewrite Hm. Qed.

Lemma proc_step_campaign_update o pc data pc' :
  (∀ st0,
     proc_step o id pc st0 ss
     = match Store.campaign_update id data st0 with
       | Some st' => resumed st' ss pc'
       | None => resumed st0 ss (Rejected Store.recordNotFound)
       end) →
  proc_step o id pc st ss
  = resumed {| Store.campaigns := <[id := data c]> (Store.campaigns st);
               Store.messages := Store.messages st;
               Store.instances := Store.instances st |} ss pc'.
Proof. intros ->. by rewrite (campaign_update_lookup _ _ _ _ Hc). Qed.

Lemma iteration_connected :
  Gateway.getStatus ss (Campaign.instanceId c) = Gateway.connected →
  iteration os id st ss = run_iteration 7 os 1 id (AtFind c) st ss.
Proof.
  intros Hconn. unfold iteration.
  by rewrite (run_quiet_next _ _ _ _ _ _ _ _ (proc_step_load_connected _ Hconn)).
Qed.

Lemma iteration_pending m :
  Gateway.getStatus ss (Campaign.instanceId c) = Gateway.connected →
  Store.findFirstPending id st = Some m →
  iteration os id st ss = run_iteration 6 os 2 id (AtSend c m) st ss.
Proof.
  intros Hconn Hm. rewrite iteration_connected by done.
  by rewrite (run_quiet_next _ _ _ _ _ _ _ _ (proc_step_find_some _ c _ Hm)).
Qed.

End iteration.

Section loop_body.
Import Dispatcher.

(** From the gateway call on, the call's request is all an iteration
    hands to the provider. *)
Lemma run_send_issued os id fuel k c m st ss :
  it_issued (run_iteration (S fuel) os k id (AtSend c m) st ss)
  = option_list (Gateway.issued (send ss st c m (net (os k)))).
Proof.
  set (r := proc_step (os k) id (AtSend c m) st ss).
  assert (∃ pc', outcome r = Suspended pc' ∧ Safety.rank pc' < 5) as (pc' & Ho & Hr).
  { subst r. simpl. destruct (Gateway.settled _); eexists; (split; [done|]);
      simpl; lia. }
  rewrite (run_next os id fuel k _ st ss r pc' eq_refl Ho)
    by (intros ->; simpl in Hr; lia).
  cbn [it_issued]. rewrite run_iteration_quiet by done.
  by rewrite app_nil_r.
Qed.

Context (os : nat → Oracle) (id : string) (st : Store.t)
        (ss : Gateway.Sessions) (c : Campaign.t).
Context (Hc : Store.campaigns st !! id = Some c).
Context (Hrunning : Campaign.status c = CampaignStatus.RUNNING).

(** What the database of the model answers is an answer of the query. *)
Lemma findFirstPending_earliest :
  Selection.earliest_pending id st (Store.findFirstPending id st).
Proof.
  destruct (Store.findFirstPending id st) as [m|] eqn:Hm; simpl.
  - destruct (findFirstPending_Some _ _ _ Hm) as [Hin Hp].
    apply oldest_filter_split in Hm as (l1 & l2 & Hl & _ & Hl1 & Hl2).
    split_and!; [done|done|]. intros m' Hin' Hp'. rewrite Hl in Hin'.
    apply elem_of_app in Hin' as [Hin'|Hin'].
    + specialize (Hl1 m' Hin' Hp'). lia.
    + apply elem_of_cons in Hin' as [->|Hin']; [lia|]. by apply Hl2.
  - apply findFirstPending_None in Hm. intros m Hin Hp.
    assert (m ∈ filter (Store.pending_of id) (Store.messages st)) as Hf
      by (by apply list_elem_of_filter).
    rewrite Hm in Hf. by apply elem_of_nil in Hf.
Qed.

(** C7: in an iteration that reaches the selection (campaign RUNNING,
    instance connected), the message handed to the gateway is a PENDING
    message of the campaign that no PENDING message of the campaign
    precedes in [createdAt]; SENT and FAILED messages are never
    selected.  When no PENDING message remains, the campaign becomes
    COMPLETED with [completedAt] set, nothing is sent and the loop
    returns. *)
Theorem dispatch_selects_oldest_pending :
  Gateway.getStatus ss (Campaign.instanceId c) = Gateway.connected →
  let it := iteration os id st ss in
  match Store.findFirstPending id st with
  | Some m =>
    m ∈ Store.messages st
    ∧ Message.campaignId m = Some id
    ∧ Message.status m = "PENDING"%string
    ∧ (∀ m', m' ∈ Store.messages st →
         Message.campaignId m' = Some id →
         Message.status m' = "PENDING"%string →
         (Message.createdAt m ≤ Message.createdAt m')%Z)
    ∧ it = run_iteration 6 os 2 id (AtSend c m) st ss
    ∧ it_issued it = option_list (Gateway.issued (send ss st c m (net (os 2))))
  | None =>
    (∀ m, m ∈ Store.messages st →
          ¬ (Message.campaignId m = Some id
             ∧ Message.status m = "PENDING"%string))
    ∧ it_outcome it = Some Returned
    ∧ (∃ c', Store.campaigns (it_store it) = <[id := c']> (Store.campaigns st)
             ∧ Campaign.status c' = CampaignStatus.COMPLETED
             ∧ Campaign.completedAt c' = Some (now (os 2))
             ∧ Campaign.sentMessages c' = Campaign.sentMessages c
             ∧ Campaign.failedMessages c' = Campaign.failedMessages c
             ∧ Campaign.totalMessages c' = Campaign.totalMessages c)
    ∧ Store.messages (it_store it) = Store.messages st
    ∧ it_issued it = []
  end.
Proof.
  intros Hconn it. pose proof findFirstPending_earliest as Hearliest.
  destruct (Store.findFirstPending id st) as [m|] eqn:Hm;
    cbn [Selection.earliest_pending] in Hearliest.
  - destruct Hearliest as (Hin & [Hcid Hst] & Hleast).
    assert (Hit : it = run_iteration 6 os 2 id (AtSend c m) st ss)
      by by apply iteration_pending.
    split_and!; [done|done|done| |done|].
    + intros m' Hin' Hc' Hs'. by apply Hleast.
    + rewrite Hit. apply run_send_issued.
  - split; [exact Hearliest|].
    subst it. rewrite (iteration_connected _ _ _ _ c Hc Hrunning) by done.
    rewrite (run_quiet_next _ _ _ _ _ _ _ _ _ _
               (proc_step_find_none _ _ _ (os 1) c Hm)) by done.
    rewrite (run_quiet_last _ _ _ _ _ _ _ _ _ Returned
               (proc_step_campaign_update id st ss c Hc (os 2) AtComplete
                  (Campaign.complete (now (os 2))) Returned (λ _, eq_refl)))
      by (left; set_solver).
    split_and!; try done. by eexists.
Qed.

(** A cached session is what [getSession] returns. *)
Lemma getSession_hit sessions instances instanceId :
  Gateway.getStatus sessions instanceId = Gateway.connected →
  ∃ session,
    Gateway.getSession sessions instances instanceId = (sessions, inr session).
Proof.
  unfold Gateway.getStatus, Gateway.getSession.
  case_decide as Hs; [|done]. destruct Hs as [session ->]. by exists session.
Qed.

(** What a gateway call that finds the session settles with: what the
    provider's answer makes of it in [apiRequest]. *)
Lemma send_settled m e :
  Gateway.getStatus ss (Campaign.instanceId c) = Gateway.connected →
  Gateway.settled (send ss st c m (net (os 2))) = inl e →
  match net (os 2) with
  | Gateway.FetchRejects e' => e = e'
  | Gateway.FetchResolves r =>
    match Gateway.body r with
    | Gateway.NotJson msg => e = ErrorObj msg
    | Gateway.Json error_message =>
      Gateway.ok r = false
      ∧ e = ErrorObj (or_else error_message
                        ("API Request Failed: " +:+ Gateway.statusText r))
    end
  end.
Proof.
  intros Hconn.
  destruct (getSession_hit ss (Store.instances st) _ Hconn) as [session Hget].
  unfold send, Gateway.sendMedia, Gateway.sendText, Gateway.apiRequest.
  destruct (truthy (Message.mediaUrl m)); rewrite !Hget;
    cbn [Gateway.settled]; rewrite ?Hget; cbn [Gateway.settled];
    (destruct (net (os 2)) as [e'|r]; [by intros [= ->]|]);
    (destruct (Gateway.body r) as [msg|error_message]; [by intros [= ->]|]);
    (destruct (Gateway.ok r); [done|by intros [= ->]]).
Qed.

(** C8: when the gateway call for the selected message fails with [e],
    the iteration marks that message FAILED with the description of [e]
    (the message of the error, which for a provider rejection is the
    provider's error message or the status text; ['Unknown error'] for a
    thrown value that is no [Error]), adds one to the failed counter and
    ends at the top of the loop: the loop goes on, the campaign keeps
    its status and its sent counter, and no other message or campaign
    changes. *)
Theorem failed_send_is_recorded (m : Message.t) (e : Thrown) :
  Gateway.getStatus ss (Campaign.instanceId c) = Gateway.connected →
  Store.findFirstPending id st = Some m →
  Gateway.settled (send ss st c m (net (os 2))) = inl e →
  let it := iteration os id st ss in
  let description :=
    match e with
    | ErrorObj message => message
    | NotAnError => "Unknown error"%string
    end in
  it_outcome it = Some (Suspended AtLoad)
  ∧ (∃ c', Store.campaigns (it_store it) !! id = Some c'
           ∧ Campaign.failedMessages c' = Campaign.failedMessages c + 1
           ∧ Campaign.sentMessages c' = Campaign.sentMessages c
           ∧ Campaign.totalMessages c' = Campaign.totalMessages c
           ∧ Campaign.status c' = CampaignStatus.RUNNING)
  ∧ (∀ id', id' ≠ id →
       Store.campaigns (it_store it) !! id' = Store.campaigns st !! id')
  ∧ (∀ i m', Store.messages st !! i = Some m' →
       Store.messages (it_store it) !! i
       = Some (if decide (Message.id m' = Message.id m)
               then Message.mark_failed (describe e) m' else m'))
  ∧ (∀ m', Message.status (Message.mark_failed (describe e) m')
             = "FAILED"%string
           ∧ Message.errorMsg (Message.mark_failed (describe e) m')
             = Some description
           ∧ Message.id (Message.mark_failed (describe e) m') = Message.id m'
           ∧ Message.campaignId (Message.mark_failed (describe e) m')
             = Message.campaignId m'
           ∧ Message.to (Message.mark_failed (describe e) m') = Message.to m'
           ∧ Message.body (Message.mark_failed (describe e) m')
             = Message.body m')
  ∧ describe e = description
  ∧ match net (os 2) with
    | Gateway.FetchRejects e' => e = e'
    | Gateway.FetchResolves r =>
      match Gateway.body r with
      | Gateway.NotJson msg => e = ErrorObj msg
      | Gateway.Json error_message =>
        Gateway.ok r = false
        ∧ e = ErrorObj (or_else error_message
                          ("API Request Failed: " +:+ Gateway.statusText r))
      end
    end
  ∧ length (Store.messages (it_store it)) = length (Store.messages st).
Proof.
  intros Hconn Hm Hfail it description. subst it.
  pose proof (send_settled m e Hconn Hfail) as Hsettled.
  rewrite (iteration_pending _ _ _ _ _ Hc Hrunning m) by done.
  destruct (findFirstPending_Some _ _ _ Hm) as [Hin _].
  set (call := send ss st c m (net (os 2))) in *.
  rewrite (run_next os id _ _ _ st ss _ (AtMarkFailed c m e) eq_refl)
    by (simpl; by fold call; rewrite ?Hfail).
  cbv zeta. cbn [proc_step store_after sessions_after issued].
  set (st1 := {| Store.campaigns := Store.campaigns st;
                 Store.messages :=
                   Store.update_where_id (Message.id m)
                     (Message.mark_failed (describe e)) <$> Store.messages st;
                 Store.instances := Store.instances st |}).
  assert (Hst1 : Store.message_update (Message.id m)
                   (Message.mark_failed (describe e)) st = Some st1).
  { unfold Store.message_update.
    by rewrite decide_True by (by apply list_elem_of_fmap_2). }
  rewrite (run_quiet_next os id _ _ _ st _ st1 _ (AtIncrementFailed c))
    by (simpl; by rewrite ?Hst1).
  rewrite (run_quiet_next os id _ _ _ st1 _ _ _ (AtSleep c)
             (proc_step_campaign_update id st1 _ c Hc (os 4)
                (AtIncrementFailed c) Campaign.increment_failed
                (Suspended (AtSleep c)) (λ _, eq_refl))) by done.
  rewrite (run_quiet_last os id _ _ (AtSleep c) _ _ _ _ (Suspended AtLoad) eq_refl)
    by (left; set_solver).
  cbn [it_outcome it_store Store.campaigns Store.messages st1].
  assert (Hd : describe e = description) by (by destruct e).
  split_and!; try done.
  - eexists. rewrite lookup_insert_eq. split; [done|]. simpl.
    by rewrite Hrunning.
  - intros id' Hne. by rewrite lookup_insert_ne.
  - intros i m' Hi. rewrite list_lookup_fmap, Hi. done.
  - by rewrite length_fmap.
Qed.

(** C9: when the campaign is RUNNING and the instance is not connected at
    the top of an iteration, the iteration sets the campaign PAUSED and
    the loop returns normally: nothing is sent and no message changes.
    The pause is recoverable: [resume] is accepted for the campaign, and
    once a session is cached again the resumed loop goes on to select a
    message. *)
Theorem disconnected_instance_pauses :
  Gateway.getStatus ss (Campaign.instanceId c) ≠ Gateway.connected →
  let it := iteration os id st ss in
  it_outcome it = Some Returned
  ∧ Store.campaigns (it_store it)
    = <[id := Campaign.set_status CampaignStatus.PAUSED c]> (Store.campaigns st)
  ∧ Store.messages (it_store it) = Store.messages st
  ∧ it_issued it = []
  ∧ it_sessions it = ss
  ∧ control_check resume (Store.campaigns (it_store it) !! id) = None
  ∧ ∃ st', Store.campaign_update id (control_data resume) (it_store it) = Some st'
      ∧ Store.messages st' = Store.messages st
      ∧ ∀ ss' o, Gateway.getStatus ss' (Campaign.instanceId c) = Gateway.connected →
          ∃ c', outcome (proc_step o id AtLoad st' ss') = Suspended (AtFind c')
                ∧ Campaign.status c' = CampaignStatus.RUNNING.
Proof.
  intros Hdis it. subst it. unfold iteration.
  rewrite (run_quiet_next _ _ _ _ _ _ _ _ _ _
             (proc_step_load_disconnected _ _ _ _ Hc Hrunning (os 0) Hdis))
    by done.
  rewrite (run_quiet_last _ _ _ _ _ _ _ _ _ Returned
             (proc_step_campaign_update id st ss c Hc (os 1) AtPause
                (Campaign.set_status CampaignStatus.PAUSED) Returned
                (λ _, eq_refl)))
    by (left; set_solver).
  cbn [it_outcome it_store it_issued it_sessions Store.campaigns Store.messages].
  split_and!; try done.
  - by rewrite lookup_insert_eq.
  - unfold Store.campaign_update. cbn [Store.campaigns].
    rewrite lookup_insert_eq.
    eexists. split; [done|]. split; [done|].
    intros ss' o Hconn. simpl. rewrite lookup_insert_eq. simpl.
    rewrite Hconn. simpl. by eexists.
Qed.

End loop_body.

(** ** The control routes *)

Section control.
Import Dispatcher Control.

Lemma control_check_None action c :
  control_check action (Some c) = None ↔ allowed action (Campaign.status c).
Proof.
  unfold control_check, allowed.
  destruct action; case_decide; destruct (Campaign.status c);
    intuition congruence.
Qed.

Lemma control_check_client_error action c r :
  control_check action c = Some r → client_error r.
Proof.
  unfold control_check, client_error.
  destruct c as [c|]; [destruct action; case_decide|];
    intros [= <-]; do 2 eexists; (split; [done|lia]).
Qed.

Lemma start_check_None ss c :
  start_check ss (Some c) = None
  ↔ Campaign.status c = CampaignStatus.PENDING
    ∧ Gateway.getStatus ss (Campaign.instanceId c) = Gateway.connected.
Proof.
  unfold start_check. repeat case_decide; split; try done; tauto.
Qed.

Lemma start_check_client_error ss c r :
  start_check ss c = Some r → client_error r.
Proof.
  unfold start_check, client_error.
  destruct c as [c|]; [repeat case_decide|];
    intros [= <-]; do 2 eexists; (split; [done|lia]).
Qed.

Lemma processCampaign_invoked id w st' :
  let '(running', spawned) := processCampaign (runningProcessors (mem w)) id in
  loop_invoked id w
    {| mem := {| store := st'; sessions := sessions (mem w);
                 runningProcessors := running';
                 provider_log := provider_log (mem w) |};
       tasks := tasks w ++ spawned |}.
Proof.
  unfold processCampaign, loop_invoked.
  case_decide; simpl; (split; [set_solver|done]).
Qed.

(** Resuming the task that was added last. *)
Lemma exec_resume_last (w : World) (t : Task) (o : Oracle) :
  exec (Resume (length (tasks w)) o)
    {| mem := mem w; tasks := tasks w ++ [t] |}
  = Some {| mem := (resume_task o t (mem w)).1;
            tasks := tasks w ++ (resume_task o t (mem w)).2 |}.
Proof.
  unfold exec. cbn [tasks mem].
  rewrite lookup_app_r, Nat.sub_diag by done. cbn [lookup list_lookup].
  destruct (resume_task o t (mem w)) as [m' new]. cbn [fst snd].
  rewrite take_app_length.
  rewrite (drop_ge (tasks w ++ [t])) by (rewrite length_app; simpl; lia).
  by rewrite app_nil_r.
Qed.


End control.


(** ** The webhook receiver *)

Section receiver.
Import Receiver Ingestion.
Context (uuid : nat → string) (now : Z).

Lemma returns_ret {A} (a : A) : returns (mret a : M A).
Proof. intros s. by exists s, a. Qed.

Lemma returns_bind {A B} (m : M A) (f : A → M B) :
  returns m → (∀ a, returns (f a)) → returns (m ≫= f).
Proof.
  intros Hm Hf s. destruct (Hm s) as (s1 & a & Hs).
  destruct (Hf a s1) as (s2 & b & Hs2).
  exists s2, b. unfold mbind, M_bind. by rewrite Hs.
Qed.

Lemma returns_get_db : returns get_db.
Proof. intros s. by eexists _, _. Qed.

Lemma returns_put_db d : returns (put_db d).
Proof. intros s. by eexists _, _. Qed.

Lemma returns_new_key : returns (new_key uuid).
Proof. intros s. by eexists _, _. Qed.

Lemma returns_dispatchWebhook i e d : returns (dispatchWebhook i e d).
Proof. intros s. by eexists _, _. Qed.

Lemma returns_handleMediaDownload i m t mt : returns (handleMediaDownload i m t mt).
Proof. intros s. by eexists _, _. Qed.

Lemma returns_for_of {A} (l : list A) (body : A → M unit) :
  Forall (λ x, returns (body x)) l → returns (for_of l body).
Proof.
  induction 1 as [|x l Hx _ IH]; simpl.
  - apply returns_ret.
  - apply returns_bind; [done|]. by intros _.
Qed.

(** An exception in the body of a [for] loop leaves the loop: the items
    after the failing one are not processed. *)
Lemma for_of_throws {A} (l1 l2 : list A) (x : A) (body : A → M unit) s s1 s2 e :
  for_of l1 body s = (s1, inr tt) →
  body x s1 = (s2, inl e) →
  for_of (l1 ++ x :: l2) body s = (s2, inl e).
Proof.
  revert s. induction l1 as [|y l1 IH]; intros s; simpl.
  - intros [= <-] Hx. unfold mbind, M_bind. by rewrite Hx.
  - unfold mbind, M_bind. destruct (body y s) as [s' [e'|[]]]; [done|].
    intros Hl1 Hx. by apply IH.
Qed.

Create HintDb returns.

Local Hint Resolve returns_ret returns_get_db returns_put_db returns_new_key
  returns_dispatchWebhook returns_handleMediaDownload : returns.

Local Ltac returns_tac :=
  repeat first
    [ apply returns_bind; [|intros ?]
    | progress eauto with returns
    | case_match ].

(** Processing an inbound message never throws: a message whose
    phone-number id is missing or unknown is dropped. *)
Lemma returns_on_message v message : returns (on_message uuid now v message).
Proof. unfold on_message. returns_tac. Qed.

Lemma returns_on_status v st : status_ok st → returns (on_status now v st).
Proof.
  intros Hok. unfold on_status.
  destruct (metadata v) as [md|]; [|eauto with returns].
  destruct (truthy (phone_number_id md)); [|eauto with returns].
  apply returns_bind; [eauto with returns|intros d].
  destruct (instance_findFirst _ d) as [[instanceId row]|]; [|eauto with returns].
  apply returns_bind; [|eauto with returns].
  destruct (truthy (status_id st)) eqn:Hid; [|eauto with returns].
  destruct (Hok Hid) as [s ->]. eauto with returns.
Qed.

Lemma returns_on_change c : change_ok c → returns (on_change uuid now c).
Proof.
  intros (v & Hv & _ & Hst). unfold on_change. rewrite Hv.
  apply returns_bind.
  - destruct (messages v); [|eauto with returns].
    apply returns_for_of, Forall_forall. intros m _. apply returns_on_message.
  - intros _. destruct (statuses v) as [ss|]; [|eauto with returns].
    apply returns_for_of. simpl in Hst.
    eapply Forall_impl; [done|]. intros st. apply returns_on_status.
Qed.

Lemma returns_process body : processable body → returns (process uuid now body).
Proof.
  intros Hok. unfold process. case_decide; [|eauto with returns].
  apply returns_for_of. eapply Forall_impl; [exact Hok|].
  intros e He. apply returns_for_of. eapply Forall_impl; [exact He|].
  intros c. apply returns_on_change.
Qed.

(** A message whose provider id is already stored, arriving for a known
    instance: no row is added, and [dispatchWebhook] is called. *)
Lemma on_message_duplicate v md message s instanceId row existing :
  metadata v = Some md →
  truthy (phone_number_id md) = true →
  instance_findFirst (or_else (phone_number_id md) "") (db s)
    = Some (instanceId, row) →
  message_findUnique (id message) (db s) = Some existing →
  ∃ s', on_message uuid now v message s = (s', inr tt)
        ∧ message_rows (db s') = message_rows (db s)
        ∧ dispatched s'
          = {| d_instanceId := instanceId; d_event := "message";
               d_data := MessageData message md |} :: dispatched s.
Proof.
  intros Hmd Hpn Hinst Hdup. unfold on_message. rewrite Hmd, Hpn.
  unfold mbind, M_bind, get_db at 1. simpl. rewrite Hinst.
  destruct (contact_findUnique instanceId (from message) (db s)) as [c|].
  - destruct (truthy (pushName_of v (from message)) && _); simpl;
      unfold message_findUnique in *; simpl; rewrite Hdup; simpl;
      by eexists.
  - simpl. unfold message_findUnique in *; simpl. rewrite Hdup. simpl.
    by eexists.
Qed.

(** A status update with an id and no status string, for a value that
    is routed to an instance: [status.status.toUpperCase()] throws. *)
Lemma on_status_throws v md st s1 :
  metadata v = Some md →
  truthy (phone_number_id md) = true →
  is_Some (instance_findFirst (or_else (phone_number_id md) "") (db s1)) →
  truthy (status_id st) = true →
  status st = None →
  ∃ err, on_status now v st s1 = (s1, inl err).
Proof.
  intros Hmd Hpn [[instanceId row] Hinst] Hid Hst. unfold on_status.
  rewrite Hmd, Hpn. unfold mbind, M_bind, get_db at 1. cbn [fst snd].
  rewrite Hinst, Hid, Hst. by eexists.
Qed.

(** The [try] block on a batch whose entries are [es]. *)
Lemma process_batch es :
  process uuid now (batch es) = for_of es (on_entry uuid now).
Proof. unfold process, batch. cbn [object entry]. by rewrite decide_True. Qed.

Lemma for_of_app {A} (l1 l2 : list A) (item : A → M unit) s s1 :
  for_of l1 item s = (s1, inr tt) →
  for_of (l1 ++ l2) item s = for_of l2 item s1.
Proof.
  revert s. induction l1 as [|y l1 IH]; intros s; simpl.
  - by intros [= <-].
  - unfold mbind, M_bind. destruct (item y s) as [s' [e'|[]]]; [done|].
    apply IH.
Qed.

Lemma for_of_snoc_inv {A} (l : list A) (x : A) (item : A → M unit) s s1 :
  for_of (l ++ [x]) item s = (s1, inr tt) →
  ∃ s0, for_of l item s = (s0, inr tt) ∧ item x s0 = (s1, inr tt).
Proof.
  revert s. induction l as [|y l IH]; intros s; simpl.
  - unfold mbind, M_bind. destruct (item x s) as [s' [e'|[]]] eqn:Hx; [done|].
    intros [= <-]. by exists s.
  - unfold mbind, M_bind. destruct (item y s) as [s' [e'|[]]]; [done|].
    apply IH.
Qed.

Lemma for_of_ext {A} (l : list A) (f g : A → M unit) s :
  (∀ x s', f x s' = g x s') → for_of l f s = for_of l g s.
Proof.
  intros Hfg. revert s. induction l as [|y l IH]; intros s; simpl; [done|].
  unfold mbind, M_bind. rewrite Hfg.
  destruct (g y s) as [s' [e'|[]]]; [done|]. apply IH.
Qed.

(** A change cut off after some of its status updates is processed like
    the change itself up to there: the items read the metadata and the
    contacts of the value only. *)
Lemma on_change_up_to sts v s :
  on_change uuid now (up_to sts v) s
  = (match messages v with
     | Some ms => for_of ms (on_message uuid now v)
     | None => mret tt
     end ;; for_of sts (on_status now v)) s.
Proof.
  unfold on_change, up_to. cbn [value messages statuses].
  unfold mbind, M_bind.
  assert (Hm : (match messages v with
                | Some ms =>
                    for_of ms
                      (on_message uuid now
                         {| metadata := metadata v; messages := messages v;
                            statuses := Some sts; contacts := contacts v |})
                | None => mret tt
                end) s
               = (match messages v with
                  | Some ms => for_of ms (on_message uuid now v)
                  | None => mret tt
                  end) s).
  { destruct (messages v); [|done]. by apply for_of_ext. }
  rewrite Hm.
  destruct ((match messages v with
             | Some ms => for_of ms (on_message uuid now v)
             | None => mret tt
             end) s) as [s' [e'|[]]]; [done|].
  by apply for_of_ext.
Qed.


End receiver.



(** C1 (what the code does): the same inbound message delivered twice is
    stored once, but [dispatchWebhook] is called for it both times: the
    call stands after the [if (!existingMessage)] block, not in it. *)
Theorem duplicate_delivery_dispatched_twice :
  let s1 := (Receiver.post Sample.uuid 5 (Some Sample.delivery) Sample.receiver0).1 in
  let s2 := (Receiver.post Sample.uuid 6 (Some Sample.delivery) s1).1 in
  length (Receiver.rows_of "wamid.HBgLNTUxMTk5" s1) = 1
  ∧ length (Receiver.message_events "wamid.HBgLNTUxMTk5" s1) = 1
  ∧ length (Receiver.rows_of "wamid.HBgLNTUxMTk5" s2) = 1
  ∧ length (Receiver.message_events "wamid.HBgLNTUxMTk5" s2) = 2.
Proof. vm_compute. repeat split. Qed.

(** ** The interleaved process: tasks *)

Section tasks.
Import Dispatcher Safety.

Lemma proc_ids_app l1 l2 : proc_ids (l1 ++ l2) = proc_ids l1 ++ proc_ids l2.
Proof. apply omap_app. Qed.

Lemma elem_of_proc_ids id ts : id ∈ proc_ids ts ↔ ∃ pc, Processor id pc ∈ ts.
Proof.
  unfold proc_ids. rewrite list_elem_of_omap. split.
  - intros ([id' pc| |] & Hin & Heq); simplify_eq/=. by exists pc.
  - intros [pc Hin]. by exists (Processor id pc).
Qed.

Lemma uncounted_not_running id ts :
  id ∉ proc_ids ts → sum_list_with (uncounted id) ts = 0.
Proof.
  induction ts as [|t ts IH]; [done|]. simpl.
  destruct t as [id' pc| |]; simpl.
  - intros [Hne Hts]%not_elem_of_cons. rewrite IH by done.
    destruct pc; try done; by rewrite decide_False.
  - intros Hts. by rewrite IH.
  - intros Hts. by rewrite IH.
Qed.

Lemma uncounted_other id id' pc :
  id' ≠ id → uncounted id (Processor id' pc) = 0.
Proof. intros Hne. destruct pc; try done; simpl; by rewrite decide_False. Qed.

(** With one loop per campaign, the loop of [id] is where it is and
    nowhere else. *)
Lemma single_elsewhere id pc l1 l2 :
  NoDup (proc_ids (l1 ++ Processor id pc :: l2)) →
  (id ∉ proc_ids l1) ∧ (id ∉ proc_ids l2)
  ∧ NoDup (proc_ids (l1 ++ l2)).
Proof.
  rewrite !proc_ids_app. simpl. intros Hnd.
  apply NoDup_app in Hnd as (Hl1 & Hdisj & Hnd).
  apply NoDup_cons in Hnd as [Hid Hl2].
  split_and!; [|done|].
  - intros Hin. apply (Hdisj _ Hin). left.
  - apply NoDup_app. split_and!; [done| |done].
    intros x Hx Hx2. apply (Hdisj _ Hx). by right.
Qed.

Lemma single_here id pc pc' l1 l2 :
  NoDup (proc_ids (l1 ++ Processor id pc :: l2)) →
  Processor id pc' ∈ l1 ++ Processor id pc :: l2 → pc' = pc.
Proof.
  intros (Hl1 & Hl2 & _)%single_elsewhere Hin.
  apply elem_of_app in Hin as [Hin|[Heq|Hin]%elem_of_cons].
  - destruct Hl1. apply elem_of_proc_ids. by exists pc'.
  - by simplify_eq.
  - destruct Hl2. apply elem_of_proc_ids. by exists pc'.
Qed.

Lemma uncounted_split id l1 t l2 :
  sum_list_with (uncounted id) (l1 ++ t :: l2)
  = sum_list_with (uncounted id) l1 + uncounted id t
    + sum_list_with (uncounted id) l2.
Proof. rewrite sum_list_with_app. simpl. lia. Qed.

(** Resuming the [i]-th task replaces it, in place, by what it leaves. *)
Lemma exec_Resume i o w w' :
  exec (Resume i o) w = Some w' →
  ∃ t l1 l2,
    tasks w = l1 ++ t :: l2
    ∧ w' = {| mem := (resume_task o t (mem w)).1;
              tasks := l1 ++ (resume_task o t (mem w)).2 ++ l2 |}.
Proof.
  simpl. destruct (tasks w !! i) as [t|] eqn:Hi; [|done].
  destruct (resume_task o t (mem w)) as [m' new] eqn:Hr. intros [= <-].
  exists t, (take i (tasks w)), (drop (S i) (tasks w)).
  rewrite Hr. split; [by rewrite take_drop_middle|done].
Qed.

End tasks.

(** ** The interleaved process: the store *)

Section store_steps.
Import Dispatcher Safety.

Lemma pending_count_app id l1 l2 :
  pending_count id (l1 ++ l2) = pending_count id l1 + pending_count id l2.
Proof. unfold pending_count. by rewrite filter_app, length_app. Qed.

Lemma pending_count_0 id l :
  pending_count id l = 0 ↔ ∀ m, m ∈ l → ¬ Store.pending_of id m.
Proof.
  unfold pending_count. rewrite length_zero_iff_nil. split.
  - intros Hnil m Hin Hp.
    assert (m ∈ filter (Store.pending_of id) l) as Hf
      by by apply list_elem_of_filter.
    rewrite Hnil in Hf. by apply elem_of_nil in Hf.
  - intros Hno. apply elem_of_nil_inv. intros m [? ?]%list_elem_of_filter.
    by eapply Hno.
Qed.

Lemma update_ids mid data (l : list Message.t) :
  (∀ m, Message.id (data m) = Message.id m) →
  Message.id <$> (Store.update_where_id mid data <$> l) = Message.id <$> l.
Proof.
  intros Hd. rewrite <- list_fmap_compose. apply list_fmap_ext.
  intros i m _. simpl. unfold Store.update_where_id. by case_decide.
Qed.

(** Marking the one row with key [mid], which was PENDING for [id],
    takes one off the PENDING rows of [id] and leaves those of the other
    campaigns alone. *)
Lemma pending_count_mark id mid data (l : list Message.t) m :
  NoDup (Message.id <$> l) →
  m ∈ l → Message.id m = mid → Store.pending_of id m →
  (∀ m0, Message.campaignId (data m0) = Message.campaignId m0) →
  (∀ m0, Message.status (data m0) ≠ "PENDING"%string) →
  ∀ id',
    pending_count id' (Store.update_where_id mid data <$> l)
      + (if decide (id' = id) then 1 else 0)
    = pending_count id' l.
Proof.
  intros Hnd Hin Hmid [Hcid Hst] Hdc Hds id'.
  induction l as [|x l IH]; [by apply elem_of_nil in Hin|].
  apply NoDup_cons in Hnd as [Hx Hnd]. simpl in Hx.
  unfold pending_count in *. rewrite fmap_cons, !filter_cons.
  apply elem_of_cons in Hin as [<-|Hin].
  - assert (Store.update_where_id mid data m = data m) as ->
      by (unfold Store.update_where_id; by rewrite decide_True).
    rewrite (decide_False (P := Store.pending_of id' (data m)))
      by (intros [_ ?]; by eapply Hds).
    assert (Store.update_where_id mid data <$> l = l) as ->.
    { apply list_eq. intros i. rewrite list_lookup_fmap.
      destruct (l !! i) as [y|] eqn:Hy; [|done]. simpl.
      unfold Store.update_where_id. rewrite decide_False; [done|].
      intros Hym. apply Hx. rewrite Hmid, <- Hym.
      apply list_elem_of_fmap_2. by eapply list_elem_of_lookup_2. }
    destruct (decide (id' = id)) as [->|Hid].
    + rewrite decide_True by done. simpl. lia.
    + rewrite decide_False; [lia|]. intros [Hc' _]. congruence.
  - specialize (IH Hnd Hin).
    assert (Store.update_where_id mid data x = x) as ->.
    { unfold Store.update_where_id. rewrite decide_False; [done|].
      intros Hxm. apply Hx. rewrite Hxm, <- Hmid.
      by apply list_elem_of_fmap_2. }
    destruct (decide (Store.pending_of id' x)); simpl; lia.
Qed.

Lemma elem_of_campaign_rows m ms :
  m ∈ Store.campaign_rows ms ↔ m ∈ ms ∧ is_Some (Message.campaignId m).
Proof. unfold Store.campaign_rows. by rewrite list_elem_of_filter, (comm and). Qed.

Lemma campaign_rows_app ms1 ms2 :
  Store.campaign_rows (ms1 ++ ms2)
  = Store.campaign_rows ms1 ++ Store.campaign_rows ms2.
Proof. apply filter_app. Qed.

Lemma campaign_rows_keys mid ms :
  mid ∈ Message.id <$> Store.campaign_rows ms → mid ∈ Message.id <$> ms.
Proof.
  intros (m & -> & [Hin _]%elem_of_campaign_rows)%list_elem_of_fmap.
  by apply list_elem_of_fmap_2.
Qed.

Lemma pending_campaign_row id m ms :
  m ∈ ms → Store.pending_of id m → m ∈ Store.campaign_rows ms.
Proof. intros Hin [Hc _]. apply elem_of_campaign_rows. by rewrite Hc. Qed.

(** The PENDING rows of a campaign are among the rows of campaigns. *)
Lemma pending_count_campaign_rows id ms :
  pending_count id (Store.campaign_rows ms) = pending_count id ms.
Proof.
  unfold pending_count, Store.campaign_rows.
  induction ms as [|m ms IH]; [done|]. rewrite !filter_cons.
  destruct (decide (Store.pending_of id m)) as [Hp|Hp].
  - rewrite decide_True by (destruct Hp as [-> _]; by eexists).
    rewrite filter_cons, decide_True by done. simpl. by rewrite IH.
  - case_decide; [|done]. by rewrite filter_cons, decide_False.
Qed.

Lemma update_campaign_rows_ids mid data (l : list Message.t) :
  (∀ m, Message.id (data m) = Message.id m
        ∧ Message.campaignId (data m) = Message.campaignId m) →
  Message.id <$> Store.campaign_rows (Store.update_where_id mid data <$> l)
  = Message.id <$> Store.campaign_rows l.
Proof.
  intros Hd. unfold Store.campaign_rows.
  induction l as [|m l IH]; [done|]. rewrite fmap_cons, !filter_cons.
  assert (Message.id (Store.update_where_id mid data m) = Message.id m
          ∧ Message.campaignId (Store.update_where_id mid data m)
            = Message.campaignId m) as [Hi Hc].
  { unfold Store.update_where_id. case_decide; [apply Hd|done]. }
  rewrite Hc. case_decide; [|done]. rewrite !fmap_cons. by f_equal.
Qed.

End store_steps.

(** ** At most one loop per campaign *)

Section loops.
Import Dispatcher Safety.

(** Membership in a task list spelled as an append. *)
Local Ltac in_tasks :=
  rewrite ?elem_of_app, ?elem_of_cons, ?elem_of_app, ?elem_of_nil; tauto.

Lemma resume_processor o id pc m :
  let r := proc_step o id pc (store m) (sessions m) in
  resume_task o (Processor id pc) m
  = ({| store := store_after r; sessions := sessions_after r;
        runningProcessors :=
          match outcome r with
          | Suspended _ => runningProcessors m
          | _ => runningProcessors m ∖ {[id]}
          end;
        provider_log :=
          match pc, issued r with
          | AtSend _ message, Some request =>
              (Message.id message, request) :: provider_log m
          | _, _ => provider_log m
          end |},
     match outcome r with
     | Suspended pc' => [Processor id pc']
     | _ => []
     end).
Proof. simpl. by destruct (outcome _). Qed.

(** No step of a loop removes a campaign. *)
Lemma proc_step_campaigns o id pc st ss id' :
  is_Some (Store.campaigns st !! id') →
  is_Some (Store.campaigns (store_after (proc_step o id pc st ss)) !! id').
Proof.
  intros Hsome.
  destruct pc; simpl; repeat case_match; simpl; try done;
    match goal with
    | H : Store.campaign_update _ _ _ = Some _ |- _ =>
        apply campaign_update_Some in H as (c0 & ? & -> & _);
        by apply lookup_insert_is_Some'; right
    | H : Store.message_update _ _ _ = Some _ |- _ =>
        apply message_update_Some in H as (_ & -> & _); done
    end.
Qed.

Context (w : World) (Hok : loops_ok w).

Lemma loops_ok_mem m' :
  runningProcessors m' = runningProcessors (mem w) →
  (∀ id, is_Some (Store.campaigns (store (mem w)) !! id) →
         is_Some (Store.campaigns (store m') !! id)) →
  loops_ok {| mem := m'; tasks := tasks w |}.
Proof.
  intros Hrun Hdom. destruct Hok as [Hs Hr Hc]. split; simpl.
  - done.
  - intros id. rewrite Hrun. apply Hr.
  - intros id pc Hin. by eapply Hdom, Hc.
Qed.

Lemma loops_ok_request h :
  proc_id h = None →
  loops_ok {| mem := mem w; tasks := tasks w ++ [h] |}.
Proof.
  intros Hh. destruct Hok as [Hs Hr Hc].
  assert (proc_ids (tasks w ++ [h]) = proc_ids (tasks w)) as Hids.
  { rewrite proc_ids_app. simpl. rewrite Hh. apply app_nil_r. }
  split; simpl; rewrite ?Hids; [done|done|].
  intros id pc [Hin|Hin%list_elem_of_singleton]%elem_of_app.
  - by eapply Hc.
  - by subst h.
Qed.

Context (l1 l2 : list Task) (t : Task) (Hts : tasks w = l1 ++ t :: l2).

Lemma loops_ok_suspended id pc pc' m' :
  t = Processor id pc →
  runningProcessors m' = runningProcessors (mem w) →
  (∀ id, is_Some (Store.campaigns (store (mem w)) !! id) →
         is_Some (Store.campaigns (store m') !! id)) →
  loops_ok {| mem := m'; tasks := l1 ++ [Processor id pc'] ++ l2 |}.
Proof.
  intros -> Hrun Hdom. destruct Hok as [Hs Hr Hc]. rewrite Hts in *.
  assert (proc_ids (l1 ++ [Processor id pc'] ++ l2)
          = proc_ids (l1 ++ Processor id pc :: l2)) as Hids
    by by rewrite !proc_ids_app.
  split; cbn [tasks mem]; rewrite ?Hids; [done| |].
  - intros id'. rewrite Hrun. apply Hr.
  - intros id' pc'' Hin. apply Hdom. simpl in Hin.
    apply elem_of_app in Hin as [Hin|[Heq|Hin]%elem_of_cons].
    + apply (Hc id' pc''). in_tasks.
    + injection Heq as -> ->. apply (Hc id pc). in_tasks.
    + apply (Hc id' pc''). in_tasks.
Qed.

Lemma loops_ok_finished id pc m' :
  t = Processor id pc →
  runningProcessors m' = runningProcessors (mem w) ∖ {[id]} →
  (∀ id, is_Some (Store.campaigns (store (mem w)) !! id) →
         is_Some (Store.campaigns (store m') !! id)) →
  loops_ok {| mem := m'; tasks := l1 ++ [] ++ l2 |}.
Proof.
  intros -> Hrun Hdom. destruct Hok as [Hs Hr Hc]. rewrite Hts in *.
  destruct (single_elsewhere _ _ _ _ Hs) as (Hl1 & Hl2 & Hnd).
  split; simpl.
  - done.
  - intros id'. rewrite Hrun, elem_of_difference, Hr, !proc_ids_app.
    change (proc_ids (Processor id pc :: l2)) with (id :: proc_ids l2).
    rewrite !elem_of_app, elem_of_cons, elem_of_singleton. split.
    + intros [[?|[?|?]] ?]; tauto.
    + intros [?|?]; (split; [tauto|]); intros ->; tauto.
  - intros id' pc' Hin. apply Hdom, (Hc id' pc'). revert Hin. in_tasks.
Qed.

(** A handler that ends, having called [processCampaign(id)] or not. *)
Lemma loops_ok_handler m' new :
  proc_id t = None →
  (∀ id, is_Some (Store.campaigns (store (mem w)) !! id) →
         is_Some (Store.campaigns (store m') !! id)) →
  (runningProcessors m' = runningProcessors (mem w) ∧ new = [])
  ∨ (∃ id, (runningProcessors m', new)
           = processCampaign (runningProcessors (mem w)) id
           ∧ is_Some (Store.campaigns (store m') !! id)) →
  loops_ok {| mem := m'; tasks := l1 ++ new ++ l2 |}.
Proof.
  intros Ht Hdom Hnew. destruct Hok as [Hs Hr Hc]. rewrite Hts in *.
  assert (proc_ids (l1 ++ t :: l2) = proc_ids (l1 ++ l2)) as Hids.
  { rewrite !proc_ids_app. simpl. by rewrite Ht. }
  rewrite Hids in *.
  assert (∀ id pc, Processor id pc ∈ l1 ++ l2 →
                   is_Some (Store.campaigns (store m') !! id)) as Hc'.
  { intros id pc Hin. apply Hdom, (Hc id pc). revert Hin. in_tasks. }
  assert (Hquiet : ∀ running',
    running' = runningProcessors (mem w) →
    runningProcessors m' = running' →
    loops_ok {| mem := m'; tasks := l1 ++ [] ++ l2 |}).
  { intros running' -> Hrun. split; simpl; [done| |done].
    intros id. rewrite Hrun. apply Hr. }
  destruct Hnew as [[Hrun ->]|(id & Hpc & Hcid)]; [by eapply Hquiet|].
  unfold processCampaign in Hpc. case_decide as Hin.
  - injection Hpc as Hrun ->. by eapply Hquiet.
  - injection Hpc as Hrun ->.
    assert (id ∉ proc_ids (l1 ++ l2)) as Hnew by by rewrite <- Hr.
    rewrite proc_ids_app in Hnew. apply not_elem_of_app in Hnew as [Hn1 Hn2].
    split; simpl.
    + rewrite !proc_ids_app in *. simpl.
      apply NoDup_app in Hs as (Hnd1 & Hdisj & Hnd2).
      apply NoDup_app. split_and!; [done| |by apply NoDup_cons].
      intros x Hx [->|Hx2]%elem_of_cons; [done|by eapply Hdisj].
    + intros id'. rewrite Hrun, elem_of_union, elem_of_singleton, Hr.
      rewrite !proc_ids_app. simpl.
      rewrite !elem_of_app, elem_of_cons. tauto.
    + intros id' pc' Hin'.
      apply elem_of_app in Hin' as [Hin'|[Heq|Hin']%elem_of_cons].
      * apply (Hc' id' pc'). in_tasks.
      * by injection Heq as -> ->.
      * apply (Hc' id' pc'). in_tasks.
Qed.

End loops.

(** ** What the handlers do to the world *)

Section handlers.
Import Dispatcher Safety.

Lemma new_rows_zip {A} id instanceId instance (f : A → string)
    (g : A → Content) (l : list A) keys :
  length keys = length l →
  new_rows id keys
    (zip_with (λ x key, new_message id instanceId instance (f x) (g x) key)
       l keys).
Proof.
  revert keys. induction l as [|x l IH]; intros [|k keys] Hlen; try done.
  destruct (IH keys) as [Hids Hall]; [by injection Hlen|].
  split; [|by constructor].
  simpl. by f_equal.
Qed.

Lemma exec_create e w w' :
  (∃ d id keys, e = CreateSimple d id keys)
  ∨ (∃ d id keys, e = CreateAdvanced d id keys) →
  exec e w = Some w' →
  w' = w
  ∨ ∃ id keys c rows,
      fresh (store (mem w)) id keys (length rows)
      ∧ new_rows id keys rows
      ∧ created c (length rows)
      ∧ w' = {| mem := with_store (campaign_create id c rows (store (mem w)))
                         (mem w);
                tasks := tasks w |}.
Proof.
  intros [(d & id & keys & ->)|(d & id & keys & ->)]; simpl.
  - unfold createSimple.
    destruct (Store.instances _ !! _) as [instance|];
      [|intros [= <-]; left; by destruct w].
    case_decide as Hfresh; [|done]. intros [= <-]. right.
    pose proof Hfresh as (_ & _ & _ & Hlen).
    pose proof (new_rows_zip id (Simple.instanceId d) instance
                  (λ to, to) (λ _, Simple.message d)
                  (Simple.recipients d) keys Hlen) as Hrows.
    exists id, keys, (Simple.campaign d), (Simple.rows id instance d keys).
    assert (length (Simple.rows id instance d keys)
            = length (Simple.recipients d)) as Hl.
    { unfold Simple.rows. rewrite length_zip_with. lia. }
    rewrite Hl. done.
  - unfold createAdvanced.
    destruct (Store.instances _ !! _) as [instance|];
      [|intros [= <-]; left; by destruct w].
    case_decide as Hfresh; [|done]. intros [= <-]. right.
    pose proof Hfresh as (_ & _ & _ & Hlen).
    pose proof (new_rows_zip id (Advanced.instanceId d) instance
                  fst snd (Advanced.messages d) keys Hlen) as Hrows.
    exists id, keys, (Advanced.campaign d), (Advanced.rows id instance d keys).
    assert (length (Advanced.rows id instance d keys)
            = length (Advanced.messages d)) as Hl.
    { unfold Advanced.rows. rewrite length_zip_with. lia. }
    rewrite Hl. done.
Qed.

(** A resumed handler fails at its update and changes nothing, or writes
    the status and (for start and resume) calls [processCampaign]. *)
Lemma resume_handler o t m :
  proc_id t = None →
  (resume_task o t m = (m, []))
  ∨ ∃ id c data running' new,
      Store.campaigns (store m) !! id = Some c
      ∧ status_write data
      ∧ resume_task o t m
        = ({| store := {| Store.campaigns := <[id := data c]> (Store.campaigns (store m));
                          Store.messages := Store.messages (store m);
                          Store.instances := Store.instances (store m) |};
              sessions := sessions m;
              runningProcessors := running';
              provider_log := provider_log m |}, new)
      ∧ ((running', new) = processCampaign (runningProcessors m) id
         ∨ (running' = runningProcessors m ∧ new = [])).
Proof.
  destruct t as [|id|id action]; [done| |]; intros _; simpl.
  - unfold start_write.
    destruct (Store.campaigns (store m) !! id) as [c|] eqn:Hc.
    + right. rewrite (campaign_update_lookup _ _ _ _ Hc).
      destruct (processCampaign _ _) as [running' new] eqn:Hp.
      exists id, c, (Campaign.start (now o)), running', new.
      split_and!; [done|done|done|by left].
    + left. unfold Store.campaign_update. by rewrite Hc.
  - unfold control_write.
    destruct (Store.campaigns (store m) !! id) as [c|] eqn:Hc.
    + right. rewrite (campaign_update_lookup _ _ _ _ Hc).
      destruct action; simpl.
      * eexists id, c, _, _, _. split_and!; [done| |done|by right]. done.
      * destruct (processCampaign _ _) as [running' new] eqn:Hp.
        eexists id, c, _, running', new.
        split_and!; [done| |done|by left]. done.
      * eexists id, c, _, _, _. split_and!; [done| |done|by right]. done.
    + left. unfold Store.campaign_update. by rewrite Hc.
Qed.

End handlers.

(** ** What a resumed loop does to the world *)

Section effects.
Import Dispatcher Safety.

Lemma marking_mark_sent now : marking (Message.mark_sent now).
Proof. by intros m. Qed.

Lemma marking_mark_failed msg : marking (Message.mark_failed msg).
Proof. by intros m. Qed.

Lemma counting_increment_sent : counting Campaign.increment_sent.
Proof. intros c. simpl. split_and!; (done || lia). Qed.

Lemma counting_increment_failed : counting Campaign.increment_failed.
Proof. intros c. simpl. split_and!; (done || lia). Qed.

(** The loop of [id], resumed in a world where its campaign and the
    message it holds exist, has one of the effects of [effect]. *)
Lemma resume_processor_effect o id pc m :
  is_Some (Store.campaigns (store m) !! id) →
  (∀ msg, in_flight pc = Some msg →
          Message.id msg ∈ Message.id <$> Store.messages (store m)) →
  ∃ st' ss' log' next,
    effect id (store m) (provider_log m) pc st' log' next
    ∧ resume_task o (Processor id pc) m
      = ({| store := st'; sessions := ss';
            runningProcessors :=
              match next with
              | Some _ => runningProcessors m
              | None => runningProcessors m ∖ {[id]}
              end;
            provider_log := log' |},
         continuation id next).
Proof.
  intros [c0 Hc0] Hflight. rewrite resume_processor. cbv zeta.
  destruct pc as [| |c| |c msg|c msg|c msg|c msg e|c|c].
  - (* AtLoad *)
    simpl. rewrite Hc0. simpl.
    destruct (decide (Campaign.status c0 ≠ _)); simpl.
    { eexists _, _, _, None. split; [constructor|done]. }
    destruct (decide (Gateway.getStatus _ _ ≠ _)); simpl.
    + eexists _, _, _, (Some _). split; [constructor; constructor|done].
    + eexists _, _, _, (Some _). split; [constructor; constructor|done].
  - (* AtPause *)
    simpl. rewrite (campaign_update_lookup _ _ _ _ Hc0). simpl.
    eexists _, _, _, None. split; [by apply effect_pause|done].
  - (* AtFind *)
    simpl. destruct (Store.findFirstPending id (store m)) as [msg|] eqn:Hf; simpl.
    + eexists _, _, _, (Some _). split; [constructor; by constructor|done].
    + eexists _, _, _, (Some _). split; [constructor; by constructor|done].
  - (* AtComplete *)
    simpl. rewrite (campaign_update_lookup _ _ _ _ Hc0). simpl.
    eexists _, _, _, None. split; [by apply effect_complete|done].
  - (* AtSend *)
    cbn [proc_step store_after sessions_after issued outcome].
    generalize (send (sessions m) (store m) c msg (net o)). intros call.
    destruct (Gateway.settled call) as [e|[]];
      destruct (Gateway.issued call) as [request|];
      eexists _, _, _, (Some _);
      refine (conj _ eq_refl); (apply effect_send; [done|]); eauto.
  - (* AtMarkSent *)
    simpl. unfold Store.message_update.
    rewrite decide_True by by apply Hflight. simpl.
    eexists _, _, _, (Some _).
    split; [|done].
    apply (effect_mark _ _ _ (AtMarkSent c msg) msg _ (AtIncrementSent c msg));
      [done|simpl; by rewrite decide_True|apply marking_mark_sent].
  - (* AtIncrementSent *)
    simpl. rewrite (campaign_update_lookup _ _ _ _ Hc0). simpl.
    eexists _, _, _, (Some _). split; [|done].
    apply (effect_count _ _ _ (AtIncrementSent c msg) c c0);
      [simpl; by rewrite decide_True|done|apply counting_increment_sent].
  - (* AtMarkFailed *)
    simpl. unfold Store.message_update.
    rewrite decide_True by by apply Hflight. simpl.
    eexists _, _, _, (Some _).
    split; [|done].
    apply (effect_mark _ _ _ (AtMarkFailed c msg e) msg _ (AtIncrementFailed c));
      [done|simpl; by rewrite decide_True|apply marking_mark_failed].
  - (* AtIncrementFailed *)
    simpl. rewrite (campaign_update_lookup _ _ _ _ Hc0). simpl.
    eexists _, _, _, (Some _). split; [|done].
    apply (effect_count _ _ _ (AtIncrementFailed c) c c0);
      [simpl; by rewrite decide_True|done|apply counting_increment_failed].
  - (* AtSleep *)
    simpl. eexists _, _, _, (Some _). split; [constructor; constructor|done].
Qed.

End effects.

(** ** The message table is kept in order *)

Section rows.
Import Dispatcher Safety.

Local Ltac in_tasks :=
  rewrite ?elem_of_app, ?elem_of_cons, ?elem_of_app, ?elem_of_nil; tauto.

Lemma elem_of_continued (t : Task) l1 l2 id next :
  t ∈ l1 ++ continuation id next ++ l2
  ↔ t ∈ l1 ++ l2 ∨ ∃ pc', next = Some pc' ∧ t = Processor id pc'.
Proof.
  destruct next as [pc'|]; simpl.
  - rewrite !elem_of_app, elem_of_cons. split.
    + intros [?|[->|?]]; eauto.
    + intros [[?|?]|(? & [= <-] & ->)]; eauto.
  - split; [by left|]. by intros [?|(? & ? & ?)].
Qed.

Lemma lookup_with_campaign_is_Some id c (st : Store.t) id' :
  is_Some (Store.campaigns st !! id') →
  is_Some (Store.campaigns (with_campaign id c st) !! id').
Proof. intros H. simpl. apply lookup_insert_is_Some'. by right. Qed.

(** No effect of a loop removes a campaign. *)
Lemma effect_campaigns id st log pc st' log' next id' :
  effect id st log pc st' log' next →
  is_Some (Store.campaigns st !! id') → is_Some (Store.campaigns st' !! id').
Proof.
  destruct 1; try done; by apply lookup_with_campaign_is_Some.
Qed.

Lemma loops_ok_effect w l1 l2 id pc st' ss' log' next :
  loops_ok w →
  tasks w = l1 ++ Processor id pc :: l2 →
  effect id (store (mem w)) (provider_log (mem w)) pc st' log' next →
  loops_ok (after_effect w l1 l2 id st' ss' log' next).
Proof.
  intros Hok Hts Heff. unfold after_effect. destruct next as [pc'|]; simpl.
  - eapply (loops_ok_suspended w Hok l1 l2 _ Hts id pc pc'); [done|done|].
    intros id'. simpl. by eapply effect_campaigns.
  - eapply (loops_ok_finished w Hok l1 l2 _ Hts id pc); [done|done|].
    intros id'. simpl. by eapply effect_campaigns.
Qed.

Lemma rows_ok_handled w w' : rows_ok w → handled w w' → rows_ok w'.
Proof.
  intros [Hk Ho Hu Hf] [Hloops _ _ Hmsg _ Hcamp].
  assert (Hdom : ∀ id, is_Some (Store.campaigns (store (mem w)) !! id) →
                       is_Some (Store.campaigns (store (mem w')) !! id)).
  { intros id' Hs. destruct Hcamp as [->|(id & c & data & _ & _ & ->)]; [done|].
    apply lookup_insert_is_Some'. by right. }
  split; rewrite ?Hmsg.
  - done.
  - intros m id Hin Hcid. by eapply Hdom, Ho.
  - done.
  - intros id pc m Hin Hfl. destruct (Hloops _ _ Hin) as [Hin'| ->]; [|done].
    by eapply Hf.
Qed.

Lemma rows_ok_create w id keys c rows :
  rows_ok w →
  fresh (store (mem w)) id keys (length rows) →
  new_rows id keys rows →
  rows_ok {| mem := with_store (campaign_create id c rows (store (mem w))) (mem w);
             tasks := tasks w |}.
Proof.
  intros [Hk Ho Hu Hf] (Hnew & Hnd & Hfresh & _) [Hids Hrows]. split; simpl.
  - rewrite fmap_app, Hids. apply NoDup_app. split_and!; [done| |done].
    intros x Hx Hx'. rewrite Forall_forall in Hfresh. by eapply Hfresh.
  - intros m id' [Hin|Hin]%elem_of_app Hcid.
    + apply lookup_insert_is_Some'. right. by eapply Ho.
    + rewrite Forall_forall in Hrows. destruct (Hrows _ Hin) as [Hc' _].
      assert (id' = id) as -> by congruence.
      apply lookup_insert_is_Some'. by left.
  - intros m [Hin|Hin]%elem_of_app Hcid; [by apply Hu|].
    rewrite Forall_forall in Hrows. by destruct (Hrows _ Hin) as (_ & _ & ? & ?).
  - intros id' pc m Hin Hfl. destruct (Hf _ _ _ Hin Hfl) as (m' & ? & ? & ?).
    exists m'. split_and!; [|done|done]. apply elem_of_app. by left.
Qed.

(** The row a loop holds belongs to its campaign, so no other loop holds
    a row with the same key. *)
Lemma in_flight_owner w id pc m id' pc' m' :
  rows_ok w →
  Processor id pc ∈ tasks w → in_flight pc = Some m →
  Processor id' pc' ∈ tasks w → in_flight pc' = Some m' →
  Message.id m' = Message.id m → id' = id.
Proof.
  intros [Hk _ _ Hf] Hin Hfl Hin' Hfl' Heq.
  destruct (Hf _ _ _ Hin Hfl) as (r & Hr & Hrid & [Hrc _]).
  destruct (Hf _ _ _ Hin' Hfl') as (r' & Hr' & Hrid' & [Hrc' _]).
  assert (r' = r) as ->; [|congruence].
  apply list_elem_of_lookup in Hr as [i Hi].
  apply list_elem_of_lookup in Hr' as [j Hj].
  assert (i = j) as ->; [|congruence].
  eapply NoDup_lookup; [exact Hk| |];
    rewrite list_lookup_fmap; [by rewrite Hi|rewrite Hj; simpl]; congruence.
Qed.

Lemma unmarked_in_flight pc m : unmarked pc = Some m → in_flight pc = Some m.
Proof. by destruct pc. Qed.

Lemma uncounted_1 id id' pc :
  uncounted id (Processor id' pc) = 1 →
  in_flight pc = None ∧ unmarked pc = None ∧ pc ≠ AtComplete ∧ id' = id.
Proof. destruct pc; try done; simpl; by case_decide. Qed.

Lemma rows_ok_effect w l1 l2 id pc st' ss' log' next :
  loops_ok w → rows_ok w →
  tasks w = l1 ++ Processor id pc :: l2 →
  effect id (store (mem w)) (provider_log (mem w)) pc st' log' next →
  rows_ok (after_effect w l1 l2 id st' ss' log' next).
Proof.
  intros [Hs _ _] Hrows Hts Heff. pose proof Hrows as [Hk Ho Hu Hf].
  rewrite Hts in Hs. destruct (single_elsewhere _ _ _ _ Hs) as (Hl1 & Hl2 & _).
  assert (Hrest : ∀ id' pc',
    Processor id' pc' ∈ l1 ++ l2 → Processor id' pc' ∈ tasks w ∧ id' ≠ id).
  { intros id' pc' Hin. split; [rewrite Hts; revert Hin; in_tasks|].
    intros ->. apply elem_of_app in Hin as [Hin|Hin].
    - apply Hl1, elem_of_proc_ids. by exists pc'.
    - apply Hl2, elem_of_proc_ids. by exists pc'. }
  assert (Hme : Processor id pc ∈ tasks w) by (rewrite Hts; in_tasks).
  (* the three fields, for a store whose rows are those of [w] *)
  assert (Hsame : ∀ st1,
    Store.messages st1 = Store.messages (store (mem w)) →
    (∀ id', is_Some (Store.campaigns (store (mem w)) !! id') →
            is_Some (Store.campaigns st1 !! id')) →
    (∀ pc' m, next = Some pc' → in_flight pc' = Some m →
       ∃ m', m' ∈ Store.messages (store (mem w))
             ∧ Message.id m' = Message.id m ∧ Store.pending_of id m') →
    rows_ok (after_effect w l1 l2 id st1 ss' log' next)).
  { intros st1 Hmsg Hdom Hnew. split; simpl; rewrite ?Hmsg.
    - done.
    - intros m id' Hin Hcid. by eapply Hdom, Ho.
    - done.
    - intros id' pc' m Hin Hfl.
      assert (Processor id' pc' ∈ l1 ++ l2 ∨ (id' = id ∧ next = Some pc'))
        as [Hin'|[-> Hnext]].
      { apply elem_of_continued in Hin as [?|(pc0 & -> & [= -> ->])]; eauto. }
      + destruct (Hrest _ _ Hin') as [Hin'' _]. by eapply Hf.
      + by eapply Hnew. }
  inversion Heff as [|? pc' Hq|c m pc' ? Hun ?|c Hc|c now Hc
                     |? m data pc' Hun Hunc Hdata|? c c0 data Hunc Hc Hdata];
    subst.
  - apply Hsame; [done|done|done].
  - apply Hsame; [done|done|]. intros pc0 m [= <-] Hfl.
    destruct Hq; try done. injection Hfl as <-.
    match goal with H : Store.findFirstPending _ _ = Some _ |- _ =>
      apply findFirstPending_Some in H as [? ?] end.
    by eexists.
  - apply Hsame; [done|done|]. intros pc0 m0 [= <-] Hfl.
    apply unmarked_in_flight in Hun. rewrite Hun in Hfl. injection Hfl as <-.
    by eapply (Hf id (AtSend c m)).
  - apply Hsame; [done| |done].
    intros id'. apply lookup_with_campaign_is_Some.
  - apply Hsame; [done| |done].
    intros id'. apply lookup_with_campaign_is_Some.
  - (* a row is marked *)
    apply unmarked_in_flight in Hun as Hfl.
    destruct (Hf _ _ _ Hme Hfl) as (r & Hr & Hrid & Hrp).
    destruct (uncounted_1 _ _ _ Hunc) as (Hfl' & _).
    split; simpl.
    + rewrite update_ids; [done|]. intros m0. apply Hdata.
    + intros m0 id' (m1 & -> & Hm1)%list_elem_of_fmap Hcid.
      apply (Ho m1 id' Hm1). rewrite <- Hcid.
      unfold Store.update_where_id. case_decide; [|done].
      symmetry. apply Hdata.
    + intros m0 (m1 & -> & Hm1)%list_elem_of_fmap.
      unfold Store.update_where_id. case_decide; [|by apply Hu].
      destruct (Hdata m1) as (_ & -> & _ & -> & ->). by apply Hu.
    + intros id' pc0 m0 Hin Hfl0.
      assert (Processor id' pc0 ∈ l1 ++ l2) as Hin'.
      { apply (elem_of_continued _ _ _ _ (Some pc')) in Hin
          as [?|(? & [= <-] & [= -> ->])]; [done|congruence]. }
      destruct (Hrest _ _ Hin') as [Hin'' Hne].
      destruct (Hf _ _ _ Hin'' Hfl0) as (r0 & Hr0 & Hr0id & Hr0p).
      exists r0. split_and!; [|done|done].
      apply list_elem_of_fmap. exists r0. split; [|done].
      unfold Store.update_where_id. rewrite decide_False; [done|].
      intros Heq. apply Hne.
      eapply (in_flight_owner w id pc m id' pc0 m0); try done. congruence.
  - apply Hsame; [done| |by intros ? ? [= <-]].
    intros id'. apply lookup_with_campaign_is_Some.
Qed.

End rows.

(** ** The counters add up *)

Section counters.
Import Dispatcher Safety.

Lemma uncounted_continued id' l1 l2 id pc next :
  sum_list_with (uncounted id') (l1 ++ continuation id next ++ l2)
    + uncounted id' (Processor id pc)
  = sum_list_with (uncounted id') (l1 ++ Processor id pc :: l2)
    + match next with
      | Some pc' => uncounted id' (Processor id pc')
      | None => 0
      end.
Proof.
  rewrite uncounted_split. destruct next as [pc'|]; cbn [continuation].
  - change ([Processor id pc'] ++ l2) with (Processor id pc' :: l2).
    rewrite uncounted_split. lia.
  - change ([] ++ l2) with l2. rewrite sum_list_with_app. lia.
Qed.

Lemma uncounted_0 id pc :
  in_flight pc = None → (∀ c m, pc ≠ AtIncrementSent c m) →
  (∀ c, pc ≠ AtIncrementFailed c) →
  ∀ id', uncounted id' (Processor id pc) = 0.
Proof. intros Hfl H1 H2 id'. destruct pc; try done; congruence. Qed.

Lemma uncounted_in_flight id pc m id' :
  in_flight pc = Some m → uncounted id' (Processor id pc) = 0.
Proof. by destruct pc. Qed.

Lemma uncounted_quiet id st pc pc' id' :
  quiet id st pc pc' →
  uncounted id' (Processor id pc) = 0 ∧ uncounted id' (Processor id pc') = 0.
Proof. by destruct 1. Qed.

Lemma pending_count_new id id' rows :
  Forall (λ r, Message.campaignId r = Some id
               ∧ Message.status r = "PENDING"%string
               ∧ Message.waMessageId r = None
               ∧ Message.contactId r = None) rows →
  pending_count id' rows = if decide (id' = id) then length rows else 0.
Proof.
  unfold pending_count. induction 1 as [|r rows (Hc & Hs & _) _ IH]; simpl.
  - by case_decide.
  - rewrite filter_cons. destruct (decide (id' = id)) as [->|Hne].
    + rewrite decide_True by done. simpl. by rewrite IH.
    + rewrite decide_False; [done|]. intros [? _]. congruence.
Qed.

Lemma counters_ok_handled w w' :
  counters_ok w → handled w w' → counters_ok w'.
Proof.
  intros [Hsum Hdone] [Hloops _ Hunc Hmsg _ Hcamp].
  assert (Hback : ∀ id c',
    Store.campaigns (store (mem w')) !! id = Some c' →
    ∃ c, Store.campaigns (store (mem w)) !! id = Some c
         ∧ Campaign.totalMessages c' = Campaign.totalMessages c
         ∧ Campaign.sentMessages c' = Campaign.sentMessages c
         ∧ Campaign.failedMessages c' = Campaign.failedMessages c
         ∧ (Campaign.status c' = CampaignStatus.COMPLETED →
            Campaign.status c = CampaignStatus.COMPLETED)).
  { intros id c'. destruct Hcamp as [->|(id0 & c0 & data & Hc0 & Hd & ->)].
    - intros Hc. by exists c'.
    - destruct (decide (id = id0)) as [->|Hne].
      + rewrite lookup_insert_eq. intros [= <-]. exists c0.
        destruct (Hd c0) as (? & ? & ? & ?). by split_and!.
      + rewrite lookup_insert_ne by done. intros Hc. by exists c'. }
  split; rewrite ?Hmsg.
  - intros id c' Hc'. destruct (Hback _ _ Hc') as (c & Hc & -> & -> & -> & _).
    rewrite Hunc. by apply Hsum.
  - intros id c' Hc' Hprem.
    destruct (Hback _ _ Hc') as (c & Hc & _ & _ & _ & Hst).
    rewrite Hunc. apply (Hdone id c Hc).
    destruct Hprem as [?|Hin]; [left; by apply Hst|right].
    by destruct (Hloops _ _ Hin).
Qed.

Lemma counters_ok_create w id keys c rows :
  loops_ok w → rows_ok w → counters_ok w →
  fresh (store (mem w)) id keys (length rows) →
  new_rows id keys rows →
  created c (length rows) →
  counters_ok
    {| mem := with_store (campaign_create id c rows (store (mem w))) (mem w);
       tasks := tasks w |}.
Proof.
  intros [_ _ Hcamp] [_ Ho _ _] [Hsum Hdone] (Hnew & _) [_ Hrows]
    (Hst & Htot & Hsent & Hfailed).
  assert (Hnone : pending_count id (Store.messages (store (mem w))) = 0).
  { apply pending_count_0. intros m Hin [Hc _].
    destruct (Ho _ _ Hin Hc) as [? ?]. congruence. }
  assert (Hidle : id ∉ proc_ids (tasks w)).
  { intros [pc Hin]%elem_of_proc_ids.
    destruct (Hcamp _ _ Hin) as [? ?]. congruence. }
  split; simpl.
  - intros id' c'. rewrite pending_count_app, (pending_count_new id id' rows Hrows).
    destruct (decide (id' = id)) as [->|Hne].
    + rewrite lookup_insert_eq. intros [= <-].
      rewrite uncounted_not_running by done. lia.
    + rewrite lookup_insert_ne by done. intros Hc'.
      specialize (Hsum _ _ Hc'). lia.
  - intros id' c'. rewrite pending_count_app, (pending_count_new id id' rows Hrows).
    destruct (decide (id' = id)) as [->|Hne].
    + rewrite lookup_insert_eq. intros [= <-] [Hcompl|Hin]; [congruence|].
      destruct Hidle. apply elem_of_proc_ids. by eexists.
    + rewrite lookup_insert_ne by done. intros Hc' Hprem.
      destruct (Hdone _ _ Hc' Hprem). lia.
Qed.

Lemma counters_ok_effect w l1 l2 id pc st' ss' log' next :
  loops_ok w → rows_ok w → counters_ok w →
  tasks w = l1 ++ Processor id pc :: l2 →
  effect id (store (mem w)) (provider_log (mem w)) pc st' log' next →
  counters_ok (after_effect w l1 l2 id st' ss' log' next).
Proof.
  intros [Hs _ _] [Hk _ _ Hf] [Hsum Hdone] Hts Heff.
  rewrite Hts in Hs. destruct (single_elsewhere _ _ _ _ Hs) as (Hl1 & Hl2 & _).
  assert (Hme : Processor id pc ∈ tasks w)
    by (rewrite Hts, elem_of_app, elem_of_cons; tauto).
  set (ms := Store.messages (store (mem w))) in *.
  set (cs := Store.campaigns (store (mem w))) in *.
  (* the loop of [id] is the only task counted for [id] *)
  assert (Hmine : sum_list_with (uncounted id) (tasks w)
                  = uncounted id (Processor id pc)).
  { rewrite Hts, uncounted_split, !uncounted_not_running by done. lia. }
  assert (Hmine' : sum_list_with (uncounted id) (l1 ++ continuation id next ++ l2)
                   = uncounted_next id next).
  { pose proof (uncounted_continued id l1 l2 id pc next) as Hu.
    rewrite <- Hts, Hmine in Hu. unfold uncounted_next. lia. }
  assert (Hothers : ∀ id', id' ≠ id →
    sum_list_with (uncounted id') (l1 ++ continuation id next ++ l2)
    = sum_list_with (uncounted id') (tasks w)).
  { intros id' Hne. pose proof (uncounted_continued id' l1 l2 id pc next) as Hu.
    rewrite <- Hts, uncounted_other in Hu by done.
    destruct next; rewrite ?uncounted_other in Hu by done; lia. }
  assert (Hcomplete : ∀ id',
    Processor id' AtComplete ∈ l1 ++ continuation id next ++ l2 →
    (id' ≠ id ∧ Processor id' AtComplete ∈ tasks w)
    ∨ (id' = id ∧ next = Some AtComplete)).
  { intros id' [Hin|(pc' & -> & [= -> <-])]%elem_of_continued; [left|by right].
    split.
    - intros ->. apply elem_of_app in Hin as [Hin|Hin].
      + apply Hl1, elem_of_proc_ids. by eexists.
      + apply Hl2, elem_of_proc_ids. by eexists.
    - rewrite Hts. revert Hin. rewrite !elem_of_app, elem_of_cons. tauto. }
  (* the other campaigns are left alone *)
  assert (Hframe : ∀ id', id' ≠ id →
    Store.campaigns st' !! id' = cs !! id'
    ∧ pending_count id' (Store.messages st') = pending_count id' ms).
  { intros id' Hne.
    inversion Heff as [|? pc' Hq|c m pc' ? Hun ?|c Hc|c now Hc
                       |? m data pc' Hun Hunc Hdata|? c c0 data Hunc Hc Hdata];
      subst; simpl; rewrite ?lookup_insert_ne by done; try done.
    split; [done|].
    apply unmarked_in_flight in Hun.
    destruct (Hf _ _ _ Hme Hun) as (r & Hr & Hrid & Hrp).
    pose proof (pending_count_mark id (Message.id m) data ms r Hk Hr Hrid Hrp
                  (λ m0, proj1 (proj2 (Hdata m0)))
                  (λ m0, proj1 (proj2 (proj2 (Hdata m0)))) id') as Hp.
    rewrite decide_False in Hp by done. fold ms. lia. }
  (* the campaign of the loop *)
  assert (Hself : ∀ c', Store.campaigns st' !! id = Some c' →
    Campaign.sentMessages c' + Campaign.failedMessages c'
      + pending_count id (Store.messages st') + uncounted_next id next
    = Campaign.totalMessages c'
    ∧ (Campaign.status c' = CampaignStatus.COMPLETED ∨ next = Some AtComplete →
       pending_count id (Store.messages st') = 0 ∧ uncounted_next id next = 0)).
  { intros c'.
    inversion Heff as [|? pc' Hq|c m pc' ? Hun ?|c Hc|c now Hc
                       |? m data pc' Hun Hunc Hdata|? c c0 data Hunc Hc Hdata];
      subst;
      cbn [Store.campaigns Store.messages with_campaign with_messages
           uncounted_next];
      rewrite ?lookup_insert_eq; fold cs ms.
    - (* the loop returns at the top *)
      intros Hc'. pose proof (Hsum _ _ Hc') as Hs'. fold ms in Hs'.
      rewrite Hmine in Hs'. simpl in Hs'. split; [lia|].
      intros [Hst|?]; [|done]. destruct (Hdone _ _ Hc'); [by left|].
      split; [done|lia].
    - (* nothing is written *)
      intros Hc'. pose proof (Hsum _ _ Hc') as Hs'. fold ms in Hs'.
      rewrite Hmine in Hs'.
      destruct (uncounted_quiet _ _ _ _ id Hq) as [Hu Hu'].
      rewrite Hu in Hs'. rewrite Hu'. split; [lia|].
      intros [Hst|[= ->]].
      + destruct (Hdone _ _ Hc'); [by left|]. by split.
      + split; [|done]. inversion Hq; subst.
        match goal with H : Store.findFirstPending _ _ = None |- _ =>
          apply findFirstPending_None in H; unfold pending_count;
          fold ms in H; by rewrite H end.
    - (* the gateway is called *)
      intros Hc'. pose proof (Hsum _ _ Hc') as Hs'. fold ms in Hs'.
      rewrite Hmine in Hs'. simpl in Hs'.
      apply unmarked_in_flight in Hun.
      rewrite (uncounted_in_flight _ _ _ _ Hun). split; [lia|].
      intros [Hst|[= ->]]; [|done].
      destruct (Hdone _ _ Hc'); [by left|]. by split.
    - (* PAUSED is written *)
      intros [= <-]. pose proof (Hsum _ _ Hc) as Hs'. fold ms in Hs'.
      rewrite Hmine in Hs'. simpl in *. split; [lia|]. by intros [?|?].
    - (* COMPLETED is written *)
      intros [= <-]. pose proof (Hsum _ _ Hc) as Hs'. fold ms in Hs'.
      rewrite Hmine in Hs'. simpl in *. split; [lia|]. intros _.
      destruct (Hdone _ _ Hc); [by right|]. by split.
    - (* a row is marked *)
      intros Hc'. pose proof (Hsum _ _ Hc') as Hs'. fold ms in Hs'.
      rewrite Hmine in Hs'.
      apply unmarked_in_flight in Hun.
      rewrite (uncounted_in_flight _ _ _ _ Hun) in Hs'.
      destruct (Hf _ _ _ Hme Hun) as (r & Hr & Hrid & Hrp).
      pose proof (pending_count_mark id (Message.id m) data ms r Hk Hr Hrid Hrp
                    (λ m0, proj1 (proj2 (Hdata m0)))
                    (λ m0, proj1 (proj2 (proj2 (Hdata m0)))) id) as Hp.
      rewrite decide_True in Hp by done. rewrite Hunc. split; [lia|].
      intros [Hst|[= ->]]; [|by destruct (uncounted_1 _ _ _ Hunc) as (_&_&?&_)].
      destruct (Hdone _ _ Hc') as [Hnone _]; [by left|].
      fold ms in Hnone. lia.
    - (* a counter goes up *)
      intros [= <-]. pose proof (Hsum _ _ Hc) as Hs'. fold ms in Hs'.
      rewrite Hmine, Hunc in Hs'.
      destruct (Hdata c0) as (Htot & Hst & _ & _ & Hplus).
      rewrite Htot, Hst. cbn [uncounted]. split; [lia|].
      intros [Hcompl|?]; [|done].
      destruct (Hdone _ _ Hc) as [_ Hzero]; [by left|]. lia. }
  split; cbn [after_effect mem tasks store].
  - intros id' c' Hc'. destruct (decide (id' = id)) as [->|Hne].
    + rewrite Hmine'. by apply Hself.
    + destruct (Hframe _ Hne) as [Hcs Hpc].
      rewrite Hpc, Hothers by done. apply Hsum. by rewrite <- Hcs.
  - intros id' c' Hc' Hprem. destruct (decide (id' = id)) as [->|Hne].
    + rewrite Hmine'. apply (Hself c' Hc').
      destruct Hprem as [?|Hin]; [by left|right].
      by destruct (Hcomplete _ Hin) as [[? _]|[_ ?]].
    + destruct (Hframe _ Hne) as [Hcs Hpc].
      rewrite Hpc, Hothers by done. rewrite Hcs in Hc'.
      apply (Hdone _ _ Hc').
      destruct Hprem as [?|Hin]; [by left|right].
      by destruct (Hcomplete _ Hin) as [[_ ?]|[? _]].
Qed.

End counters.

(** ** No message is handed to the provider twice *)

Section log.
Import Dispatcher Safety.

Lemma log_ok_handled w w' : log_ok w → handled w w' → log_ok w'.
Proof.
  intros [Honce Hknown Hmarked] [_ Hkept _ Hmsg Hlog _].
  split; rewrite ?Hmsg, ?Hlog; [done|done|].
  intros m Hin Hlogged Hst.
  destruct (Hmarked m Hin Hlogged Hst) as (id & pc & m' & ? & ? & ?).
  exists id, pc, m'. split_and!; [by apply Hkept|done|done].
Qed.

Lemma log_ok_create w id keys c rows :
  log_ok w →
  fresh (store (mem w)) id keys (length rows) →
  new_rows id keys rows →
  log_ok {| mem := with_store (campaign_create id c rows (store (mem w))) (mem w);
            tasks := tasks w |}.
Proof.
  intros [Honce Hknown Hmarked] (_ & _ & Hfresh & _) [Hids _].
  split; simpl; [done| |].
  - intros mid Hin. rewrite campaign_rows_app, fmap_app, elem_of_app. left.
    by apply Hknown.
  - intros m [Hin|Hin]%elem_of_app Hlogged Hst; [by apply Hmarked|].
    rewrite Forall_forall in Hfresh. destruct (Hfresh (Message.id m)).
    + rewrite <- Hids. by apply list_elem_of_fmap_2.
    + by apply campaign_rows_keys, Hknown.
Qed.

Lemma log_ok_effect w l1 l2 id pc st' ss' log' next :
  loops_ok w → rows_ok w → log_ok w →
  tasks w = l1 ++ Processor id pc :: l2 →
  effect id (store (mem w)) (provider_log (mem w)) pc st' log' next →
  log_ok (after_effect w l1 l2 id st' ss' log' next).
Proof.
  intros [Hs _ _] Hrows [Honce Hknown Hmarked] Hts Heff.
  pose proof Hrows as [Hk _ _ Hf]. rewrite Hts in Hs.
  assert (Hme : Processor id pc ∈ tasks w)
    by (rewrite Hts, elem_of_app, elem_of_cons; tauto).
  (* a loop of [w] with an unmarked message, other than the resumed one,
     is still there *)
  assert (Hkept : ∀ id2 pc2 m2,
    Processor id2 pc2 ∈ tasks w → unmarked pc2 = Some m2 →
    unmarked pc ≠ Some m2 →
    Processor id2 pc2 ∈ l1 ++ continuation id next ++ l2).
  { intros id2 pc2 m2 Hin Hun Hne. apply elem_of_continued. left.
    rewrite Hts in Hin. revert Hin. rewrite !elem_of_app, elem_of_cons.
    intros [?|[[= -> ->]|?]]; tauto. }
  (* the log and the keys stay, and the resumed loop held no unmarked
     message or has marked it *)
  assert (Hsame : ∀ st1,
    Message.id <$> Store.campaign_rows (Store.messages st1)
      = Message.id <$> Store.campaign_rows (Store.messages (store (mem w))) →
    (∀ r, r ∈ Store.messages st1 →
          Message.status r = "PENDING"%string →
          r ∈ Store.messages (store (mem w))
          ∧ unmarked pc ≠ Some r
          ∧ ∀ m, unmarked pc = Some m → Message.id m ≠ Message.id r) →
    log_ok (after_effect w l1 l2 id st1 ss' (provider_log (mem w)) next)).
  { intros st1 Hids Hold. split; cbn [after_effect mem tasks store provider_log].
    - done.
    - intros mid Hin. rewrite Hids. by apply Hknown.
    - intros r Hin Hlogged Hst. destruct (Hold r Hin Hst) as (Hin' & _ & Hnot).
      destruct (Hmarked r Hin' Hlogged Hst) as (id2 & pc2 & m2 & Hin2 & Hun2 & Hid2).
      exists id2, pc2, m2. split_and!; [|done|done].
      eapply Hkept; [done|done|]. intros Hun. by eapply Hnot. }
  inversion Heff as [|? pc' Hq|c m pc' ? Hun Hlog|c Hc|c now Hc
                     |? m data pc' Hun Hunc Hdata|? c c0 data Hunc Hc Hdata];
    subst.
  - apply Hsame; [done|]. by intros r Hin Hst.
  - apply Hsame; [done|]. intros r Hin Hst. by destruct Hq.
  - (* the gateway is called *)
    destruct (Hf _ _ _ Hme eq_refl) as (r & Hr & Hrid & Hrp).
    assert (Hnew : Message.id m ∉ (provider_log (mem w)).*1).
    { intros Hlogged. rewrite <- Hrid in Hlogged.
      destruct (Hmarked r Hr Hlogged (proj2 Hrp))
        as (id2 & pc2 & m2 & Hin2 & Hun2 & Hid2).
      apply unmarked_in_flight in Hun2 as Hfl2.
      assert (id2 = id) as ->.
      { eapply (in_flight_owner w id (AtSend c m) m id2 pc2 m2); try done.
        congruence. }
      rewrite Hts in Hin2.
      rewrite (single_here _ _ _ _ _ Hs Hin2) in Hun2. done. }
    split; cbn [after_effect mem tasks store provider_log].
    + destruct Hlog as [->|[request ->]]; [done|].
      rewrite fmap_cons. by apply NoDup_cons.
    + intros mid Hin.
      destruct Hlog as [->|[request ->]]; [by apply Hknown|].
      rewrite fmap_cons in Hin. apply elem_of_cons in Hin as [->|Hin];
        [|by apply Hknown].
      simpl. rewrite <- Hrid.
      by eapply list_elem_of_fmap_2, pending_campaign_row.
    + intros r0 Hin Hlogged Hst.
      destruct (decide (Message.id r0 ∈ (provider_log (mem w)).*1))
        as [Hold|Hfresh].
      * destruct (Hmarked r0 Hin Hold Hst) as (id2 & pc2 & m2 & Hin2 & Hun2 & Hid2).
        exists id2, pc2, m2. split_and!; [|done|done].
        by eapply Hkept.
      * destruct Hlog as [->|[request ->]]; [done|].
        rewrite fmap_cons in Hlogged.
        apply elem_of_cons in Hlogged as [Heq|?]; [|done].
        exists id, pc', m. split_and!; [|done|done].
        apply elem_of_continued. right. by exists pc'.
  - apply Hsame; [done|]. by intros r Hin Hst.
  - apply Hsame; [done|]. by intros r Hin Hst.
  - (* a row is marked *)
    apply Hsame.
    + simpl. apply update_campaign_rows_ids. intros m0.
      destruct (Hdata m0) as (? & ? & _). by split.
    + simpl. intros r' (r & -> & Hr)%list_elem_of_fmap Hst.
      unfold Store.update_where_id in *. case_decide as Hid.
      { by destruct (Hdata r) as (_ & _ & ? & _). }
      split_and!; [done| |].
      * rewrite Hun. intros [= ->]. done.
      * rewrite Hun. intros ? [= <-]. done.
  - apply Hsame; [done|]. intros r Hin Hst.
    destruct (uncounted_1 _ _ _ Hunc) as (_ & Hnone & _).
    rewrite Hnone. by split_and!.
Qed.

End log.

(** ** Writes to the Message table outside the campaign routes *)

Section elsewhere.
Import Dispatcher Safety.

Lemma key_unique (ms : list Message.t) m m' :
  NoDup (Message.id <$> ms) → m ∈ ms → m' ∈ ms →
  Message.id m = Message.id m' → m = m'.
Proof.
  intros Hnd [i Hi]%list_elem_of_lookup [j Hj]%list_elem_of_lookup Heq.
  assert (i = j) as ->; [|congruence].
  eapply NoDup_lookup; [exact Hnd| |];
    rewrite list_lookup_fmap; [by rewrite Hi|rewrite Hj; simpl]; congruence.
Qed.

(** The receiver's [prisma.message.create]: the row has no campaign. *)
Lemma inbound_create_foreign row ms :
  NoDup (Message.id <$> ms) →
  Message.campaignId row = None →
  Message.id row ∉ Message.id <$> ms →
  Store.foreign ms (Store.inbound_create row ms).
Proof.
  intros Hnd Hc Hfresh. unfold Store.foreign, Store.inbound_create. split.
  - rewrite campaign_rows_app. unfold Store.campaign_rows at 2.
    rewrite filter_cons, decide_False, filter_nil, app_nil_r; [done|].
    rewrite Hc. by intros [? ?].
  - rewrite fmap_app. apply NoDup_app. split_and!; [done| |apply NoDup_singleton].
    intros x Hx ->%list_elem_of_singleton. done.
Qed.

(** An update keyed by [waMessageId] (the receiver's status updates, the
    saved media path) touches no row of a campaign. *)
Lemma update_where_waMessageId_foreign waMessageId data ms :
  unlinked ms → NoDup (Message.id <$> ms) →
  (∀ m, Message.id (data m) = Message.id m
        ∧ Message.campaignId (data m) = Message.campaignId m) →
  Store.foreign ms (Store.update_where_waMessageId waMessageId data ms).
Proof.
  intros Hun Hnd Hd. unfold Store.foreign, Store.update_where_waMessageId.
  split.
  - unfold Store.campaign_rows. clear Hnd.
    induction ms as [|m ms IH]; [done|].
    rewrite fmap_cons, !filter_cons.
    rewrite IH by (intros m' Hin; apply Hun; by right).
    destruct (decide (Message.waMessageId m = Some waMessageId)) as [Hw|Hw];
      [|done].
    destruct (Hd m) as [_ ->]. case_decide as Hc; [|done].
    destruct (Hun m) as [Hw' _]; [by left|done|congruence].
  - assert (Message.id <$> ((λ m, if decide (Message.waMessageId m = Some waMessageId)
                                  then data m else m) <$> ms)
            = Message.id <$> ms) as ->; [|done].
    rewrite <- list_fmap_compose. apply list_fmap_ext. intros i m _. simpl.
    case_decide; [apply Hd|done].
Qed.

Lemma ack_foreign waMessageId st delivered read ms :
  unlinked ms → NoDup (Message.id <$> ms) →
  Store.foreign ms
    (Store.update_where_waMessageId waMessageId
       (Message.ack st delivered read) ms).
Proof. intros. by apply update_where_waMessageId_foreign. Qed.

(** The gateway's [deleteMany] keyed by [contactId] deletes no row of a
    campaign. *)
Lemma deleteMany_where_contactId_foreign contactId ms :
  unlinked ms → NoDup (Message.id <$> ms) →
  Store.foreign ms (Store.deleteMany_where_contactId contactId ms).
Proof.
  intros Hun Hnd. unfold Store.foreign, Store.deleteMany_where_contactId.
  split.
  - unfold Store.campaign_rows. clear Hnd.
    induction ms as [|m ms IH]; [done|]. rewrite !filter_cons.
    specialize (IH (λ m' Hin, Hun m' (list_elem_of_further _ _ _ Hin))).
    destruct (decide (is_Some (Message.campaignId m))) as [Hc|Hc].
    + destruct (Hun m) as [_ Hct]; [by left|done|].
      rewrite decide_True by (rewrite Hct; done).
      rewrite filter_cons, decide_True by done. by rewrite IH.
    + case_decide; [|done]. by rewrite filter_cons, decide_False.
  - eapply sublist_NoDup; [exact Hnd|].
    apply fmap_sublist, sublist_filter.
Qed.

Context (w : World) (ms' : list Message.t).
Context (Hforeign : Store.foreign (Store.messages (store (mem w))) ms').

Local Notation elsewhere := (elsewhere w ms').

Lemma foreign_campaign_row m :
  is_Some (Message.campaignId m) →
  m ∈ ms' ↔ m ∈ Store.messages (store (mem w)).
Proof.
  intros Hc. destruct Hforeign as [Heq _].
  pose proof (elem_of_campaign_rows m ms') as H'.
  pose proof (elem_of_campaign_rows m (Store.messages (store (mem w)))) as H.
  rewrite Heq in H'. tauto.
Qed.

Lemma rows_ok_elsewhere : rows_ok w → rows_ok elsewhere.
Proof.
  intros [Hk Ho Hu Hf]. destruct Hforeign as [Heq Hnd]. split; simpl.
  - done.
  - intros m id Hin Hc. apply (Ho m id); [|done].
    apply foreign_campaign_row; [by rewrite Hc|done].
  - intros m Hin Hc. apply Hu; [|done]. by apply foreign_campaign_row.
  - intros id pc m Hin Hfl. destruct (Hf _ _ _ Hin Hfl) as (r & Hr & Hid & Hp).
    exists r. split_and!; [|done|done].
    apply foreign_campaign_row; [|done]. destruct Hp as [-> _]. by eexists.
Qed.

Lemma counters_ok_elsewhere : counters_ok w → counters_ok elsewhere.
Proof.
  intros [Hsum Hdone]. destruct Hforeign as [Heq _].
  assert (∀ id, pending_count id ms'
                = pending_count id (Store.messages (store (mem w)))) as Hp.
  { intros id. by rewrite <- pending_count_campaign_rows, Heq,
                          pending_count_campaign_rows. }
  split; simpl; intros id c; rewrite Hp; [apply Hsum|apply Hdone].
Qed.

Lemma log_ok_elsewhere : log_ok w → log_ok elsewhere.
Proof.
  intros [Honce Hknown Hmarked]. destruct Hforeign as [Heq Hnd].
  split; simpl; [done|by rewrite Heq|].
  intros m Hin Hlogged Hst. apply Hmarked; [|done|done].
  apply Hknown in Hlogged. rewrite <- Heq in Hlogged.
  apply list_elem_of_fmap in Hlogged as (m0 & Hid & Hm0).
  pose proof Hm0 as [Hin0 Hc0]%elem_of_campaign_rows.
  assert (m = m0) as -> by by eapply key_unique.
  by apply foreign_campaign_row.
Qed.

End elsewhere.

(** ** The invariant holds in every reachable world *)

Section invariant.
Import Dispatcher Safety.

Lemma handled_refl w : handled w w.
Proof. split; auto. Qed.

Lemma handled_mem w m' :
  Store.campaigns (store m') = Store.campaigns (store (mem w)) →
  Store.messages (store m') = Store.messages (store (mem w)) →
  provider_log m' = provider_log (mem w) →
  handled w {| mem := m'; tasks := tasks w |}.
Proof. intros. split; simpl; auto. Qed.

Lemma handled_request w h :
  proc_id h = None → handled w {| mem := mem w; tasks := tasks w ++ [h] |}.
Proof.
  intros Hh. split; simpl; auto.
  - intros id pc [?|Hin%list_elem_of_singleton]%elem_of_app; [by left|].
    by subst h.
  - intros id pc Hin. apply elem_of_app. by left.
  - intros id. rewrite sum_list_with_app. simpl. destruct h; try done; lia.
Qed.

Lemma handled_handler w l1 l2 h m' new :
  tasks w = l1 ++ h :: l2 → proc_id h = None →
  new = [] ∨ (∃ id, new = [Processor id AtLoad]) →
  Store.messages (store m') = Store.messages (store (mem w)) →
  provider_log m' = provider_log (mem w) →
  Store.campaigns (store m') = Store.campaigns (store (mem w))
  ∨ (∃ id c data,
        Store.campaigns (store (mem w)) !! id = Some c
        ∧ status_write data
        ∧ Store.campaigns (store m')
          = <[id := data c]> (Store.campaigns (store (mem w)))) →
  handled w {| mem := m'; tasks := l1 ++ new ++ l2 |}.
Proof.
  intros Hts Hh Hnew Hmsg Hlog Hcamp. split; simpl; rewrite ?Hts; auto.
  - intros id pc. rewrite !elem_of_app, elem_of_cons.
    destruct Hnew as [->|[id' ->]].
    + rewrite elem_of_nil. tauto.
    + rewrite list_elem_of_singleton. intros [?|[[= -> ->]|?]]; tauto.
  - intros id pc. rewrite !elem_of_app, elem_of_cons.
    intros [?|[<-|?]]; try tauto. done.
  - intros id. rewrite uncounted_split, !sum_list_with_app.
    assert (uncounted id h = 0) as -> by by destruct h.
    destruct Hnew as [->|[id' ->]]; simpl; lia.
Qed.

Lemma processCampaign_new running id running' new :
  processCampaign running id = (running', new) →
  new = [] ∨ ∃ id', new = [Processor id' AtLoad].
Proof. unfold processCampaign. case_decide; intros [= <- <-]; eauto. Qed.

Lemma invariant_handled w w' :
  invariant w → handled w w' → loops_ok w' → invariant w'.
Proof.
  intros [Hl Hr Hc Hg] Hh Hl'. split; [done|..].
  - by eapply rows_ok_handled.
  - by eapply counters_ok_handled.
  - by eapply log_ok_handled.
Qed.

Lemma invariant_initial w : initial w → invariant w.
Proof.
  intros (Hc & Hm & Hr & Hg & Ht). split; split; rewrite ?Hc, ?Hm, ?Hr, ?Hg, ?Ht.
  - constructor.
  - intros id. simpl. rewrite elem_of_nil. set_solver.
  - intros id pc Hin. by apply elem_of_nil in Hin.
  - constructor.
  - intros m id Hin. by apply elem_of_nil in Hin.
  - intros m Hin. by apply elem_of_nil in Hin.
  - intros id pc m Hin. by apply elem_of_nil in Hin.
  - intros id c. by rewrite lookup_empty.
  - intros id c. by rewrite lookup_empty.
  - constructor.
  - intros mid Hin. by apply elem_of_nil in Hin.
  - intros m Hin. by apply elem_of_nil in Hin.
Qed.

(** Every event keeps the invariant. *)
Lemma invariant_exec e w w' :
  invariant w → exec e w = Some w' → invariant w'.
Proof.
  intros Hinv Hexec. pose proof Hinv as [Hl Hr Hc Hg].
  destruct e as [d id keys|d id keys|id|id action|i o|iid|iid|iid row|ms'].
  - destruct (exec_create _ w w'
                (or_introl (ex_intro _ d (ex_intro _ id (ex_intro _ keys eq_refl))))
                Hexec)
      as [->|(id' & keys' & c & rows & Hf & Hn & Hcr & ->)]; [done|].
    split.
    + apply (loops_ok_mem w Hl); [done|].
      intros id0 Hs. simpl. apply lookup_insert_is_Some'. by right.
    + by eapply rows_ok_create.
    + by eapply counters_ok_create.
    + by eapply log_ok_create.
  - destruct (exec_create _ w w'
                (or_intror (ex_intro _ d (ex_intro _ id (ex_intro _ keys eq_refl))))
                Hexec)
      as [->|(id' & keys' & c & rows & Hf & Hn & Hcr & ->)]; [done|].
    split.
    + apply (loops_ok_mem w Hl); [done|].
      intros id0 Hs. simpl. apply lookup_insert_is_Some'. by right.
    + by eapply rows_ok_create.
    + by eapply counters_ok_create.
    + by eapply log_ok_create.
  - simpl in Hexec. destruct (start_check _ _); injection Hexec as <-; [done|].
    eapply invariant_handled; [done|by apply handled_request|].
    by apply loops_ok_request.
  - simpl in Hexec. destruct (control_check _ _); injection Hexec as <-; [done|].
    eapply invariant_handled; [done|by apply handled_request|].
    by apply loops_ok_request.
  - apply exec_Resume in Hexec as (t & l1 & l2 & Hts & ->).
    destruct (proc_id t) as [id|] eqn:Ht.
    + (* a loop is resumed *)
      destruct t as [id' pc| |]; try done. injection Ht as ->.
      assert (Hme : Processor id pc ∈ tasks w)
        by (rewrite Hts, elem_of_app, elem_of_cons; tauto).
      destruct (resume_processor_effect o id pc (mem w))
        as (st' & ss' & log' & next & Heff & ->).
      { by eapply (loops_campaign w Hl). }
      { intros msg Hfl.
        destruct (rows_in_flight w Hr _ _ _ Hme Hfl) as (r & Hin & <- & _).
        by apply list_elem_of_fmap_2. }
      split.
      * by eapply loops_ok_effect.
      * by eapply rows_ok_effect.
      * by eapply counters_ok_effect.
      * by eapply log_ok_effect.
    + (* a handler is resumed *)
      destruct (resume_handler o t (mem w) Ht)
        as [->|(id & c & data & running' & new & Hcid & Hdata & -> & Hnew)].
      * cbn [fst snd]. eapply invariant_handled; [done| |].
        -- apply (handled_handler w l1 l2 t (mem w) []); auto.
        -- apply (loops_ok_handler w Hl l1 l2 t Hts (mem w) []); auto.
      * cbn [fst snd]. eapply invariant_handled; [done| |].
        -- apply (handled_handler w l1 l2 t); simpl; auto.
           ++ destruct Hnew as [Hnew|[_ ->]]; [|by left].
              symmetry in Hnew. by eapply processCampaign_new.
           ++ right. by exists id, c, data.
        -- apply (loops_ok_handler w Hl l1 l2 t Hts); simpl; auto.
           ++ intros id0 Hs. apply lookup_insert_is_Some'. by right.
           ++ destruct Hnew as [Hnew|[-> ->]]; [right|by left].
              exists id. split; [done|]. simpl.
              apply lookup_insert_is_Some'. by left.
  - injection Hexec as <-.
    eapply invariant_handled; [done|by apply handled_mem|].
    by apply (loops_ok_mem w Hl).
  - injection Hexec as <-.
    eapply invariant_handled; [done|by apply handled_mem|].
    by apply (loops_ok_mem w Hl).
  - injection Hexec as <-.
    eapply invariant_handled; [done|by apply handled_mem|].
    by apply (loops_ok_mem w Hl).
  - simpl in Hexec. case_decide as Hforeign; [|done]. injection Hexec as <-.
    split.
    + by apply (loops_ok_mem w Hl).
    + by apply rows_ok_elsewhere.
    + by apply counters_ok_elsewhere.
    + by apply log_ok_elsewhere.
Qed.

Lemma reachable_invariant w : reachable w → invariant w.
Proof.
  induction 1 as [w Hinit|w e w' _ IH Hexec].
  - by apply invariant_initial.
  - by eapply invariant_exec.
Qed.

Lemma reachable_run es w w' :
  reachable w → run es w = Some w' → reachable w'.
Proof.
  revert w. induction es as [|e es IH]; intros w Hw; simpl.
  - by intros [= <-].
  - destruct (exec e w) as [w1|] eqn:He; [|done].
    apply IH. by eapply reachable_exec.
Qed.

End invariant.

(** ** The dispatcher under concurrent requests *)

Section dispatcher.
Import Dispatcher Safety.

Lemma grown_refl c : grown c c.
Proof. by split_and!. Qed.

Lemma insert_grown id c data (cs : gmap string Campaign.t) id' c' :
  cs !! id = Some c → grown c (data c) →
  cs !! id' = Some c' →
  ∃ c'', <[id := data c]> cs !! id' = Some c'' ∧ grown c' c''.
Proof.
  intros Hc Hg Hc'. destruct (decide (id' = id)) as [->|Hne].
  - rewrite lookup_insert_eq. exists (data c). split; [done|]. congruence.
  - rewrite lookup_insert_ne by done. exists c'. split; [done|apply grown_refl].
Qed.

Lemma effect_grown id st log pc st' log' next id' c :
  effect id st log pc st' log' next →
  Store.campaigns st !! id' = Some c →
  ∃ c', Store.campaigns st' !! id' = Some c' ∧ grown c c'.
Proof.
  intros Heff Hc.
  destruct Heff as [|? pc' Hq|c0 m pc' ? Hun ?|c0 Hc0|c0 now Hc0
                    |? m data pc' Hun Hunc Hdata|? c1 c0 data Hunc Hc0 Hdata];
    simpl; try (exists c; split; [done|apply grown_refl]).
  - by apply (insert_grown id c0 (Campaign.set_status CampaignStatus.PAUSED)).
  - by apply (insert_grown id c0 (Campaign.complete now)).
  - apply (insert_grown id c0 data); [done| |done].
    destruct (Hdata c0) as (? & _ & ? & ? & _). by split_and!.
Qed.

Lemma exec_grown e w w' id c :
  invariant w → exec e w = Some w' →
  Store.campaigns (store (mem w)) !! id = Some c →
  ∃ c', Store.campaigns (store (mem w')) !! id = Some c' ∧ grown c c'.
Proof.
  intros [Hl Hr _ _] Hexec Hc.
  assert (Hsame : ∃ c', Store.campaigns (store (mem w)) !! id = Some c'
                        ∧ grown c c')
    by (exists c; split; [done|apply grown_refl]).
  assert (Hnew : ∀ id' c0, Store.campaigns (store (mem w)) !! id' = None →
    ∃ c', <[id' := c0]> (Store.campaigns (store (mem w))) !! id = Some c'
          ∧ grown c c').
  { intros id' c0 Hnone. exists c. split; [|apply grown_refl].
    rewrite lookup_insert_ne; [done|]. congruence. }
  destruct e as [d id0 keys|d id0 keys|id0|id0 action|i o|iid|iid|iid row|ms'].
  - destruct (exec_create _ w w'
                (or_introl (ex_intro _ d (ex_intro _ id0 (ex_intro _ keys eq_refl))))
                Hexec)
      as [->|(id' & keys' & c0 & rows & (Hf & _) & _ & _ & ->)]; [done|].
    by apply Hnew.
  - destruct (exec_create _ w w'
                (or_intror (ex_intro _ d (ex_intro _ id0 (ex_intro _ keys eq_refl))))
                Hexec)
      as [->|(id' & keys' & c0 & rows & (Hf & _) & _ & _ & ->)]; [done|].
    by apply Hnew.
  - simpl in Hexec. by destruct (start_check _ _); injection Hexec as <-.
  - simpl in Hexec. by destruct (control_check _ _); injection Hexec as <-.
  - apply exec_Resume in Hexec as (t & l1 & l2 & Hts & ->).
    destruct (proc_id t) as [id1|] eqn:Ht.
    + destruct t as [id' pc| |]; try done. injection Ht as ->.
      assert (Hme : Processor id1 pc ∈ tasks w)
        by (rewrite Hts, elem_of_app, elem_of_cons; tauto).
      destruct (resume_processor_effect o id1 pc (mem w))
        as (st' & ss' & log' & next & Heff & ->).
      { by eapply (loops_campaign w Hl). }
      { intros msg Hfl.
        destruct (rows_in_flight w Hr _ _ _ Hme Hfl) as (r & Hin & <- & _).
        by apply list_elem_of_fmap_2. }
      simpl. by eapply effect_grown.
    + destruct (resume_handler o t (mem w) Ht)
        as [->|(id1 & c1 & data & running' & new & Hc1 & Hdata & -> & _)];
        [done|].
      simpl. apply (insert_grown id1 c1 data); [done| |done].
      destruct (Hdata c1) as (? & ? & ? & _). split_and!; [done|lia|lia].
  - by injection Hexec as <-.
  - by injection Hexec as <-.
  - by injection Hexec as <-.
  - simpl in Hexec. case_decide; [|done]. by injection Hexec as <-.
Qed.

(** C2: in every reachable world there is at most one dispatch loop per
    campaign id; an id is in [runningProcessors] exactly while its loop
    is active, so it is released only when the loop has left the
    function; calling [processCampaign] for an id that has a loop is a
    no-op that starts nothing; and no message is handed to the provider
    twice, however start and resume requests interleave. *)
Theorem one_loop_per_campaign (w : World) :
  reachable w →
  NoDup (proc_ids (tasks w))
  ∧ (∀ id, id ∈ runningProcessors (mem w) ↔ ∃ pc, Processor id pc ∈ tasks w)
  ∧ (∀ id pc, Processor id pc ∈ tasks w →
       processCampaign (runningProcessors (mem w)) id
       = (runningProcessors (mem w), []))
  ∧ (∀ id pc o l1 l2,
       tasks w = l1 ++ Processor id pc :: l2 →
       id ∈ runningProcessors (resume_task o (Processor id pc) (mem w)).1
       ↔ ∃ pc', (resume_task o (Processor id pc) (mem w)).2 = [Processor id pc'])
  ∧ NoDup (provider_log (mem w)).*1.
Proof.
  intros [[Hs Hreg Hcamp] _ _ [Honce _ _]]%reachable_invariant.
  split_and!; [done| | | |done].
  - intros id. by rewrite Hreg, elem_of_proc_ids.
  - intros id pc Hin. unfold processCampaign. rewrite decide_True; [done|].
    apply Hreg, elem_of_proc_ids. by exists pc.
  - intros id pc o l1 l2 Hts. rewrite resume_processor. cbv zeta.
    cbn [fst snd runningProcessors].
    assert (id ∈ runningProcessors (mem w)) as Hin.
    { apply Hreg, elem_of_proc_ids. exists pc.
      rewrite Hts, elem_of_app, elem_of_cons. tauto. }
    destruct (outcome _) as [pc'| |].
    + split; [by exists pc'|done].
    + split; [set_solver|by intros [? ?]].
    + split; [set_solver|by intros [? ?]].
Qed.

(** C3: in every reachable world, for every campaign,
    [sentMessages + failedMessages ≤ totalMessages], with equality once
    the status is COMPLETED; no event changes [totalMessages] or lowers a
    counter; and a campaign is created with [totalMessages] equal to the
    number of its recipients. *)
Theorem counters_bounded (w : World) :
  reachable w →
  (∀ id c,
     Store.campaigns (store (mem w)) !! id = Some c →
     Campaign.sentMessages c + Campaign.failedMessages c
       ≤ Campaign.totalMessages c
     ∧ (Campaign.status c = CampaignStatus.COMPLETED →
        Campaign.sentMessages c + Campaign.failedMessages c
        = Campaign.totalMessages c))
  ∧ (∀ e w' id c,
       exec e w = Some w' →
       Store.campaigns (store (mem w)) !! id = Some c →
       ∃ c', Store.campaigns (store (mem w')) !! id = Some c'
             ∧ Campaign.totalMessages c' = Campaign.totalMessages c
             ∧ Campaign.sentMessages c ≤ Campaign.sentMessages c'
             ∧ Campaign.failedMessages c ≤ Campaign.failedMessages c')
  ∧ (∀ d id keys w' c,
       exec (CreateSimple d id keys) w = Some w' →
       Store.campaigns (store (mem w)) !! id = None →
       Store.campaigns (store (mem w')) !! id = Some c →
       Campaign.totalMessages c = length (Simple.recipients d)
       ∧ Campaign.sentMessages c = 0 ∧ Campaign.failedMessages c = 0).
Proof.
  intros Hinv%reachable_invariant. pose proof Hinv as [_ _ [Hsum Hdone] _].
  split_and!.
  - intros id c Hc. specialize (Hsum _ _ Hc). split; [lia|].
    intros Hst. destruct (Hdone _ _ Hc) as [Hp Hu]; [by left|]. lia.
  - intros e w' id c Hexec Hc. by eapply exec_grown.
  - intros d id keys w' c. simpl. unfold createSimple.
    destruct (Store.instances _ !! _) as [instance|].
    + case_decide; [|done]. intros [= <-]. simpl.
      rewrite lookup_insert_eq. by intros _ [= <-].
    + intros [= <-]. simpl. congruence.
Qed.

End dispatcher.

(** ** The properties at work on the sample campaign *)

Lemma sample_reachable : Dispatcher.reachable Sample.world1.
Proof.
  apply (reachable_run Sample.script Sample.world0).
  - by apply Dispatcher.reachable_initial.
  - vm_compute. reflexivity.
Qed.

Lemma sample_campaign :
  Store.campaigns Sample.store1 !! "camp-1"%string = Some Sample.campaign1.
Proof. vm_compute. reflexivity. Qed.

Lemma sample_connected :
  Gateway.getStatus Sample.sessions1 (Campaign.instanceId Sample.campaign1)
  = Gateway.connected.
Proof. vm_compute. reflexivity. Qed.

Lemma sample_pending :
  Store.findFirstPending "camp-1" Sample.store1 = Some Sample.message1.
Proof. vm_compute. reflexivity. Qed.

(** C2 (witness): after two concurrent start requests the sample campaign
    has one loop, and its one send went to the provider once. *)
Lemma one_loop_per_campaign_witness :
  Dispatcher.reachable Sample.world1
  ∧ NoDup (Safety.proc_ids (Dispatcher.tasks Sample.world1))
  ∧ NoDup (Dispatcher.provider_log (Dispatcher.mem Sample.world1)).*1.
Proof.
  split; [exact sample_reachable|].
  destruct (one_loop_per_campaign Sample.world1 sample_reachable)
    as (Hone & _ & _ & _ & Honce).
  exact (conj Hone Honce).
Defined.

(** C3 (witness): the counters of the sample campaign. *)
Lemma counters_bounded_witness :
  Dispatcher.reachable Sample.world1
  ∧ ∀ id c,
      Store.campaigns (Dispatcher.store (Dispatcher.mem Sample.world1)) !! id
        = Some c →
      Campaign.sentMessages c + Campaign.failedMessages c
        ≤ Campaign.totalMessages c.
Proof.
  split; [exact sample_reachable|].
  intros id c Hc.
  exact (proj1 (proj1 (counters_bounded Sample.world1 sample_reachable) id c Hc)).
Defined.

(** C7 (witness): the first iteration of the sample campaign hands a
    PENDING message created at 10, the least [createdAt] there is, to
    the gateway. *)
Lemma dispatch_selects_oldest_pending_witness :
  ∃ m,
    Store.findFirstPending "camp-1" Sample.store1 = Some m
    ∧ Message.status m = "PENDING"%string
    ∧ Message.createdAt m = 10%Z
    ∧ Dispatcher.it_issued
        (Dispatcher.iteration Sample.rejecting "camp-1" Sample.store1
           Sample.sessions1)
      = option_list
          (Gateway.issued
             (Dispatcher.send Sample.sessions1 Sample.store1 Sample.campaign1
                m (Dispatcher.net (Sample.rejecting 2)))).
Proof.
  pose proof (dispatch_selects_oldest_pending Sample.rejecting "camp-1"
                Sample.store1 Sample.sessions1 Sample.campaign1
                sample_campaign eq_refl sample_connected) as H.
  cbv zeta in H. rewrite sample_pending in H.
  destruct H as (_ & _ & Hstatus & _ & _ & Hissued).
  exists Sample.message1.
  split; [exact sample_pending|]. split; [exact Hstatus|].
  split; [reflexivity|exact Hissued].
Defined.

Lemma oldest_least (l : list Message.t) (m : Message.t) :
  Store.oldest l = Some m →
  ∀ m', m' ∈ l → (Message.createdAt m ≤ Message.createdAt m')%Z.
Proof.
  revert m. induction l as [|x l IH]; intros m; [done|]. simpl.
  destruct (Store.oldest l) as [m0|] eqn:Hold.
  - destruct (Z.leb_spec (Message.createdAt x) (Message.createdAt m0));
      intros [= <-] m' [->|Hin]%elem_of_cons; try lia.
    + specialize (IH m0 eq_refl m' Hin). lia.
    + by apply IH.
  - intros [= <-] m' [->|Hin]%elem_of_cons; [lia|].
    apply oldest_None in Hold. subst l. by apply elem_of_nil in Hin.
Qed.

(** The step [AtFind] of the loop is [Selection.select] with the
    database of the model. *)
Lemma proc_step_select o id c st ss :
  Dispatcher.proc_step o id (Dispatcher.AtFind c) st ss
  = Selection.select Store.findFirstPending id c st ss.
Proof. done. Qed.

(** The database that takes the row inserted last among equals answers
    the query as well. *)
Lemma last_inserted_earliest id st :
  Selection.earliest_pending id st (Selection.last_inserted id st).
Proof.
  unfold Selection.last_inserted.
  destruct (Store.oldest _) as [m|] eqn:Hm; simpl.
  - pose proof (oldest_elem _ _ Hm) as Hin.
    rewrite elem_of_reverse in Hin.
    apply list_elem_of_filter in Hin as [Hp Hin].
    split_and!; [done|done|]. intros m' Hin' Hp'.
    apply (oldest_least _ _ Hm). rewrite elem_of_reverse.
    by apply list_elem_of_filter.
  - apply oldest_None in Hm. intros m Hin Hp.
    assert (m ∈ reverse (filter (Store.pending_of id) (Store.messages st)))
      as Hf by (rewrite elem_of_reverse; by apply list_elem_of_filter).
    rewrite Hm in Hf. by apply elem_of_nil in Hf.
Qed.

(** C7 (counterexample): the two messages of the sample campaign were
    created by one request, [message1] before [message2], and carry the
    same [createdAt].  Each of them is an answer of the query the loop
    makes.  A database that answers every such query with a PENDING row
    of least [createdAt], and takes the row inserted last among equals,
    has the loop hand [message2] to the gateway while [message1] is
    PENDING: the query has no tie-break. *)
Lemma tie_left_to_the_database :
  Selection.earliest_pending "camp-1" Sample.store1 (Some Sample.message1)
  ∧ Selection.earliest_pending "camp-1" Sample.store1 (Some Sample.message2)
  ∧ Message.createdAt Sample.message1 = Message.createdAt Sample.message2
  ∧ Store.messages Sample.store1
    = Sample.inbound_rows ++ [Sample.message1; Sample.message2]
  ∧ Sample.message1 ≠ Sample.message2
  ∧ (∀ id st,
       Selection.earliest_pending id st (Selection.last_inserted id st))
  ∧ Dispatcher.outcome
      (Selection.select Selection.last_inserted "camp-1" Sample.campaign1
         Sample.store1 Sample.sessions1)
    = Dispatcher.Suspended
        (Dispatcher.AtSend Sample.campaign1 Sample.message2)
  ∧ (∀ o id c st ss,
       Dispatcher.proc_step o id (Dispatcher.AtFind c) st ss
       = Selection.select Store.findFirstPending id c st ss).
Proof.
  assert (Hms : Store.messages Sample.store1
                = Sample.inbound_rows ++ [Sample.message1; Sample.message2])
    by (vm_compute; reflexivity).
  assert (Hleast : ∀ m', m' ∈ Store.messages Sample.store1 →
            Store.pending_of "camp-1" m' → (10 ≤ Message.createdAt m')%Z).
  { intros m' Hin [Hc _]. rewrite Hms in Hin.
    apply elem_of_app in Hin as [Hin|Hin].
    - assert (Hrows : Forall (λ m, Message.campaignId m = None)
                               Sample.inbound_rows)
        by (vm_compute; repeat constructor).
      rewrite Forall_forall in Hrows. rewrite (Hrows m' Hin) in Hc.
      discriminate.
    - apply elem_of_cons in Hin as [->|Hin]; [simpl; lia|].
      apply list_elem_of_singleton in Hin as ->. simpl. lia. }
  split; [|split; [|split; [reflexivity|split; [exact Hms|
    split; [by intros [=]|split; [exact last_inserted_earliest|
    split; [vm_compute; reflexivity|exact proc_step_select]]]]]]].
  - split; [|split; [by split|exact Hleast]].
    rewrite Hms. apply elem_of_app. right. apply list_elem_of_here.
  - split; [|split; [by split|exact Hleast]].
    rewrite Hms. apply elem_of_app. right.
    apply list_elem_of_further, list_elem_of_here.
Qed.

(** C8 (witness): the provider rejects the first message of the sample
    campaign; its error message is what is recorded, and the loop goes
    on. *)
Lemma failed_send_is_recorded_witness :
  Gateway.settled
    (Dispatcher.send Sample.sessions1 Sample.store1 Sample.campaign1
       Sample.message1 (Dispatcher.net (Sample.rejecting 2)))
  = inl Sample.not_allowed
  ∧ Dispatcher.it_outcome
      (Dispatcher.iteration Sample.rejecting "camp-1" Sample.store1
         Sample.sessions1)
    = Some (Dispatcher.Suspended Dispatcher.AtLoad)
  ∧ Message.errorMsg
      (Message.mark_failed (Dispatcher.describe Sample.not_allowed)
         Sample.message1)
    = Some "(#131030) Recipient phone number not in allowed list"%string.
Proof.
  assert (Hfail : Gateway.settled
    (Dispatcher.send Sample.sessions1 Sample.store1 Sample.campaign1
       Sample.message1 (Dispatcher.net (Sample.rejecting 2)))
    = inl Sample.not_allowed) by (vm_compute; reflexivity).
  split; [exact Hfail|].
  destruct (failed_send_is_recorded Sample.rejecting "camp-1"
              Sample.store1 Sample.sessions1 Sample.campaign1
              sample_campaign eq_refl Sample.message1 Sample.not_allowed
              sample_connected sample_pending Hfail)
    as (Hout & _ & _ & _ & Hmark & _).
  split; [exact Hout|].
  exact (proj1 (proj2 (Hmark Sample.message1))).
Defined.

(** C9 (witness): with no session cached, the sample campaign is paused. *)
Lemma disconnected_instance_pauses_witness :
  Gateway.getStatus ∅ (Campaign.instanceId Sample.campaign1) ≠ Gateway.connected
  ∧ Dispatcher.it_outcome
      (Dispatcher.iteration Sample.rejecting "camp-1" Sample.store1 ∅)
    = Some Dispatcher.Returned.
Proof.
  assert (Hdis : Gateway.getStatus ∅ (Campaign.instanceId Sample.campaign1)
                 ≠ Gateway.connected) by (vm_compute; discriminate).
  split; [exact Hdis|].
  exact (proj1 (disconnected_instance_pauses Sample.rejecting "camp-1"
                  Sample.store1 ∅ Sample.campaign1 sample_campaign eq_refl
                  Hdis)).
Defined.

(** * Further properties of the code *)

(** ** The session cache *)

Section sessions.
Import Gateway.

Lemma getStatus_connected sessions instanceId :
  getStatus sessions instanceId = connected ↔ is_Some (sessions !! instanceId).
Proof. unfold getStatus. case_decide; naive_solver. Qed.

Lemma getStatus_disconnected sessions instanceId :
  getStatus sessions instanceId ≠ connected ↔ sessions !! instanceId = None.
Proof.
  rewrite getStatus_connected, eq_None_not_Some. done.
Qed.

(** The cache after a [getSession] that resolves. *)
Lemma getSession_inr sessions instances instanceId sessions' session :
  getSession sessions instances instanceId = (sessions', inr session) →
  sessions' !! instanceId = Some session
  ∧ ∀ id', id' ≠ instanceId → sessions' !! id' = sessions !! id'.
Proof.
  unfold getSession. intros Hget.
  destruct (sessions !! instanceId) as [s|] eqn:Hs.
  - by injection Hget as <- <-.
  - destruct (instances !! instanceId) as [row|]; [|done].
    destruct (truthy (waPhoneNumberId row) && truthy (waAccessToken row));
      [|done].
    injection Hget as <- <-. split; [apply lookup_insert_eq|].
    intros id' Hne. by apply lookup_insert_ne.
Qed.

(** A cached session is returned as it is; the table is not read. *)
Lemma getSession_cached sessions instances instanceId session :
  sessions !! instanceId = Some session →
  getSession sessions instances instanceId = (sessions, inr session).
Proof. intros Hin. unfold getSession. by rewrite Hin. Qed.

(** X1: a [getSession] that resolves leaves the session in the cache:
    the instance then counts as connected, every later [getSession] for
    it resolves with the same session whatever the Instance table holds
    by then (also with no row at all), and the cached sessions of the
    other instances are untouched. *)
Theorem getSession_caches (sessions : Sessions) (instances : Instances)
    (instanceId : string) (sessions' : Sessions)
    (session : OfficialInstanceSession) :
  getSession sessions instances instanceId = (sessions', inr session) →
  sessions' !! instanceId = Some session
  ∧ getStatus sessions' instanceId = connected
  ∧ (∀ instances' : Instances,
       getSession sessions' instances' instanceId = (sessions', inr session))
  ∧ (∀ id', id' ≠ instanceId → sessions' !! id' = sessions !! id').
Proof.
  intros [Hin Hother]%getSession_inr. split_and!; [done| | |done].
  - apply getStatus_connected. by exists session.
  - intros instances'. by apply getSession_cached.
Qed.

(** X1 (witness): the session of the sample instance, read from its row
    into an empty cache. *)
Lemma getSession_caches_witness :
  Sample.sessions1 !! "inst-1"%string = Some Sample.session1
  ∧ getStatus Sample.sessions1 "inst-1" = connected
  ∧ (∀ instances' : Instances,
       getSession Sample.sessions1 instances' "inst-1"
       = (Sample.sessions1, inr Sample.session1))
  ∧ (∀ id', id' ≠ "inst-1"%string →
       Sample.sessions1 !! id' = (∅ : Sessions) !! id').
Proof.
  apply (getSession_caches ∅ {[ "inst-1"%string := Sample.instance1 ]}).
  reflexivity.
Defined.

(** Anything [getSession] throws is the "not configured" error, and the
    cache is then as it was. *)
Lemma getSession_inl sessions instances instanceId sessions' e :
  getSession sessions instances instanceId = (sessions', inl e) →
  sessions' = sessions ∧ e = notConfigured instanceId.
Proof.
  unfold getSession. repeat case_match; by intros [= <- <-].
Qed.

(** X2: [getSession] throws exactly when no session is cached for the
    instance and its row is missing or has no phone-number id or no
    access token (an empty string counts as none); what it throws is the
    "not configured" error, and the cache is left as it was. *)
Theorem getSession_throws (sessions : Sessions) (instances : Instances)
    (instanceId : string) :
  ((∃ sessions' e,
      getSession sessions instances instanceId = (sessions', inl e))
   ↔ sessions !! instanceId = None
     ∧ ∀ row, instances !! instanceId = Some row →
         truthy (waPhoneNumberId row) = false
         ∨ truthy (waAccessToken row) = false)
  ∧ ∀ sessions' e,
      getSession sessions instances instanceId = (sessions', inl e) →
      sessions' = sessions ∧ e = notConfigured instanceId.
Proof.
  split; [|apply getSession_inl].
  unfold getSession.
  destruct (sessions !! instanceId) as [s|];
    [split; [by intros (? & ? & ?)|by intros [? _]]|].
  destruct (instances !! instanceId) as [row|]; [|split; [done|by eexists _, _]].
  destruct (truthy (waPhoneNumberId row)) eqn:H1,
    (truthy (waAccessToken row)) eqn:H2;
    simpl; split;
    try (by intros (? & ? & ?));
    try (intros _; split; [done|]; intros ? [= <-]; auto);
    try (intros _; by eexists _, _).
  intros [_ H]. destruct (H row eq_refl); congruence.
Qed.

Lemma getSession_mono sessions instances instanceId id' x :
  sessions !! id' = Some x →
  (getSession sessions instances instanceId).1 !! id' = Some x.
Proof.
  intros Hx. unfold getSession. repeat case_match; simpl; try done.
  destruct (decide (instanceId = id')) as [->|Hne]; [congruence|].
  by rewrite lookup_insert_ne.
Qed.

Lemma getSession_other sessions instances instanceId id' :
  id' ≠ instanceId →
  (getSession sessions instances instanceId).1 !! id' = sessions !! id'.
Proof.
  intros Hne. unfold getSession. repeat case_match; simpl; try done.
  by rewrite lookup_insert_ne.
Qed.

End sessions.

(** ** Connecting and disconnecting *)

Section manager.
Import Manager.

Lemma instance_update_Some id data s s' :
  instance_update id data s = Some s' →
  ∃ i, instances s !! id = Some i
       ∧ instances s' = <[id := data i]> (instances s)
       ∧ sessions s' = sessions s ∧ emitted s' = emitted s
       ∧ fetched s' = fetched s.
Proof.
  unfold instance_update. destruct (instances s !! id) as [i|]; [|done].
  intros [= <-]. by exists i.
Qed.

Lemma instance_update_None id data s :
  instance_update id data s = None → instances s !! id = None.
Proof. unfold instance_update. by destruct (instances s !! id). Qed.

(** What the [try] block of [connect] does, case by case. *)
Lemma connect_try_cases net id s :
  let ss := (Gateway.getSession (sessions s) (row <$> instances s) id).1 in
  match (connect_try net id s).2 with
  | inr waNumber =>
    ∃ session i info,
      Gateway.getSession (sessions s) (row <$> instances s) id
      = (ss, inr session)
      ∧ instances s !! id = Some i
      ∧ waNumber = display_phone_number info
      ∧ (connect_try net id s).1
        = {| sessions := ss;
             instances := <[id := verified info i]> (instances s);
             emitted := ("ready", id) :: emitted s;
             fetched :=
               {| get_url := "https://graph.facebook.com/v19.0/"
                             +:+ Gateway.phoneNumberId session;
                  get_authorization :=
                    "Bearer " +:+ Gateway.accessToken session |}
               :: fetched s |}
  | inl e =>
    sessions (connect_try net id s).1 = ss
    ∧ instances (connect_try net id s).1 = instances s
    ∧ emitted (connect_try net id s).1 = emitted s
    ∧ length (fetched (connect_try net id s).1) ≤ S (length (fetched s))
  end.
Proof.
  intros ss. subst ss. unfold connect_try.
  destruct (Gateway.getSession (sessions s) (row <$> instances s) id)
    as [ss [e|session]] eqn:Hget; cbn [fst snd].
  { cbn [with_sessions sessions instances emitted fetched]. auto with lia. }
  unfold apiRequest. cbn [with_sessions sessions instances emitted fetched].
  apply getSession_inr in Hget as Hc.
  destruct Hc as [Hin _]. rewrite (getSession_cached _ _ _ _ Hin).
  assert (Hfail : ∀ e : Thrown,
    let r : State * (Thrown + Field) :=
      ({| sessions := ss; instances := instances s; emitted := emitted s;
          fetched :=
            {| get_url := "https://graph.facebook.com/v19.0/"
                          +:+ Gateway.phoneNumberId session;
               get_authorization := "Bearer " +:+ Gateway.accessToken session |}
            :: fetched s |}, inl e) in
    sessions r.1 = ss ∧ instances r.1 = instances s ∧ emitted r.1 = emitted s
    ∧ length (fetched r.1) ≤ S (length (fetched s))).
  { intros e. simpl. auto with lia. }
  destruct net as [e|ok statusText error_message info]; [apply Hfail|].
  destruct ok; [|apply Hfail].
  unfold instance_update. cbn [instances].
  destruct (instances s !! id) as [i|] eqn:Hi; [|apply Hfail].
  cbn [fst snd emit sessions instances emitted fetched].
  by exists session, i, info.
Qed.

(** [connect] touches the row and the session of its instance only. *)
Lemma connect_other net id s id' :
  id' ≠ id →
  instances (connect net id s).1 !! id' = instances s !! id'
  ∧ sessions (connect net id s).1 !! id' = sessions s !! id'.
Proof.
  intros Hne. unfold connect.
  pose proof (connect_try_cases net id s) as Htry. cbv zeta in Htry.
  destruct (connect_try net id s) as [s1 [e|waNumber]];
    cbn [fst snd] in Htry.
  - destruct Htry as (Hss & Hinst & _).
    destruct (instance_update id (set_status "DISCONNECTED") s1)
      as [s2|] eqn:Hup; cbn [fst snd].
    + apply instance_update_Some in Hup as (i & Hi & Hi2 & Hs2 & _).
      rewrite Hi2, Hs2, Hss, Hinst. rewrite lookup_insert_ne by done.
      split; [done|]. by apply getSession_other.
    + rewrite Hss, Hinst. split; [done|]. by apply getSession_other.
  - destruct Htry as (session & i & info & Hget & Hi & _ & ->).
    cbn [fst snd sessions instances]. rewrite lookup_insert_ne by done.
    split; [done|]. by apply getSession_other.
Qed.

(** A [try] block that resolves has had the provider's answer with
    [response.ok], and the row it wrote was made from that answer. *)
Lemma connect_try_inr net id s waNumber :
  (connect_try net id s).2 = inr waNumber →
  ∃ statusText error_message info,
    net = Answers true statusText error_message info
    ∧ waNumber = display_phone_number info
    ∧ ∀ i, instances s !! id = Some i →
           instances (connect_try net id s).1 !! id = Some (verified info i).
Proof.
  unfold connect_try.
  destruct (Gateway.getSession (sessions s) (row <$> instances s) id)
    as [ss [e|session]] eqn:Hget; cbn [fst snd]; [done|].
  unfold apiRequest. cbn [with_sessions sessions instances emitted fetched].
  apply getSession_inr in Hget as [Hin _].
  rewrite (getSession_cached _ _ _ _ Hin).
  destruct net as [e|ok statusText error_message info]; [done|].
  destruct ok; [|done].
  unfold instance_update. cbn [instances].
  destruct (instances s !! id) as [i|] eqn:Hi; [|done].
  cbn [fst snd emit sessions instances emitted fetched].
  intros [= <-]. exists statusText, error_message, info.
  split_and!; [done|done|]. intros i' [= <-]. apply lookup_insert_eq.
Qed.

(** X3: what [connect] leaves behind.  It resolves only when the
    provider has answered the request with [response.ok]; the row of
    the instance then has status CONNECTED, the number and the name of
    that answer (a string is stored, [null] clears the column, a member
    the answer lacks leaves the column as it was) and its credentials
    as before; one ['ready'] event is emitted, the instance counts as
    connected and the number of the answer is returned.  When it
    rejects, nothing is emitted and the row, if there is one, has
    status DISCONNECTED and is otherwise as it was.  Either way no
    other instance's row or session is touched, no cached session is
    dropped, and at most one request is made. *)
Theorem connect_outcome (net : Verification) (instanceId : string)
    (s : State) :
  let s' := (connect net instanceId s).1 in
  match (connect net instanceId s).2 with
  | inr waNumber =>
    (∃ statusText error_message info i i',
       net = Answers true statusText error_message info
       ∧ waNumber = display_phone_number info
       ∧ instances s !! instanceId = Some i
       ∧ instances s' !! instanceId = Some i'
       ∧ status i' = "CONNECTED"%string
       ∧ Gateway.waNumber (row i')
         = match display_phone_number info with
           | Str number => Some number
           | Null => None
           | Undefined => Gateway.waNumber (row i)
           end
       ∧ waName i'
         = match verified_name info with
           | Str name => Some name
           | Null => None
           | Undefined => waName i
           end
       ∧ Gateway.waPhoneNumberId (row i') = Gateway.waPhoneNumberId (row i)
       ∧ Gateway.waAccessToken (row i') = Gateway.waAccessToken (row i)
       ∧ Gateway.waBusinessAccountId (row i')
         = Gateway.waBusinessAccountId (row i))
    ∧ emitted s' = ("ready"%string, instanceId) :: emitted s
    ∧ Gateway.getStatus (sessions s') instanceId = Gateway.connected
  | inl e =>
    emitted s' = emitted s
    ∧ (∀ i', instances s' !! instanceId = Some i' →
         status i' = "DISCONNECTED"%string
         ∧ ∃ i, instances s !! instanceId = Some i
                ∧ row i' = row i ∧ waName i' = waName i)
  end
  ∧ (∀ id', id' ≠ instanceId →
       instances s' !! id' = instances s !! id'
       ∧ sessions s' !! id' = sessions s !! id')
  ∧ (∀ id' x, sessions s !! id' = Some x → sessions s' !! id' = Some x)
  ∧ length (fetched s') ≤ S (length (fetched s)).
Proof.
  intros s'. subst s'. unfold connect.
  pose proof (connect_try_cases net instanceId s) as Htry. cbv zeta in Htry.
  pose proof (connect_try_inr net instanceId s) as Hanswer.
  destruct (connect_try net instanceId s) as [s1 [e|waNumber]];
    cbn [fst snd] in Htry, Hanswer.
  - destruct Htry as (Hss & Hinst & Hem & Hf).
    assert (Hother : ∀ id', id' ≠ instanceId →
              sessions s1 !! id' = sessions s !! id').
    { intros id' Hne. rewrite Hss. by apply getSession_other. }
    assert (Hmono : ∀ id' x, sessions s !! id' = Some x →
              sessions s1 !! id' = Some x).
    { intros id' x Hx. rewrite Hss. by apply getSession_mono. }
    destruct (instance_update instanceId (set_status "DISCONNECTED") s1)
      as [s2|] eqn:Hup; cbn [fst snd].
    + apply instance_update_Some in Hup as (i & Hi & Hi2 & Hs2 & He2 & Hf2).
      rewrite Hi2, Hs2, He2, Hf2, Hinst in *.
      split_and!; try done.
      * intros i'. rewrite lookup_insert_eq. intros [= <-].
        split; [done|]. by exists i.
      * intros id' Hne. rewrite lookup_insert_ne by done. auto.
    + apply instance_update_None in Hup. rewrite Hinst in *.
      split_and!; try done; [by intros i; rewrite Hup|].
      intros id' Hne. auto.
  - destruct Htry as (session & i & info0 & Hget & Hi & _ & Hs1).
    destruct (Hanswer waNumber eq_refl)
      as (statusText & error_message & info & -> & -> & Hrow).
    specialize (Hrow i Hi). rewrite Hs1 in Hrow |- *.
    cbn [fst snd sessions instances emitted fetched] in Hrow |- *.
    pose proof Hget as Hget'.
    apply getSession_inr in Hget' as (Hin & Hother).
    pose proof (proj2 (getStatus_connected _ _) (ex_intro _ session Hin))
      as Hconn.
    split_and!; try done.
    + rewrite lookup_insert_eq in Hrow. apply (inj Some) in Hrow.
      exists statusText, error_message, info, i, (verified info i).
      split; [done|]. split; [done|]. split; [done|].
      split; [by rewrite <-Hrow, lookup_insert_eq|].
      split; [done|]. unfold verified. simpl.
      split; [by destruct (display_phone_number info)|].
      split; [by destruct (verified_name info)|]. done.
    + intros id' Hne. rewrite lookup_insert_ne by done. auto.
    + intros id' x Hx.
      pose proof (getSession_mono (sessions s) (row <$> instances s)
                    instanceId id' x Hx) as Hm.
      by rewrite Hget in Hm.
Qed.

(** X4: a verification that fails does not take the instance out of the
    session cache.  When the credentials are cached or configured, the
    row exists and [connect] rejects, the row says DISCONNECTED while
    [getStatus] says ['connected'], so the start handler still accepts a
    PENDING campaign of the instance. *)
Theorem failed_connect_stays_connected (net : Verification)
    (instanceId : string) (s : State)
    (session : Gateway.OfficialInstanceSession) (e : Thrown) :
  is_Some (instances s !! instanceId) →
  (Gateway.getSession (sessions s) (row <$> instances s) instanceId).2
    = inr session →
  (connect net instanceId s).2 = inl e →
  let s' := (connect net instanceId s).1 in
  (∃ i, instances s' !! instanceId = Some i
        ∧ status i = "DISCONNECTED"%string)
  ∧ sessions s' !! instanceId = Some session
  ∧ Gateway.getStatus (sessions s') instanceId = Gateway.connected
  ∧ ∀ campaign : Campaign.t,
      Campaign.instanceId campaign = instanceId →
      Campaign.status campaign = CampaignStatus.PENDING →
      Dispatcher.start_check (sessions s') (Some campaign) = None.
Proof.
  intros [i Hi] Hget Hrej s'. subst s'. unfold connect in *.
  pose proof (connect_try_cases net instanceId s) as Htry. cbv zeta in Htry.
  destruct (connect_try net instanceId s) as [s1 [e1|waNumber]];
    cbn [fst snd] in Htry; [|by destruct Htry as (? & ? & ? & ? & ? & ? & ?)].
  destruct Htry as (Hss & Hinst & Hem & Hf).
  unfold instance_update in *. rewrite Hinst, Hi in *.
  cbn [fst snd sessions instances] in *.
  destruct (Gateway.getSession (sessions s) (row <$> instances s) instanceId)
    as [ss r] eqn:Hg. cbn [fst snd] in *. subst r ss.
  apply getSession_inr in Hg as (Hin & _).
  pose proof (proj2 (getStatus_connected _ _) (ex_intro _ session Hin))
    as Hconn.
  split_and!; try done.
  - eexists. by rewrite lookup_insert_eq.
  - intros campaign <- Hp. unfold Dispatcher.start_check.
    rewrite Hp, Hconn. by rewrite !decide_False by (by intros []).
Qed.

(** X4 (witness): the provider turns the token of the sample instance
    down. *)
Lemma failed_connect_stays_connected_witness :
  let s' := (connect SampleGateway.token_expired "inst-1"
               SampleGateway.manager1).1 in
  (∃ i, instances s' !! "inst-1"%string = Some i
        ∧ status i = "DISCONNECTED"%string)
  ∧ Gateway.getStatus (sessions s') "inst-1" = Gateway.connected.
Proof.
  destruct (failed_connect_stays_connected SampleGateway.token_expired
              "inst-1" SampleGateway.manager1 Sample.session1
              (ErrorObj "Error validating access token: Session has expired"))
    as (Hrow & _ & Hstatus & _).
  - eexists. vm_compute. reflexivity.
  - vm_compute. reflexivity.
  - vm_compute. reflexivity.
  - exact (conj Hrow Hstatus).
Defined.

(** X5: [disconnect] (and so [logout] and [deleteInstance]) removes the
    cached session before it writes the row, so the instance counts as
    disconnected right afterwards, even when the row is missing and the
    call rejects; no other session changes.  An iteration of a RUNNING
    campaign of that instance that begins with the cache in this state
    sets the campaign PAUSED and returns without sending.  The
    credentials stay in the row, though: the next [getSession] for the
    instance, such as the one of a send that was under way, caches the
    session again, and the instance counts as connected again. *)
Theorem disconnect_pauses_campaign (os : nat → Dispatcher.Oracle)
    (id : string) (st : Store.t) (c : Campaign.t) (s : State) :
  Store.campaigns st !! id = Some c →
  Campaign.status c = CampaignStatus.RUNNING →
  let s' := (disconnect (Campaign.instanceId c) s).1 in
  Gateway.getStatus (sessions s') (Campaign.instanceId c)
    = Gateway.disconnected
  ∧ (∀ id', id' ≠ Campaign.instanceId c →
       sessions s' !! id' = sessions s !! id')
  ∧ ((disconnect (Campaign.instanceId c) s).2 = inl Store.recordNotFound
     ↔ instances s !! Campaign.instanceId c = None)
  ∧ (logout (Campaign.instanceId c) s = disconnect (Campaign.instanceId c) s
     ∧ deleteInstance (Campaign.instanceId c) s
       = disconnect (Campaign.instanceId c) s)
  ∧ (let it := Dispatcher.iteration os id st (sessions s') in
     Dispatcher.it_outcome it = Some Dispatcher.Returned
     ∧ (∃ c', Store.campaigns (Dispatcher.it_store it) = <[id := c']> (Store.campaigns st)
              ∧ Campaign.status c' = CampaignStatus.PAUSED
              ∧ Campaign.sentMessages c' = Campaign.sentMessages c
              ∧ Campaign.failedMessages c' = Campaign.failedMessages c
              ∧ Campaign.totalMessages c' = Campaign.totalMessages c)
     ∧ Store.messages (Dispatcher.it_store it) = Store.messages st
     ∧ Dispatcher.it_issued it = [])
  ∧ (∀ i, instances s !! Campaign.instanceId c = Some i →
       (∃ i', instances s' !! Campaign.instanceId c = Some i'
              ∧ status i' = "DISCONNECTED"%string ∧ row i' = row i)
       ∧ (truthy (Gateway.waPhoneNumberId (row i)) = true →
          truthy (Gateway.waAccessToken (row i)) = true →
          Gateway.getStatus
            (Gateway.getSession (sessions s') (row <$> instances s')
               (Campaign.instanceId c)).1
            (Campaign.instanceId c)
          = Gateway.connected)).
Proof.
  intros Hc Hrunning s'.
  assert (Hss : sessions s' = delete (Campaign.instanceId c) (sessions s)).
  { subst s'. unfold disconnect, instance_update.
    cbn [with_sessions instances].
    by destruct (instances s !! Campaign.instanceId c). }
  assert (Hnone : sessions s' !! Campaign.instanceId c = None)
    by (rewrite Hss; apply lookup_delete_eq).
  split_and!.
  - unfold Gateway.getStatus. rewrite Hnone.
    by rewrite decide_False by (by intros []).
  - intros id' Hne. rewrite Hss. by apply lookup_delete_ne.
  - unfold disconnect, instance_update. cbn [with_sessions instances].
    by destruct (instances s !! Campaign.instanceId c).
  - done.
  - done.
  - assert (Hdis : Gateway.getStatus (sessions s') (Campaign.instanceId c)
                   ≠ Gateway.connected)
      by (by apply getStatus_disconnected).
    cbv zeta. unfold Dispatcher.iteration.
    rewrite (run_quiet_next _ _ _ _ _ _ _ _ _ _
               (proc_step_load_disconnected _ _ _ _ Hc Hrunning (os 0) Hdis))
      by done.
    rewrite (run_quiet_last _ _ _ _ _ _ _ _ _ Dispatcher.Returned
               (proc_step_campaign_update id st (sessions s') c Hc (os 1)
                  Dispatcher.AtPause
                  (Campaign.set_status CampaignStatus.PAUSED)
                  Dispatcher.Returned (λ _, eq_refl)))
      by (left; set_solver).
    split_and!; try done. by eexists.
  - intros i Hi.
    assert (Hrow : instances s' !! Campaign.instanceId c
                   = Some (set_status "DISCONNECTED" i)).
    { subst s'. unfold disconnect, instance_update.
      cbn [with_sessions instances]. rewrite Hi.
      cbn [fst emit instances]. apply lookup_insert_eq. }
    split; [by eexists|]. intros Hid Htoken.
    apply getStatus_connected. unfold Gateway.getSession.
    rewrite Hnone, lookup_fmap, Hrow. cbn [fmap option_fmap option_map
      set_status row]. rewrite Hid, Htoken. cbn [andb fst].
    rewrite lookup_insert_eq. by eexists.
Qed.

(** X5 (witness): the sample instance is disconnected while its campaign
    is running; its row still has the credentials. *)
Lemma disconnect_pauses_campaign_witness :
  let s' := (disconnect "inst-1" SampleGateway.manager1).1 in
  Gateway.getStatus (sessions s') "inst-1" = Gateway.disconnected
  ∧ Dispatcher.it_outcome
      (Dispatcher.iteration Sample.rejecting "camp-1" Sample.store1
         (sessions s'))
    = Some Dispatcher.Returned
  ∧ Gateway.getStatus
      (Gateway.getSession (sessions s') (row <$> instances s') "inst-1").1
      "inst-1"
    = Gateway.connected.
Proof.
  destruct (disconnect_pauses_campaign Sample.rejecting "camp-1"
              Sample.store1 Sample.campaign1 SampleGateway.manager1)
    as (Hstatus & _ & _ & _ & Hit & Hagain).
  - vm_compute. reflexivity.
  - reflexivity.
  - split; [exact Hstatus|]. split; [exact (proj1 Hit)|].
    refine (proj2 (Hagain _ _) _ _); vm_compute; reflexivity.
Defined.

Lemma getSession_agree ss1 ss2 (inst1 inst2 : Gateway.Instances) id :
  ss1 !! id = ss2 !! id → inst1 !! id = inst2 !! id →
  (Gateway.getSession ss1 inst1 id).2 = (Gateway.getSession ss2 inst2 id).2
  ∧ (Gateway.getSession ss1 inst1 id).1 !! id
    = (Gateway.getSession ss2 inst2 id).1 !! id.
Proof.
  intros Hs Hi. unfold Gateway.getSession. rewrite <-Hs, <-Hi.
  destruct (ss1 !! id) as [x|] eqn:Hx; simpl; [by rewrite <-Hs|].
  destruct (inst1 !! id) as [r|]; simpl; [|by rewrite <-Hs].
  case_match; simpl; [|by rewrite <-Hs].
  by rewrite !lookup_insert_eq.
Qed.

Lemma connect_at net id s :
  let g := Gateway.getSession (sessions s) (row <$> instances s) id in
  sessions (connect net id s).1 !! id = g.1 !! id
  ∧ instances (connect net id s).1 !! id
    = (λ i, match g.2, net with
            | inr _, Answers true _ _ info => verified info i
            | _, _ => set_status "DISCONNECTED" i
            end) <$> instances s !! id.
Proof.
  intros g. subst g. unfold connect, connect_try.
  destruct (Gateway.getSession (sessions s) (row <$> instances s) id)
    as [ss [e|session]] eqn:Hget; cbn [fst snd].
  - unfold instance_update. cbn [with_sessions instances sessions].
    destruct (instances s !! id) eqn:Hi; simpl;
      by rewrite ?lookup_insert_eq, ?Hi.
  - unfold apiRequest. cbn [with_sessions instances sessions emitted fetched].
    apply getSession_inr in Hget as (Hin & _).
    rewrite (getSession_cached _ _ _ _ Hin).
    destruct net as [e|ok statusText error_message info]; [|destruct ok];
      unfold instance_update; cbn [instances sessions emitted fetched];
      destruct (instances s !! id) eqn:Hi; simpl;
      by rewrite ?lookup_insert_eq, ?Hi.
Qed.

Lemma connect_agree net id s1 s2 :
  sessions s1 !! id = sessions s2 !! id →
  instances s1 !! id = instances s2 !! id →
  instances (connect net id s1).1 !! id = instances (connect net id s2).1 !! id
  ∧ sessions (connect net id s1).1 !! id = sessions (connect net id s2).1 !! id.
Proof.
  intros Hs Hi.
  assert (Hrow : (row <$> instances s1) !! id = (row <$> instances s2) !! id)
    by (by rewrite !lookup_fmap, Hi).
  destruct (getSession_agree _ _ _ _ id Hs Hrow) as [Hr Hl].
  destruct (connect_at net id s1) as [-> ->].
  destruct (connect_at net id s2) as [-> ->].
  by rewrite Hr, Hl, Hi.
Qed.

Lemma reconnect_other net ids s id :
  id ∉ ids →
  instances (reconnect net ids s) !! id = instances s !! id
  ∧ sessions (reconnect net ids s) !! id = sessions s !! id.
Proof.
  revert s. induction ids as [|id' ids IH]; intros s Hnin; [done|].
  apply not_elem_of_cons in Hnin as [Hne Hnin]. simpl.
  destruct (IH (connect (net id') id' s).1 Hnin) as [-> ->].
  by apply connect_other.
Qed.

Lemma reconnect_elem net ids s id :
  NoDup ids → id ∈ ids →
  instances (reconnect net ids s) !! id
    = instances (connect (net id) id s).1 !! id
  ∧ sessions (reconnect net ids s) !! id
    = sessions (connect (net id) id s).1 !! id.
Proof.
  revert s. induction ids as [|id' ids IH]; intros s Hnd Hin;
    [by apply elem_of_nil in Hin|].
  apply NoDup_cons in Hnd as [Hnin Hnd]. simpl.
  apply elem_of_cons in Hin as [->|Hin].
  - by apply reconnect_other.
  - destruct (IH (connect (net id') id' s).1 Hnd Hin) as [-> ->].
    assert (id ≠ id') as Hne by (intros ->; done).
    destruct (connect_other (net id') id' s id Hne) as [Hi Hs].
    by apply connect_agree.
Qed.

Lemma elem_of_connected_ids s id :
  id ∈ connected_ids s
  ↔ ∃ i, instances s !! id = Some i ∧ status i = "CONNECTED"%string.
Proof.
  unfold connected_ids. rewrite list_elem_of_fmap. split.
  - intros ([id' i] & -> & Hin). apply list_elem_of_filter in Hin as [Hst Hin].
    apply elem_of_map_to_list in Hin. by exists i.
  - intros (i & Hi & Hst). exists (id, i). split; [done|].
    apply list_elem_of_filter. split; [done|]. by apply elem_of_map_to_list.
Qed.

Lemma NoDup_connected_ids s : NoDup (connected_ids s).
Proof.
  unfold connected_ids.
  eapply sublist_NoDup; [apply (NoDup_fst_map_to_list (instances s))|].
  apply fmap_sublist, sublist_filter.
Qed.

(** X6: [reconnectAll] does to every instance whose row says CONNECTED
    what [connect] alone would do to it (its row ends CONNECTED or
    DISCONNECTED by its own verification, whatever happens to the
    others and in whatever order the rows are read), and leaves the row
    and the session of every other instance as they were. *)
Theorem reconnectAll_per_instance (net : string → Verification) (s : State)
    (id : string) :
  let s' := reconnectAll net s in
  if decide (id ∈ connected_ids s) then
    (∃ i, instances s !! id = Some i ∧ status i = "CONNECTED"%string)
    ∧ instances s' !! id = instances (connect (net id) id s).1 !! id
    ∧ sessions s' !! id = sessions (connect (net id) id s).1 !! id
  else
    (∀ i, instances s !! id = Some i → status i ≠ "CONNECTED"%string)
    ∧ instances s' !! id = instances s !! id
    ∧ sessions s' !! id = sessions s !! id.
Proof.
  intros s'. subst s'. unfold reconnectAll. case_decide as Hin.
  - split; [by apply elem_of_connected_ids|].
    apply reconnect_elem; [apply NoDup_connected_ids|done].
  - split; [|by apply reconnect_other].
    intros i Hi Hst. apply Hin, elem_of_connected_ids. by exists i.
Qed.

End manager.

(** ** Message bodies *)

Section strings.

Lemma toLowerCase_app (a b : string) :
  toLowerCase (a +:+ b) = (toLowerCase a +:+ toLowerCase b)%string.
Proof. induction a as [|c a IH]; simpl; [done|by rewrite IH]. Qed.

Lemma length_app_string (a b : string) :
  String.length (a +:+ b) = String.length a + String.length b.
Proof. induction a as [|c a IH]; simpl; [done|by rewrite IH]. Qed.

Lemma eqb_length_ne (a b : string) :
  String.length a ≠ String.length b → String.eqb a b = false.
Proof.
  intros Hne. apply String.eqb_neq. intros ->. done.
Qed.

Lemma endsWith_refl (s : string) : endsWith s s = true.
Proof.
  unfold endsWith. destruct s; simpl; [done|].
  by rewrite Ascii.eqb_refl, String.eqb_refl.
Qed.

Lemma endsWith_from_cons (c : Ascii.ascii) (r suffix : string) :
  endsWith_from (String c r) suffix
  = if String.eqb (String c r) suffix then true else endsWith_from r suffix.
Proof. done. Qed.

(** Whether a string ends with a suffix that is no longer than its own
    tail [x] is decided by [x]. *)
Lemma endsWith_app (a x y : string) :
  String.length y ≤ String.length x →
  endsWith (a +:+ x) y = endsWith x y.
Proof.
  intros Hlen. induction a as [|c a IH]; [done|].
  unfold endsWith in *.
  change (String c a +:+ x) with (String c (a +:+ x)).
  rewrite endsWith_from_cons, eqb_length_ne; [done|].
  cbn [String.length]. rewrite length_app_string. lia.
Qed.

End strings.

Section media.
Import Gateway Outbound.

(** X7: the media type [sendMedia] derives from the address when the
    caller names none goes by the extension at the very end of the URL,
    in any letter case: [.mp4] is a video, [.mp3] and [.ogg] audio,
    [.pdf], [.doc] and [.docx] a document, [.webp] a sticker.  Whatever
    precedes the extension plays no part. *)
Theorem mediaTypeOf_by_extension (stem ext type : string) :
  (toLowerCase ext, type)
    ∈ [ (".mp4", "video"); (".mp3", "audio"); (".ogg", "audio");
        (".pdf", "document"); (".doc", "document"); (".docx", "document");
        (".webp", "sticker") ]%string →
  mediaTypeOf (stem +:+ ext) = type.
Proof.
  intros Hin. unfold mediaTypeOf. cbv zeta. rewrite toLowerCase_app.
  repeat (apply elem_of_cons in Hin as [[= -> ->]|Hin];
          [rewrite !endsWith_app by (simpl; lia); reflexivity|]).
  by apply elem_of_nil in Hin.
Qed.

(** X7 (witness): an upper-case extension. *)
Lemma mediaTypeOf_by_extension_witness :
  mediaTypeOf ("https://cdn.example.com/offers/Spring" +:+ ".MP4")
  = "video"%string.
Proof.
  apply (mediaTypeOf_by_extension _ ".MP4" "video").
  vm_compute. set_solver.
Defined.

Lemma mediaTypeOf_cases (mediaUrl : string) :
  mediaTypeOf mediaUrl
    ∈ ["video"; "audio"; "document"; "sticker"; "image"]%string.
Proof.
  unfold mediaTypeOf. cbv zeta. repeat case_match; set_solver.
Qed.

(** X8: the body [sendMedia] builds.  The member named after the type
    holds the media object, whose [link] is the URL; the object has a
    [caption] exactly when the caller gave a non-empty one and the type
    is neither audio nor sticker, and a [filename] exactly when the
    caller gave a non-empty one and the type is document.  A type the
    caller names wins over the extension; a type derived from the
    extension is one of the five media types, and then (as for every
    type that is not the name of another member) the body still has its
    [to], [type], [messaging_product] and [recipient_type].  The one
    type for which the body gets no media member is [__proto__]: the
    assignment sets the prototype, and the body sent has the four other
    members only. *)
Theorem sendMedia_body_members (to mediaUrl : string) (o : MediaOptions) :
  let type := media_type mediaUrl o in
  let body := sendMedia_body to mediaUrl o in
  let media := mediaObject mediaUrl o in
  (type ≠ "__proto__"%string → body !! type = Some (JObject media))
  ∧ (type = "__proto__"%string →
     body !! type = None
     ∧ ∀ key, is_Some (body !! key)
              ↔ key ∈ ["messaging_product"; "recipient_type"; "to";
                       "type"]%string)
  ∧ media !! "link"%string = Some mediaUrl
  ∧ (media !! "caption"%string
     = if truthy (caption o) && negb (bool_decide (type ∈ ["audio"; "sticker"]%string))
       then caption o else None)
  ∧ (media !! "filename"%string
     = if truthy (Outbound.filename o) && bool_decide (type = "document"%string)
       then Outbound.filename o else None)
  ∧ (truthy (Outbound.type o) = true → Some type = Outbound.type o)
  ∧ (truthy (Outbound.type o) = false →
     type = mediaTypeOf mediaUrl
     ∧ type ∈ ["video"; "audio"; "document"; "sticker"; "image"]%string)
  ∧ (type ∉ ["messaging_product"; "recipient_type"; "to"; "type"]%string →
     body !! "messaging_product"%string = Some (JString "whatsapp")
     ∧ body !! "recipient_type"%string = Some (JString "individual")
     ∧ body !! "to"%string = Some (JString to)
     ∧ body !! "type"%string = Some (JString type)).
Proof.
  intros type body media. subst body media. unfold sendMedia_body. cbv zeta.
  fold type.
  assert (Hor : ∀ x : option string, truthy x = true → Some (or_else x "") = x).
  { intros [x|]; [|done]. simpl. by destruct (String.eqb x ""). }
  assert (Hcap : (truthy (caption o) && negb (String.eqb type "audio")
                  && negb (String.eqb type "sticker"))%bool
                 = truthy (caption o)
                   && negb (bool_decide (type ∈ ["audio"; "sticker"]%string))).
  { rewrite <-andb_assoc. f_equal.
    destruct (String.eqb type "audio") eqn:Ha.
    { apply String.eqb_eq in Ha as ->. done. }
    destruct (String.eqb type "sticker") eqn:Hs.
    { apply String.eqb_eq in Hs as ->. done. }
    apply String.eqb_neq in Ha, Hs.
    rewrite bool_decide_false; [done|].
    rewrite !elem_of_cons, elem_of_nil. tauto. }
  assert (Hdoc : String.eqb type "document"
                 = bool_decide (type = "document"%string)).
  { destruct (String.eqb type "document") eqn:Hd.
    - apply String.eqb_eq in Hd. by rewrite bool_decide_true by done.
    - apply String.eqb_neq in Hd. by rewrite bool_decide_false by done. }
  split_and!.
  - intros Hne. rewrite (proj2 (String.eqb_neq _ _) Hne).
    apply lookup_insert_eq.
  - intros Heq. rewrite Heq, String.eqb_refl. split; [done|].
    intros key. rewrite !elem_of_cons, elem_of_nil. split.
    + intros [x Hx].
      destruct (decide (key = "messaging_product"%string)); [tauto|].
      destruct (decide (key = "recipient_type"%string)); [tauto|].
      destruct (decide (key = "to"%string)); [tauto|].
      destruct (decide (key = "type"%string)); [tauto|].
      rewrite !lookup_insert_ne, lookup_singleton_ne in Hx by done. done.
    + intros [->|[->|[->|[->|[]]]]]; by eexists.
  - unfold mediaObject. cbv zeta. by repeat case_match.
  - unfold mediaObject. cbv zeta. fold type. rewrite Hcap. clear Hcap.
    destruct (truthy (caption o) && negb (bool_decide _)) eqn:Hc;
      destruct (truthy (Outbound.filename o) && (type =? "document")%string);
      rewrite ?(lookup_insert_ne _ "filename"%string) by done;
      rewrite ?lookup_insert_eq, ?lookup_singleton_ne by done; try done;
      apply andb_true_iff in Hc as [Hc _]; by apply Hor.
  - unfold mediaObject. cbv zeta. fold type. rewrite Hdoc. clear Hdoc.
    destruct (truthy (caption o) && negb (type =? "audio")%string
              && negb (type =? "sticker")%string);
      destruct (truthy (Outbound.filename o) && bool_decide _) eqn:Hf;
      rewrite ?lookup_insert_eq; 
      rewrite ?(lookup_insert_ne _ "caption"%string) by done;
      rewrite ?lookup_singleton_ne by done; try done;
      apply andb_true_iff in Hf as [Hf _]; by apply Hor.
  - subst type. unfold media_type. intros Ht. rewrite Ht. by apply Hor.
  - subst type. unfold media_type. intros ->. split; [done|].
    apply mediaTypeOf_cases.
  - intros Hnin. destruct (String.eqb type "__proto__"); [done|].
    rewrite !(lookup_insert_ne _ type)
      by (intros Heq; apply Hnin; rewrite Heq;
          rewrite !elem_of_cons; tauto).
    done.
Qed.

End media.

Section polls.
Import Outbound.

Lemma length_prefix (n : nat) (s : string) :
  String.length (prefix n s) = n `min` String.length s.
Proof.
  unfold prefix. revert s. induction n as [|n IH]; intros s.
  - by destruct s.
  - destruct s as [|c s]; simpl; [done|]. by rewrite IH.
Qed.

Lemma NoDup_numbered (tag : string) (n : nat) :
  NoDup ((λ i : nat, tag +:+ pretty i) <$> seq 0 n).
Proof.
  apply NoDup_fmap_2; [|apply NoDup_seq].
  intros i j Heq. apply (inj pretty).
  induction tag as [|c tag IH]; simpl in Heq; [done|].
  injection Heq as Heq. by apply IH.
Qed.

Lemma prefix_app (n : nat) (s : string) :
  ∃ rest, s = prefix n s +:+ rest.
Proof.
  unfold prefix. revert s. induction n as [|n IH]; intros s.
  - exists s. by destruct s.
  - destruct s as [|c s]; [by exists ""%string|].
    destruct (IH s) as [rest Hrest]. exists rest.
    change (String c s
            = String c (String.substring 0 n s +:+ rest))%string.
    by rewrite <-Hrest.
Qed.

(** X9: [sendPoll] offers the first three options at most, in their
    order, as the buttons [btn_0], [btn_1], [btn_2] whose titles are
    the first 20 characters of the options, under the title given;
    [sendRealPoll] offers every option it is given, as those buttons
    for up to three options and as the rows [poll_0], [poll_1], ... of
    one list (titles cut to 24 characters) for more.  The ids are
    distinct, and the choices come in the order of the options. *)
Theorem poll_choices (question : string) (options : list string) :
  length (choices (sendPoll question options)) = 3 `min` length options
  ∧ (∀ i opt,
       i < 3 → options !! i = Some opt →
       choices (sendPoll question options) !! i
       = Some ("btn_" +:+ pretty i, prefix 20 opt))
  ∧ (∃ buttons, sendPoll question options = ButtonMessage question buttons)
  ∧ length (choices (sendRealPoll question options)) = length options
  ∧ NoDup (choices (sendRealPoll question options)).*1
  ∧ (∀ i opt,
       options !! i = Some opt →
       choices (sendRealPoll question options) !! i
       = Some (if length options <=? 3
               then ("btn_" +:+ pretty i, prefix 20 opt)
               else ("poll_" +:+ pretty i, prefix 24 opt)))
  ∧ Forall (λ c, String.length c.2 ≤ 24)
           (choices (sendRealPoll question options))
  ∧ match sendRealPoll question options with
    | ButtonMessage body_text _ =>
      length options ≤ 3 ∧ body_text = question
    | ListMessage header_text body_text button sections =>
      3 < length options ∧ header_text = question ∧ body_text = question
      ∧ button = ("Ver " +:+ opcoes)%string ∧ length sections = 1
    end
  ∧ (∀ (n : nat) (s : string),
       String.length (prefix n s) = n `min` String.length s
       ∧ ∃ rest, s = (prefix n s +:+ rest)%string).
Proof.
  assert (Hfst20 : ∀ l : list string,
    ((λ b, (reply_id b, reply_title b)) <$>
       imap (λ i opt, {| reply_id := "btn_" +:+ pretty i;
                         reply_title := prefix 20 opt |}) l).*1
    = (λ i : nat, "btn_" +:+ pretty i) <$> seq 0 (length l)).
  { intros l. rewrite <-list_fmap_compose, fmap_imap.
    rewrite (imap_ext _ (λ i _, "btn_" +:+ pretty i)) by done.
    apply imap_seq_0. }
  assert (Hfst24 : ∀ l : list string,
    ((λ r, (row_id r, row_title r)) <$>
       imap (λ i opt, {| row_id := "poll_" +:+ pretty i;
                         row_title := prefix 24 opt |}) l).*1
    = (λ i : nat, "poll_" +:+ pretty i) <$> seq 0 (length l)).
  { intros l. rewrite <-list_fmap_compose, fmap_imap.
    rewrite (imap_ext _ (λ i _, "poll_" +:+ pretty i)) by done.
    apply imap_seq_0. }
  split.
  { unfold sendPoll. cbn [choices].
    by rewrite length_fmap, length_imap, length_take. }
  split.
  { intros i opt Hi Hopt. unfold sendPoll. cbn [choices].
    rewrite list_lookup_fmap, list_lookup_imap, lookup_take_lt by done.
    by rewrite Hopt. }
  split; [by eexists|].
  assert (Hprefix : ∀ (n : nat) (s : string),
            String.length (prefix n s) = n `min` String.length s
            ∧ ∃ rest, s = (prefix n s +:+ rest)%string).
  { intros n s. split; [apply length_prefix|apply prefix_app]. }
  unfold sendRealPoll.
  destruct (length options <=? 3) eqn:Hle.
  - apply Nat.leb_le in Hle. simpl.
    rewrite take_ge by lia. split_and!.
    + by rewrite length_fmap, length_imap.
    + rewrite Hfst20. apply NoDup_numbered.
    + intros i opt Hi. rewrite list_lookup_fmap, list_lookup_imap, Hi. done.
    + apply Forall_forall. intros c Hc.
      apply list_elem_of_fmap in Hc as (b & -> & Hb).
      apply elem_of_lookup_imap in Hb as (i & opt & -> & _). simpl.
      rewrite length_prefix. lia.
    + done.
    + done.
    + exact Hprefix.
  - apply Nat.leb_gt in Hle. simpl. rewrite app_nil_r. split_and!.
    + by rewrite length_fmap, length_imap.
    + rewrite Hfst24. apply NoDup_numbered.
    + intros i opt Hi. rewrite list_lookup_fmap, list_lookup_imap, Hi. done.
    + apply Forall_forall. intros c Hc.
      apply list_elem_of_fmap in Hc as (b & -> & Hb).
      apply elem_of_lookup_imap in Hb as (i & opt & -> & _). simpl.
      rewrite length_prefix. lia.
    + done.
    + done.
    + done.
    + done.
    + done.
    + exact Hprefix.
Qed.

End polls.

(** ** Chats *)

Section chats.
Import Receiver Chats.

#[local] Instance not_older_trans : Transitive not_older.
Proof. unfold not_older. intros a b c. lia. Qed.

#[local] Instance not_older_total : Total not_older.
Proof. unfold not_older. intros a b. lia. Qed.

Lemma newest_first_perm ms : newest_first ms ≡ₚ ms.
Proof. apply merge_sort_Permutation. Qed.

Lemma newest_first_sorted ms : StronglySorted not_older (newest_first ms).
Proof. apply StronglySorted_merge_sort; apply _. Qed.

Lemma StronglySorted_take {A} (R : relation A) n l :
  StronglySorted R l → StronglySorted R (take n l).
Proof.
  intros Hs. rewrite <-(take_drop n l) in Hs.
  by apply StronglySorted_app_1_l in Hs.
Qed.

Lemma StronglySorted_reverse {A} (R : relation A) l :
  StronglySorted R l → StronglySorted (flip R) (reverse l).
Proof.
  induction 1 as [|x l Hl IH Hx]; [constructor|].
  rewrite reverse_cons. apply StronglySorted_app_2; [|done|by repeat constructor].
  intros a b Ha Hb. apply list_elem_of_singleton in Hb as ->.
  rewrite elem_of_reverse in Ha. rewrite Forall_forall in Hx.
  unfold flip. by apply Hx.
Qed.

(** X10: [getChatMessages] returns the messages of the chat that are the
    newest, at most [limit] of them (50 when no limit or the limit 0 is
    given), oldest first; every message of the chat it leaves out is at
    least as old as each one it returns.  For a chat that has no contact
    row the result is empty. *)
Theorem getChatMessages_window (instanceId chatId : string)
    (limit : option nat) (d : Db) :
  let rows := chat_rows instanceId chatId limit d in
  getChatMessages instanceId chatId limit d = view <$> rows
  ∧ limit_of None = 50 ∧ limit_of (Some 0) = 50
  ∧ (∀ n, limit_of (Some (S n)) = S n)
  ∧ StronglySorted (λ a b, (Message.createdAt a ≤ Message.createdAt b)%Z) rows
  ∧ match contact_findUnique instanceId chatId d with
    | None => rows = []
    | Some contact =>
      let all := filter (of_chat instanceId (contact_id contact))
                        (message_rows d) in
      length rows = limit_of limit `min` length all
      ∧ rows ⊆+ all
      ∧ ∀ m m', m ∈ rows → m' ∈ all → m' ∉ rows →
          (Message.createdAt m' ≤ Message.createdAt m)%Z
    end.
Proof.
  intros rows. subst rows. unfold getChatMessages, chat_rows.
  split_and!; try done.
  - destruct (contact_findUnique instanceId chatId d); [|constructor].
    apply (StronglySorted_reverse not_older), StronglySorted_take,
      newest_first_sorted.
  - destruct (contact_findUnique instanceId chatId d) as [contact|]; [|done].
    set (all := filter _ _). cbv zeta. split_and!.
    + rewrite length_reverse, length_take.
      by rewrite (Permutation_length (newest_first_perm all)).
    + rewrite reverse_Permutation.
      etrans; [apply sublist_submseteq, sublist_take|].
      by rewrite newest_first_perm.
    + intros m m' Hm Hm' Hout.
      rewrite elem_of_reverse in Hm.
      assert (m' ∈ drop (limit_of limit) (newest_first all)) as Hdrop.
      { rewrite <-(newest_first_perm all) in Hm'.
        rewrite <-(take_drop (limit_of limit) (newest_first all)) in Hm'.
        apply elem_of_app in Hm' as [Hin|Hin]; [|done].
        destruct Hout. by rewrite elem_of_reverse. }
      pose proof (newest_first_sorted all) as Hs.
      rewrite <-(take_drop (limit_of limit) (newest_first all)) in Hs.
      by apply (StronglySorted_app_1_elem_of _ _ _ m m') in Hs.
Qed.

(** The key [instanceId_waId] of a contact row. *)
Lemma NoDup_fmap_elem {A B} (f : A → B) (l : list A) x y :
  NoDup (f <$> l) → x ∈ l → y ∈ l → f x = f y → x = y.
Proof.
  intros Hnd Hx Hy Heq.
  apply list_elem_of_lookup in Hx as [i Hi].
  apply list_elem_of_lookup in Hy as [j Hj].
  assert (i = j) as ->; [|congruence].
  apply (NoDup_lookup (f <$> l) i j (f x)); [done|..];
    rewrite list_lookup_fmap; [by rewrite Hi|by rewrite Hj, Heq].
Qed.

Lemma list_find_filter {A} (P Q : A → Prop) `{!∀ x, Decision (P x)}
    `{!∀ x, Decision (Q x)} (l : list A) :
  (∀ x, x ∈ l → P x → Q x) →
  snd <$> list_find P (filter Q l) = snd <$> list_find P l.
Proof.
  induction l as [|x l IH]; intros Himp; [done|].
  assert (IH' : snd <$> list_find P (filter Q l) = snd <$> list_find P l).
  { apply IH. intros y Hy. apply Himp. by right. }
  rewrite filter_cons. cbn [list_find].
  destruct (decide (P x)) as [Hp|Hp].
  - rewrite decide_True by (apply Himp; [by left|done]).
    cbn [list_find]. by rewrite decide_True by done.
  - destruct (decide (Q x)).
    + cbn [list_find]. rewrite decide_False by done.
      rewrite <-!option_fmap_compose.
      transitivity (snd <$> list_find P (filter Q l));
        [by destruct (list_find P (filter Q l)) as [[]|]|].
      rewrite IH'. by destruct (list_find P l) as [[]|].
    + rewrite IH'. rewrite <-!option_fmap_compose.
      by destruct (list_find P l) as [[]|].
Qed.

Lemma contact_findUnique_Some instanceId chatId d c :
  contact_findUnique instanceId chatId d = Some c →
  c ∈ contact_rows d ∧ contact_instanceId c = instanceId ∧ waId c = chatId.
Proof.
  unfold contact_findUnique.
  destruct (list_find _ _) as [[i c']|] eqn:Hf; [|done].
  intros [= <-]. apply list_find_Some in Hf as (Hi & [? ?] & _).
  split; [|done]. by eapply list_elem_of_lookup_2.
Qed.

(** X11: after [deleteChat] the chat is gone: its contact row is
    deleted and so is every message row that carried the id of that
    contact, whatever its instance, so the chat has no contact and no
    messages; every other row stays, in place, and every other chat of
    any instance keeps its contact row and its messages.  A chat that
    has no contact row leaves the database as it is.  Contact ids and
    the pairs of instance and WhatsApp id are unique, as the database
    has them. *)
Theorem deleteChat_removes_chat (instanceId chatId : string) (d : Db) :
  NoDup (contact_id <$> contact_rows d) →
  NoDup ((λ c, (contact_instanceId c, waId c)) <$> contact_rows d) →
  let d' := deleteChat instanceId chatId d in
  getChatById instanceId chatId d' = None
  ∧ (∀ limit, getChatMessages instanceId chatId limit d' = [])
  ∧ (∀ instanceId' chatId' limit,
       (instanceId', chatId') ≠ (instanceId, chatId) →
       getChatById instanceId' chatId' d' = getChatById instanceId' chatId' d
       ∧ getChatMessages instanceId' chatId' limit d'
         = getChatMessages instanceId' chatId' limit d)
  ∧ (getChatById instanceId chatId d = None → d' = d)
  ∧ (∀ m, m ∈ message_rows d → Message.contactId m = None →
          m ∈ message_rows d')
  ∧ (∀ c, getChatById instanceId chatId d = Some c →
       (∀ m, m ∈ message_rows d'
             ↔ m ∈ message_rows d ∧ Message.contactId m ≠ Some (contact_id c))
       ∧ (∀ c0, c0 ∈ contact_rows d'
                ↔ c0 ∈ contact_rows d ∧ contact_id c0 ≠ contact_id c)
       ∧ (∀ c0, c0 ∈ contact_rows d' → c0 ≠ c))
  ∧ message_rows d' `sublist_of` message_rows d
  ∧ contact_rows d' `sublist_of` contact_rows d
  ∧ instances d' = instances d.
Proof.
  intros Hids Hkeys d'. subst d'. unfold deleteChat, getChatById.
  destruct (contact_findUnique instanceId chatId d) as [c|] eqn:Hc.
  2:{ split_and!; try done.
      intros limit. unfold getChatMessages, chat_rows. by rewrite Hc. }
  apply contact_findUnique_Some in Hc as Hc'.
  destruct Hc' as (Hcin & Hci & Hcw).
  set (d' := {| instances := instances d;
                contact_rows :=
                  filter (λ c0, contact_id c0 ≠ contact_id c) (contact_rows d);
                message_rows :=
                  Store.deleteMany_where_contactId (contact_id c)
                    (message_rows d) |}).
  assert (Hgone : contact_findUnique instanceId chatId d' = None).
  { unfold contact_findUnique.
    destruct (list_find _ _) as [[i c2]|] eqn:Hf; [|done].
    apply list_find_Some in Hf as (Hi & [Hi2 Hw2] & _).
    apply list_elem_of_lookup_2, list_elem_of_filter in Hi as [Hne Hin].
    destruct Hne. f_equal.
    apply (NoDup_fmap_elem _ _ c2 c Hkeys Hin Hcin). simpl. congruence. }
  assert (Hother : ∀ instanceId' chatId',
            (instanceId', chatId') ≠ (instanceId, chatId) →
            contact_findUnique instanceId' chatId' d'
            = contact_findUnique instanceId' chatId' d).
  { intros i' w' Hne. unfold contact_findUnique. subst d'.
    cbn [contact_rows]. apply list_find_filter.
    intros x Hx [Hxi Hxw] Heq. apply Hne.
    assert (x = c) as -> by (by apply (NoDup_fmap_elem _ _ x c Hids)).
    congruence. }
  split_and!; try done.
  - intros limit. unfold getChatMessages, chat_rows. by rewrite Hgone.
  - intros i' w' limit Hne. split; [by apply Hother|].
    unfold getChatMessages, chat_rows. rewrite (Hother i' w' Hne).
    destruct (contact_findUnique i' w' d) as [c2|] eqn:Hc2; [|done].
    apply contact_findUnique_Some in Hc2 as (Hc2in & Hc2i & Hc2w).
    assert (contact_id c2 ≠ contact_id c) as Hidne.
    { intros Heq. apply Hne.
      assert (c2 = c) as -> by (by apply (NoDup_fmap_elem _ _ c2 c Hids)).
      congruence. }
    do 4 f_equal. subst d'. cbn [message_rows].
    unfold Store.deleteMany_where_contactId. rewrite list_filter_filter.
    apply list_filter_iff. intros m. unfold of_chat. split; [tauto|].
    intros [Hi Hcid]. split; [done|]. rewrite Hcid. congruence.
  - intros m Hin Hnone. subst d'. cbn [message_rows].
    apply list_elem_of_filter. split; [|done]. by rewrite Hnone.
  - intros c1 [= <-]. subst d'. cbn [message_rows contact_rows].
    split_and!.
    + intros m. unfold Store.deleteMany_where_contactId.
      rewrite list_elem_of_filter. tauto.
    + intros c0. rewrite list_elem_of_filter. tauto.
    + intros c0 Hin ->. apply list_elem_of_filter in Hin as [Hne _].
      by destruct Hne.
  - subst d'. cbn [message_rows]. apply sublist_filter.
  - subst d'. cbn [contact_rows]. apply sublist_filter.
Qed.

(** X11 (witness): the chat of the sample inbound message. *)
Lemma deleteChat_removes_chat_witness :
  getChatById "inst-1" "5511988887777"
    (deleteChat "inst-1" "5511988887777" SampleGateway.inbox1) = None
  ∧ ∀ limit,
      getChatMessages "inst-1" "5511988887777" limit
        (deleteChat "inst-1" "5511988887777" SampleGateway.inbox1) = [].
Proof.
  destruct (deleteChat_removes_chat "inst-1" "5511988887777"
              SampleGateway.inbox1) as (Hgone & Hnone & _).
  - vm_compute. apply NoDup_singleton.
  - vm_compute. apply NoDup_singleton.
  - exact (conj Hgone Hnone).
Defined.

End chats.

(** ** The webhook receiver: what a request does to the database *)

Section receiver_effects.
Import Receiver.
Context (uuid : nat → string) (now : Z).

(** What the body of the message loop does: nothing (no metadata, no
    phone-number id, no instance with that id), or the contact upsert,
    the guarded [create] with its download, and the dispatch. *)
Lemma on_message_cases v message s :
  on_message uuid now v message s = (s, inr tt)
  ∨ ∃ md instanceId row contact contacts' rows' dl,
      let s' := (on_message uuid now v message s).1 in
      ((on_message uuid now v message s).2 = inr tt
       ∧ instances (db s') = instances (db s)
       ∧ contact_rows (db s') = contacts'
       ∧ message_rows (db s') = rows'
       ∧ dispatched s'
         = {| d_instanceId := instanceId; d_event := "message";
              d_data := MessageData message md |} :: dispatched s
       ∧ downloads s' = dl ++ downloads s)
      ∧ metadata v = Some md
      ∧ truthy (phone_number_id md) = true
      ∧ instance_findFirst (or_else (phone_number_id md) "") (db s)
        = Some (instanceId, row)
      ∧ (contact_findUnique instanceId (from message) (db s) = None
         ∧ contacts' = contact_rows (db s) ++ [contact]
         ∧ contact_instanceId contact = instanceId
         ∧ waId contact = from message
         ∨ contact_findUnique instanceId (from message) (db s) = Some contact
           ∧ ∃ f, contacts' = f <$> contact_rows (db s)
                  ∧ ∀ c, contact_id (f c) = contact_id c
                         ∧ contact_instanceId (f c) = contact_instanceId c
                         ∧ waId (f c) = waId c)
      ∧ (is_Some (message_findUnique (id message) (db s))
         ∧ rows' = message_rows (db s) ∧ dl = []
         ∨ message_findUnique (id message) (db s) = None
           ∧ (∃ r, rows' = message_rows (db s) ++ [r]
                   ∧ Message.waMessageId r = Some (id message)
                   ∧ Message.campaignId r = None
                   ∧ Message.contactId r = Some (contact_id contact)
                   ∧ Message.status r = "DELIVERED"%string)
           ∧ dl = if bool_decide (type message ∈
                       ["image"; "video"; "audio"; "document"; "sticker"]%string)
                     && truthy (mediaUrl_of message)
                  then [ {| dl_instanceId := instanceId;
                            dl_messageId := id message;
                            dl_type := type message;
                            dl_mimetype := media message ≫= mime_type |} ]
                  else []).
Proof.
  destruct (metadata v) as [md|] eqn:Hmd;
    [|left; unfold on_message; by rewrite Hmd].
  destruct (truthy (phone_number_id md)) eqn:Hpn;
    [|left; unfold on_message; by rewrite Hmd, Hpn].
  destruct (instance_findFirst (or_else (phone_number_id md) "") (db s))
    as [[instanceId row]|] eqn:Hinst.
  2:{ left. unfold on_message. rewrite Hmd, Hpn.
      unfold mbind, M_bind, get_db at 1. cbn [fst snd]. by rewrite Hinst. }
  right. exists md, instanceId, row.
  assert (Hid : ∀ l : list Contact, l = (λ c, c) <$> l).
  { intros l. exact (eq_sym (list_fmap_id l)). }
  assert (Hfind : ∀ cs, message_findUnique (id message)
            {| instances := instances (db s); contact_rows := cs;
               message_rows := message_rows (db s) |}
          = message_findUnique (id message) (db s)) by done.
  pose (dl1 := [ {| dl_instanceId := instanceId; dl_messageId := id message;
                    dl_type := type message;
                    dl_mimetype := media message ≫= mime_type |} ]).
  cbv zeta.
  destruct (on_message uuid now v message s) as [s' r] eqn:Heq.
  cbn [fst snd]. revert Heq.
  unfold on_message. rewrite Hmd, Hpn.
  unfold mbind, M_bind, get_db at 1. cbn [fst snd]. rewrite Hinst.
  destruct (contact_findUnique instanceId (from message) (db s))
    as [c|] eqn:Hc.
  - destruct (truthy (pushName_of v (from message))
              && negb (String.eqb (pushName c)
                         (or_else (pushName_of v (from message)) "")))
      eqn:Hn; cbn -[message_findUnique]; rewrite ?Hfind;
      (destruct (message_findUnique (id message) (db s)) as [m|] eqn:Hf;
       cbn -[message_findUnique];
       [intros [= <- <-]; eexists c, _, _, []
       |destruct (bool_decide _ && truthy (mediaUrl_of message)) eqn:Hdl;
        cbn -[message_findUnique]; intros [= <- <-];
        [eexists c, _, _, dl1|eexists c, _, _, []]]);
      (split; [by split_and!|]); cbn -[message_findUnique];
      (split_and!; [done|done|done|..]).
    all: first
      [ right; split; [done|]; exists (λ c, c); split; [apply Hid|done]
      | right; split; [done|]; eexists; split; [reflexivity|];
        intros c0; cbn beta; by destruct (decide _)
      | left; split_and!; [by eexists|done|done]
      | right; split_and!;
        [done|eexists; split_and!; [reflexivity|done..]|by rewrite ?Hdl] ].
  - cbn -[message_findUnique]; rewrite ?Hfind;
      (destruct (message_findUnique (id message) (db s)) as [m|] eqn:Hf;
       cbn -[message_findUnique];
       [intros [= <- <-]; eexists _, _, _, []
       |destruct (bool_decide _ && truthy (mediaUrl_of message)) eqn:Hdl;
        cbn -[message_findUnique]; intros [= <- <-];
        [eexists _, _, _, dl1|eexists _, _, _, []]]);
      (split; [by split_and!|]); cbn -[message_findUnique];
      (split_and!; [done|done|done|..]).
    all: first
      [ left; split_and!; [done|reflexivity|done|done]
      | left; split_and!; [by eexists|done|done]
      | right; split_and!;
        [done|eexists; split_and!; [reflexivity|done..]|by rewrite ?Hdl] ].
Qed.

(** What the body of the status loop does: nothing, or the [updateMany]
    (when the status carries an id) and the dispatch; it throws, before
    any write, when a status with an id carries no status string. *)
Lemma on_status_cases v st s :
  (on_status now v st s).1 = s
  ∨ ∃ instanceId rows',
      let s' := (on_status now v st s).1 in
      ((on_status now v st s).2 = inr tt
       ∧ instances (db s') = instances (db s)
       ∧ contact_rows (db s') = contact_rows (db s)
       ∧ message_rows (db s') = rows'
       ∧ dispatched s'
         = {| d_instanceId := instanceId; d_event := "message_ack";
              d_data := AckData st |} :: dispatched s
       ∧ downloads s' = downloads s)
      ∧ (truthy (status_id st) = false ∧ rows' = message_rows (db s)
         ∨ ∃ str, truthy (status_id st) = true ∧ status st = Some str
             ∧ rows' = Store.update_where_waMessageId
                         (or_else (status_id st) "")
                         (Message.ack (toUpperCase str)
                            (if String.eqb str "delivered" then Some now
                             else None)
                            (if String.eqb str "read" then Some now else None))
                         (message_rows (db s))).
Proof.
  destruct (metadata v) as [md|] eqn:Hmd;
    [|left; unfold on_status; by rewrite Hmd].
  destruct (truthy (phone_number_id md)) eqn:Hpn;
    [|left; unfold on_status; by rewrite Hmd, Hpn].
  destruct (instance_findFirst (or_else (phone_number_id md) "") (db s))
    as [[instanceId row]|] eqn:Hinst.
  2:{ left. unfold on_status. rewrite Hmd, Hpn.
      unfold mbind, M_bind, get_db at 1. cbn [fst snd]. by rewrite Hinst. }
  cbv zeta.
  destruct (on_status now v st s) as [s' r] eqn:Heq.
  cbn [fst snd]. revert Heq.
  unfold on_status. rewrite Hmd, Hpn.
  unfold mbind, M_bind, get_db at 1. cbn [fst snd]. rewrite Hinst.
  destruct (truthy (status_id st)) eqn:Hid.
  - destruct (status st) as [str|] eqn:Hst; cbn.
    + intros [= <- <-]. right. eexists instanceId, _.
      split; [by split_and!|]. right. by exists str.
    + intros [= <- <-]. by left.
  - cbn. intros [= <- <-]. right. exists instanceId, (message_rows (db s)).
    split; [by split_and!|]. by left.
Qed.

Lemma on_message_unroutable v message s :
  Routing.instance_of (db s) v = None →
  on_message uuid now v message s = (s, inr tt).
Proof.
  unfold Routing.instance_of, on_message.
  destruct (metadata v) as [md|]; [|done].
  destruct (truthy (phone_number_id md)); [|done].
  unfold mbind, M_bind, get_db at 1. cbn [fst snd].
  by destruct (instance_findFirst _ (db s)) as [[]|].
Qed.

Lemma on_status_unroutable v st s :
  Routing.instance_of (db s) v = None →
  on_status now v st s = (s, inr tt).
Proof.
  unfold Routing.instance_of, on_status.
  destruct (metadata v) as [md|]; [|done].
  destruct (truthy (phone_number_id md)); [|done].
  unfold mbind, M_bind, get_db at 1. cbn [fst snd].
  by destruct (instance_findFirst _ (db s)) as [[]|].
Qed.

(** *** Properties kept by every step of a request *)

Lemma for_of_keeps {A} (P : State → Prop) (body : A → M unit) (l : list A) :
  (∀ x s, x ∈ l → P s → P (body x s).1) →
  ∀ s, P s → P (for_of l body s).1.
Proof.
  induction l as [|x l IH]; intros Hbody s Hs; [done|].
  cbn [for_of]. unfold mbind, M_bind.
  pose proof (Hbody x s (list_elem_of_here _ _) Hs) as Hx.
  destruct (body x s) as [s1 [e|[]]]; [done|].
  apply IH; [|done]. intros y s' Hy. apply Hbody. by right.
Qed.

Lemma on_change_keeps (P : State → Prop) change :
  (∀ v m s, value change = Some v → P s → P (on_message uuid now v m s).1) →
  (∀ v st s, value change = Some v → P s → P (on_status now v st s).1) →
  ∀ s, P s → P (on_change uuid now change s).1.
Proof.
  intros Hm Hst s Hs. unfold on_change.
  destruct (value change) as [v|]; [|done].
  unfold mbind, M_bind.
  assert (P ((match messages v with
                | Some ms => for_of ms (on_message uuid now v)
                | None => mret tt
                end) s).1) as H1.
  { destruct (messages v); [|done]. apply for_of_keeps; [|done].
    intros m s' _. by apply Hm. }
  destruct ((match messages v with
             | Some ms => for_of ms (on_message uuid now v)
             | None => mret tt
             end) s) as [s1 [e|[]]]; [done|]. cbn [fst] in H1.
  destruct (statuses v); [|done]. apply for_of_keeps; [|done].
  intros st s' _. by apply Hst.
Qed.

Lemma post_keeps (P : State → Prop) request :
  (∀ v m s, P s → P (on_message uuid now v m s).1) →
  (∀ v st s, P s → P (on_status now v st s).1) →
  ∀ s, P s → P (post uuid now request s).1.
Proof.
  intros Hm Hst s Hs. unfold post. destruct request as [body|]; [|done].
  assert (P (process uuid now body s).1) as H.
  { unfold process. case_decide; [|done].
    apply for_of_keeps; [|done]. intros e s1 _ Hs1. unfold on_entry.
    apply for_of_keeps; [|done]. intros c s2 _ Hs2.
    apply on_change_keeps; [by intros; apply Hm|by intros; apply Hst|done]. }
  by destruct (process uuid now body s) as [s' [e|[]]].
Qed.

End receiver_effects.

(** ** The webhook receiver: what a request keeps *)

Section receiver_keeps.
Import Receiver Routing.
Context (uuid : nat → string) (now : Z).

Lemma message_findUnique_None wa (s : State) :
  message_findUnique wa (db s) = None ↔ wa ∉ provider_ids s.
Proof.
  unfold message_findUnique, provider_ids.
  rewrite fmap_None, list_find_None, Forall_forall, list_elem_of_omap.
  split.
  - intros H (m & Hin & Hw). by apply (H m).
  - intros H m Hin Hw. apply H. by exists m.
Qed.

Lemma contact_findUnique_None i w (s : State) :
  contact_findUnique i w (db s) = None ↔ (i, w) ∉ contact_keys s.
Proof.
  unfold contact_findUnique, contact_keys.
  rewrite fmap_None, list_find_None, Forall_forall, list_elem_of_fmap.
  split.
  - intros H (c & [= -> ->] & Hin). by apply (H c).
  - intros H c Hin [Hi Hw]. apply H. exists c. by rewrite Hi, Hw.
Qed.

Lemma omap_ack wa st delivered read ms :
  omap Message.waMessageId
    (Store.update_where_waMessageId wa (Message.ack st delivered read) ms)
  = omap Message.waMessageId ms.
Proof.
  unfold Store.update_where_waMessageId.
  induction ms as [|m ms IH]; [done|]. cbn [fmap list_fmap omap list_omap].
  cbn [fmap list_fmap] in IH. rewrite IH. by case_decide.
Qed.

(** The ids and the keys after one message: what there was, with at
    most one new id and one new key at the end. *)
Lemma on_message_ids v message s :
  let s' := (on_message uuid now v message s).1 in
  (provider_ids s' = provider_ids s
   ∨ (id message ∉ provider_ids s)
     ∧ provider_ids s' = provider_ids s ++ [id message])
  ∧ (contact_keys s' = contact_keys s
     ∨ ∃ key, (key ∉ contact_keys s)
              ∧ contact_keys s' = contact_keys s ++ [key])
  ∧ (downloads s' = downloads s
     ∨ ∃ dl, downloads s' = dl :: downloads s
             ∧ dl_messageId dl = id message
             ∧ dl_type dl ∈ ["image"; "video"; "audio"; "document"; "sticker"]%string
             ∧ (id message ∉ provider_ids s)
             ∧ provider_ids s' = provider_ids s ++ [id message]).
Proof.
  destruct (on_message_cases uuid now v message s) as
    [->|(md & instanceId & row & contact & contacts' & rows' & dl & H)];
    [cbn; auto|].
  cbv zeta in *.
  destruct H as ((_ & _ & Hc & Hr & _ & Hd) & _ & _ & _ & Hcontact & Hrows).
  assert (Hids : provider_ids (on_message uuid now v message s).1
                   = provider_ids s ∧ dl = []
                 ∨ (id message ∉ provider_ids s)
                   ∧ provider_ids (on_message uuid now v message s).1
                     = provider_ids s ++ [id message]).
  { destruct Hrows as [(_ & -> & ->)|(Hnone & (r & -> & Hw & _) & _)];
      [left|right].
    - unfold provider_ids. by rewrite Hr.
    - split; [by apply message_findUnique_None|].
      unfold provider_ids. rewrite Hr, omap_app. cbn. by rewrite Hw. }
  split_and!.
  - destruct Hids as [[? _]|?]; auto.
  - destruct Hcontact as [(Hnone & -> & Hi & Hw)|(_ & f & -> & Hf)].
    + right. exists (instanceId, from message).
      split; [by apply contact_findUnique_None|].
      unfold contact_keys. rewrite Hc, fmap_app. cbn. by rewrite Hi, Hw.
    + left. unfold contact_keys. rewrite Hc.
      rewrite <-list_fmap_compose. apply list_fmap_ext.
      intros i c _. cbn. destruct (Hf c) as (_ & -> & ->). done.
  - rewrite Hd. destruct Hids as [[_ ->]|[Hnin Hids]]; [by left|].
    destruct Hrows as [(Hsome & _)|(_ & _ & ->)].
    { apply message_findUnique_None in Hnin. rewrite Hnin in Hsome.
      by destruct Hsome. }
    destruct (bool_decide _ && truthy (mediaUrl_of message)) eqn:Hcond;
      [|by left].
    right. eexists. split; [done|]. cbn.
    apply andb_prop in Hcond as [Ht%bool_decide_eq_true _]. done.
Qed.

Lemma on_status_ids v st s :
  let s' := (on_status now v st s).1 in
  provider_ids s' = provider_ids s ∧ contact_keys s' = contact_keys s
  ∧ downloads s' = downloads s.
Proof.
  destruct (on_status_cases now v st s) as
    [->|(instanceId & rows' & H)]; [done|].
  cbv zeta in *. destruct H as ((_ & _ & Hc & Hr & _ & Hd) & Hrows).
  unfold provider_ids, contact_keys. rewrite Hc, Hr, Hd.
  split_and!; try done.
  destruct Hrows as [[_ ->]|(str & _ & _ & ->)]; [done|]. apply omap_ack.
Qed.

(** X12: a request, handled with no other request in between, never
    makes the receiver store a provider message id or a contact key
    twice, and it deletes nothing: when the stored
    provider ids are distinct and the stored pairs of instance and
    WhatsApp id are distinct, they still are after the request, and the
    ids and the keys stored before are still there, in place, with the
    new ones after them.  This holds however the request ends, also
    when it is answered with the error. *)
Theorem post_keeps_rows_unique (request : option Body) (s : State) :
  NoDup (provider_ids s) → NoDup (contact_keys s) →
  let s' := (post uuid now request s).1 in
  NoDup (provider_ids s') ∧ NoDup (contact_keys s')
  ∧ provider_ids s `prefix_of` provider_ids s'
  ∧ contact_keys s `prefix_of` contact_keys s'.
Proof.
  intros Hids Hkeys.
  apply (post_keeps uuid now
    (λ s', NoDup (provider_ids s') ∧ NoDup (contact_keys s')
           ∧ provider_ids s `prefix_of` provider_ids s'
           ∧ contact_keys s `prefix_of` contact_keys s')); [| |done].
  - intros v m s1 (Hn1 & Hn2 & Hp1 & Hp2).
    destruct (on_message_ids v m s1) as (Hi & Hk & _). cbv zeta in *.
    split_and!.
    + destruct Hi as [->|[Hnin ->]]; [done|].
      apply NoDup_app. split_and!; [done| |apply NoDup_singleton].
      by intros x Hx ->%list_elem_of_singleton.
    + destruct Hk as [->|(key & Hnin & ->)]; [done|].
      apply NoDup_app. split_and!; [done| |apply NoDup_singleton].
      by intros x Hx ->%list_elem_of_singleton.
    + destruct Hi as [->|[_ ->]]; [done|]. by apply prefix_app_r.
    + destruct Hk as [->|(key & _ & ->)]; [done|]. by apply prefix_app_r.
  - intros v st s1 H. destruct (on_status_ids v st s1) as (Hi & Hk & _).
    cbv zeta in *. by rewrite Hi, Hk.
Qed.

(** X13: media is downloaded for newly stored messages only.  Every
    call of [handleMediaDownload] that a request handled with no other
    request in between makes is for a provider
    message id that had no row before the request and has one after
    it, of one of the five media types, and no id is downloaded twice
    in a request; in particular a message delivered again sets off no
    second download. *)
Theorem downloads_for_new_rows (request : option Body) (s : State) :
  let s' := (post uuid now request s).1 in
  ∃ new,
    downloads s' = new ++ downloads s
    ∧ NoDup (dl_messageId <$> new)
    ∧ Forall (λ dl, (dl_messageId dl ∉ provider_ids s)
                    ∧ dl_messageId dl ∈ provider_ids s'
                    ∧ dl_type dl ∈ ["image"; "video"; "audio"; "document";
                                    "sticker"]%string) new.
Proof.
  cbv zeta.
  cut (provider_ids s `prefix_of` provider_ids (post uuid now request s).1
       ∧ ∃ new,
          downloads (post uuid now request s).1 = new ++ downloads s
          ∧ NoDup (dl_messageId <$> new)
          ∧ Forall (λ dl, (dl_messageId dl ∉ provider_ids s)
                     ∧ dl_messageId dl ∈ provider_ids (post uuid now request s).1
                     ∧ dl_type dl ∈ ["image"; "video"; "audio"; "document";
                                     "sticker"]%string) new); [by intros [_ ?]|].
  apply (post_keeps uuid now
    (λ s', provider_ids s `prefix_of` provider_ids s'
           ∧ ∃ new,
               downloads s' = new ++ downloads s
               ∧ NoDup (dl_messageId <$> new)
               ∧ Forall (λ dl, (dl_messageId dl ∉ provider_ids s)
                               ∧ dl_messageId dl ∈ provider_ids s'
                               ∧ dl_type dl ∈ ["image"; "video"; "audio";
                                               "document"; "sticker"]%string)
                        new)).
  - intros v m s1 (Hp & new & Hd & Hnd & Hall).
    destruct (on_message_ids v m s1) as (Hi & _ & Hdl). cbv zeta in *.
    assert (Hp' : provider_ids s1
                  `prefix_of` provider_ids (on_message uuid now v m s1).1).
    { destruct Hi as [->|[_ ->]]; [done|]. by apply prefix_app_r. }
    split; [by etrans|].
    assert (Hall' : Forall (λ dl, (dl_messageId dl ∉ provider_ids s)
                     ∧ dl_messageId dl ∈ provider_ids (on_message uuid now v m s1).1
                     ∧ dl_type dl ∈ ["image"; "video"; "audio"; "document";
                                     "sticker"]%string) new).
    { eapply Forall_impl; [exact Hall|]. intros dl (? & Hin & ?).
      split_and!; [done| |done]. destruct Hp' as [k ->]. set_solver. }
    destruct Hdl as [->|(dl & -> & Hid & Hty & Hnin & Hids)].
    + by exists new.
    + exists (dl :: new). rewrite Hd. split_and!; [done| |].
      * rewrite fmap_cons. apply NoDup_cons. split; [|done].
        rewrite Hid. intros (dl' & Heq & Hin)%list_elem_of_fmap.
        rewrite Forall_forall in Hall. destruct (Hall dl' Hin) as (_ & H1 & _).
        by rewrite <-Heq in H1.
      * apply Forall_cons. split; [|done]. rewrite Hid, Hids.
        split_and!; [|set_solver|done].
        intros Hin. apply Hnin. destruct Hp as [k ->]. set_solver.
  - intros v st s1 (Hp & new & Hd & Hnd & Hall).
    destruct (on_status_ids v st s1) as (Hi & _ & Hdl). cbv zeta in *.
    rewrite Hi, Hdl. split; [done|]. by exists new.
  - split; [done|]. exists []. split_and!; [done|constructor|constructor].
Qed.

Lemma for_of_skip {A} (body : A → M unit) (l : list A) s :
  (∀ x, x ∈ l → body x s = (s, inr tt)) → for_of l body s = (s, inr tt).
Proof.
  induction l as [|x l IH]; intros H; [done|].
  cbn [for_of]. unfold mbind, M_bind. rewrite (H x) by by left.
  apply IH. intros y Hy. apply H. by right.
Qed.

(** X14: a payload that is for no instance of the table changes
    nothing.  When none of its values carries the phone-number id of an
    instance, the request leaves the database, the dispatched events and
    the downloads exactly as they were, and it is acknowledged whenever
    every change has a [value], whatever else the items lack. *)
Theorem post_unroutable (body : Body) (s : State) :
  unroutable (db s) body →
  (post uuid now (Some body) s).1 = s
  ∧ (Forall (λ e, Forall (λ c, is_Some (value c)) (default [] (changes e)))
            (default [] (entry body)) →
     (post uuid now (Some body) s).2 = Ok).
Proof.
  intros Hun.
  assert (Hchange : ∀ e c, e ∈ default [] (entry body) →
            c ∈ default [] (changes e) →
            ∀ v, value c = Some v → on_change uuid now c s = (s, inr tt)).
  { intros e c He Hc v Hv. unfold on_change. rewrite Hv.
    unfold unroutable in Hun. rewrite Forall_forall in Hun.
    pose proof (Hun e He) as Hune. rewrite Forall_forall in Hune.
    pose proof (Hune c Hc v Hv) as Hnone.
    unfold mbind, M_bind.
    assert ((match messages v with
             | Some ms => for_of ms (on_message uuid now v)
             | None => mret tt
             end) s = (s, inr tt)) as ->.
    { destruct (messages v); [|done]. apply for_of_skip.
      intros m _. by apply on_message_unroutable. }
    destruct (statuses v); [|done]. apply for_of_skip.
    intros st _. by apply on_status_unroutable. }
  split.
  - unfold post.
    assert ((process uuid now body s).1 = s) as H.
    { unfold process. case_decide; [|done].
      apply (for_of_keeps (λ s', s' = s)); [|done].
      intros e s1 He ->. unfold on_entry.
      apply (for_of_keeps (λ s', s' = s)); [|done].
      intros c s2 Hc ->.
      destruct (value c) as [v|] eqn:Hv.
      + by rewrite (Hchange e c He Hc v Hv).
      + unfold on_change. by rewrite Hv. }
    by destruct (process uuid now body s) as [s' [e|[]]].
  - intros Hval. unfold post.
    assert (process uuid now body s = (s, inr tt)) as ->; [|done].
    unfold process. case_decide; [|done].
    apply for_of_skip. intros e He. unfold on_entry.
    apply for_of_skip. intros c Hc.
    rewrite Forall_forall in Hval. pose proof (Hval e He) as Hvale.
    rewrite Forall_forall in Hvale. destruct (Hvale c Hc) as [v Hv].
    by apply (Hchange e c He Hc v).
Qed.

End receiver_keeps.

(** ** The webhook relay: time spent waiting *)

Section backoff.
Import Relay Backoff.

Lemma waited_app t1 t2 : waited (t1 ++ t2) = (waited t1 + waited t2)%Z.
Proof.
  induction t1 as [|[k|ms] t1 IH]; simpl; [done| |]; rewrite ?IH; lia.
Qed.

Lemma attempts_app t1 t2 : attempts (t1 ++ t2) = attempts t1 + attempts t2.
Proof.
  induction t1 as [|[k|ms] t1 IH]; simpl; [done| |]; rewrite ?IH; lia.
Qed.

Lemma waited_failed_prefix (j : nat) (attempt : Z) :
  (1 ≤ attempt)%Z →
  waited (failed_prefix j attempt)
  = (1000 * (2 ^ (attempt - 1 + Z.of_nat j) - 2 ^ (attempt - 1)))%Z.
Proof.
  revert attempt. induction j as [|j IH]; intros attempt Ha.
  - simpl. rewrite Z.add_0_r. lia.
  - cbn [failed_prefix waited foldr]. fold (waited (failed_prefix j (attempt + 1))).
    rewrite IH by lia.
    replace (attempt + 1 - 1 + Z.of_nat j)%Z
      with (attempt - 1 + Z.of_nat (S j))%Z by lia.
    replace (attempt + 1 - 1)%Z with (Z.succ (attempt - 1)) by lia.
    rewrite Z.pow_succ_r by lia. lia.
Qed.

Lemma attempts_failed_prefix (j : nat) (attempt : Z) :
  attempts (failed_prefix j attempt) = j.
Proof.
  revert attempt. induction j as [|j IH]; intros attempt; [done|].
  cbn [failed_prefix attempts foldr].
  fold (attempts (failed_prefix j (attempt + 1))). by rewrite IH.
Qed.

(** X15: the relay gives up in bounded time.  Whatever the destination
    does, [sendWebhookWithRetry] calls [sendWebhook] at most
    [webhookRetryAttempts] times and waits at most
    [1000 * (2^(webhookRetryAttempts-1) - 1)] ms in all between the
    calls (3 s for three attempts); it waits exactly that long, and uses
    every attempt, when every call fails, and it does not wait at all
    when the first call succeeds. *)
Theorem relay_wait_bounded (webhookRetryAttempts : Z) (net : Z → Delivery) :
  let trace := sendWebhookWithRetry webhookRetryAttempts net in
  (0 ≤ waited trace
     ≤ 1000 * (2 ^ (Z.max 1 webhookRetryAttempts - 1) - 1))%Z
  ∧ (Z.of_nat (attempts trace) ≤ Z.max 0 webhookRetryAttempts)%Z
  ∧ ((∀ k, sendWebhook (net k) = false) →
     (1 ≤ webhookRetryAttempts)%Z →
     waited trace = (1000 * (2 ^ (webhookRetryAttempts - 1) - 1))%Z
     ∧ Z.of_nat (attempts trace) = webhookRetryAttempts)
  ∧ (sendWebhook (net 1%Z) = true → (1 ≤ webhookRetryAttempts)%Z →
     trace = [Attempt 1%Z]).
Proof.
  intros trace. subst trace. unfold sendWebhookWithRetry.
  destruct (Z.ltb_spec webhookRetryAttempts 1) as [Hlt|Hge].
  { replace (Z.to_nat webhookRetryAttempts) with 0 by lia.
    replace (Z.max 1 webhookRetryAttempts) with 1%Z by lia.
    simpl. split_and!; try lia. }
  destruct (retry_from_trace webhookRetryAttempts net
              (Z.to_nat webhookRetryAttempts) 1)
    as (j & -> & Hb & Hfail & Hlast); [lia|lia|].
  rewrite waited_app, attempts_app, waited_failed_prefix,
    attempts_failed_prefix by lia.
  replace (1 - 1 + Z.of_nat j)%Z with (Z.of_nat j) by lia.
  replace (Z.max 1 webhookRetryAttempts) with webhookRetryAttempts by lia.
  cbn [waited attempts foldr]. change (2 ^ (1 - 1))%Z with 1%Z.
  assert (Hpow : (1 ≤ 2 ^ Z.of_nat j ≤ 2 ^ (webhookRetryAttempts - 1))%Z).
  { split; [apply Z.pow_le_mono_r with (a := 2%Z) (b := 0%Z) (c := Z.of_nat j)|
            apply Z.pow_le_mono_r]; lia. }
  split_and!; try lia.
  - intros Hall Hone.
    destruct Hlast as [Hok|Hlast]; [by rewrite Hall in Hok|].
    replace (Z.of_nat j) with (webhookRetryAttempts - 1)%Z by lia. lia.
  - intros Hfirst _. destruct j as [|j]; [done|].
    rewrite Hfail in Hfirst by lia. done.
Qed.

End backoff.

(** ** Provider receipts and campaign messages *)

Section receipts.
Import Dispatcher Safety.

(** X16: what the webhook receiver and the chat functions write never
    reaches a campaign message.  In every state the campaign process can
    be in, the rows of campaigns carry no provider message id and no
    contact, so a status update from the provider (whatever id and
    status it names) and the [deleteMany] of [deleteChat] leave every
    row of every campaign exactly as it is: a campaign message is never
    marked DELIVERED or READ. *)
Theorem receipts_miss_campaign_rows (w : World) (waMessageId : string)
    (st : string) (delivered read : option Z) (contactId : string) :
  reachable w →
  let ms := Store.messages (store (mem w)) in
  (∀ m, m ∈ ms → is_Some (Message.campaignId m) →
        Message.waMessageId m = None ∧ Message.contactId m = None)
  ∧ Store.campaign_rows
      (Store.update_where_waMessageId waMessageId
         (Message.ack st delivered read) ms)
    = Store.campaign_rows ms
  ∧ Store.campaign_rows (Store.deleteMany_where_contactId contactId ms)
    = Store.campaign_rows ms.
Proof.
  intros Hw ms. apply reachable_invariant in Hw as [_ [Hk _ Hun _] _ _].
  split_and!.
  - intros m Hin Hc. by apply Hun.
  - by destruct (ack_foreign waMessageId st delivered read ms Hun Hk).
  - by destruct (deleteMany_where_contactId_foreign contactId ms Hun Hk).
Qed.

End receipts.

(** ** The dispatch loop, left to itself *)

Section drain.
Import Dispatcher.

(** A gateway call drops no cached session. *)
Lemma send_keeps_sessions ss st c m net i x :
  ss !! i = Some x →
  Gateway.sessions_after (send ss st c m net) !! i = Some x.
Proof.
  intros Hx. unfold send, Gateway.sendMedia, Gateway.sendText,
    Gateway.apiRequest.
  pose proof (getSession_mono ss (Store.instances st)
                (Campaign.instanceId c) i x Hx) as H1.
  destruct (truthy (Message.mediaUrl m));
    destruct (Gateway.getSession ss (Store.instances st)
                (Campaign.instanceId c)) as [ss1 [e|s1]]; cbn [fst] in H1;
    cbn [Gateway.sessions_after]; try done;
    pose proof (getSession_mono ss1 (Store.instances st)
                  (Campaign.instanceId c) i x H1) as H2;
    destruct (Gateway.getSession ss1 (Store.instances st)
                (Campaign.instanceId c)) as [ss2 [e|s2]]; cbn [fst] in H2;
    done.
Qed.

Context (id : string).

(** An iteration that finds a PENDING message: the message is marked
    SENT or FAILED, the matching counter goes up by one and the loop is
    back at its top. *)
Lemma iteration_marks os st ss c m :
  Store.campaigns st !! id = Some c →
  Campaign.status c = CampaignStatus.RUNNING →
  Gateway.getStatus ss (Campaign.instanceId c) = Gateway.connected →
  Store.findFirstPending id st = Some m →
  ∃ data_m data_c,
    iteration os id st ss
    = {| it_store :=
           {| Store.campaigns := <[id := data_c c]> (Store.campaigns st);
              Store.messages :=
                Store.update_where_id (Message.id m) data_m
                  <$> Store.messages st;
              Store.instances := Store.instances st |};
         it_sessions := Gateway.sessions_after (send ss st c m (net (os 2)));
         it_issued := option_list (Gateway.issued (send ss st c m (net (os 2))));
         it_outcome := Some (Suspended AtLoad) |}
    ∧ (data_m = Message.mark_sent (now (os 3))
       ∧ data_c = Campaign.increment_sent
       ∨ ∃ e, data_m = Message.mark_failed (describe e)
              ∧ data_c = Campaign.increment_failed).
Proof.
  intros Hc Hrunning Hconn Hm.
  rewrite (iteration_pending _ _ _ _ _ Hc Hrunning m) by done.
  destruct (findFirstPending_Some _ _ _ Hm) as [Hin _].
  set (call := send ss st c m (net (os 2))) in *.
  assert (Hupd : ∀ data,
    Store.message_update (Message.id m) data st
    = Some {| Store.campaigns := Store.campaigns st;
              Store.messages :=
                Store.update_where_id (Message.id m) data <$> Store.messages st;
              Store.instances := Store.instances st |}).
  { intros data. unfold Store.message_update.
    by rewrite decide_True by (by apply list_elem_of_fmap_2). }
  destruct (Gateway.settled call) as [e|[]] eqn:Hsettled.
  - exists (Message.mark_failed (describe e)), Campaign.increment_failed.
    split; [|right; by exists e].
    rewrite (run_next os id _ _ _ st ss _ (AtMarkFailed c m e) eq_refl)
      by (simpl; by fold call; rewrite ?Hsettled).
    cbv zeta. cbn [proc_step store_after sessions_after issued]. fold call.
    set (st1 := {| Store.campaigns := Store.campaigns st;
                   Store.messages :=
                     Store.update_where_id (Message.id m)
                       (Message.mark_failed (describe e)) <$> Store.messages st;
                   Store.instances := Store.instances st |}).
    rewrite (run_quiet_next os id _ _ _ st _ st1 _ (AtIncrementFailed c))
      by (simpl; by rewrite ?Hupd).
    rewrite (run_quiet_next os id _ _ _ st1 _ _ _ (AtSleep c)
               (proc_step_campaign_update id st1 _ c Hc (os 4)
                  (AtIncrementFailed c) Campaign.increment_failed
                  (Suspended (AtSleep c)) (λ _, eq_refl))) by done.
    rewrite (run_quiet_last os id _ _ (AtSleep c) _ _ _ _ (Suspended AtLoad)
               eq_refl) by (left; set_solver).
    cbn [it_store it_sessions it_issued it_outcome]. by rewrite app_nil_r.
  - exists (Message.mark_sent (now (os 3))), Campaign.increment_sent.
    split; [|by left].
    rewrite (run_next os id _ _ _ st ss _ (AtMarkSent c m) eq_refl)
      by (simpl; by fold call; rewrite ?Hsettled).
    cbv zeta. cbn [proc_step store_after sessions_after issued]. fold call.
    set (st1 := {| Store.campaigns := Store.campaigns st;
                   Store.messages :=
                     Store.update_where_id (Message.id m)
                       (Message.mark_sent (now (os 3))) <$> Store.messages st;
                   Store.instances := Store.instances st |}).
    rewrite (run_quiet_next os id _ _ _ st _ st1 _ (AtIncrementSent c m))
      by (simpl; by rewrite ?Hupd).
    assert (Hstep : ∀ ss1,
      proc_step (os 4) id (AtIncrementSent c m) st1 ss1
      = resumed {| Store.campaigns :=
                     <[id := Campaign.increment_sent c]> (Store.campaigns st1);
                   Store.messages := Store.messages st1;
                   Store.instances := Store.instances st1 |}
                ss1 (Suspended (AtSleep c))).
    { intros ss1. cbn [proc_step].
      by rewrite (campaign_update_lookup id _ st1 c Hc). }
    rewrite (run_quiet_next os id _ _ _ st1 _ _ _ (AtSleep c) (Hstep _))
      by done.
    rewrite (run_quiet_last os id _ _ (AtSleep c) _ _ _ _ (Suspended AtLoad)
               eq_refl) by (left; set_solver).
    cbn [it_store it_sessions it_issued it_outcome]. by rewrite app_nil_r.
Qed.

(** An iteration that finds no PENDING message completes the campaign. *)
Lemma iteration_completes os st ss c :
  Store.campaigns st !! id = Some c →
  Campaign.status c = CampaignStatus.RUNNING →
  Gateway.getStatus ss (Campaign.instanceId c) = Gateway.connected →
  Store.findFirstPending id st = None →
  iteration os id st ss
  = {| it_store :=
         {| Store.campaigns :=
              <[id := Campaign.complete (now (os 2)) c]> (Store.campaigns st);
            Store.messages := Store.messages st;
            Store.instances := Store.instances st |};
       it_sessions := ss; it_issued := [];
       it_outcome := Some Returned |}.
Proof.
  intros Hc Hrunning Hconn Hm.
  rewrite (iteration_connected _ _ _ _ c Hc Hrunning) by done.
  rewrite (run_quiet_next _ _ _ _ _ _ _ _ _ _
             (proc_step_find_none _ _ _ (os 1) c Hm)) by done.
  by rewrite (run_quiet_last _ _ _ _ _ _ _ _ _ Returned
             (proc_step_campaign_update id st ss c Hc (os 2) AtComplete
                (Campaign.complete (now (os 2))) Returned (λ _, eq_refl)))
    by (left; set_solver).
Qed.

Lemma findFirstPending_pending st :
  Safety.pending_count id (Store.messages st) ≠ 0 →
  is_Some (Store.findFirstPending id st).
Proof.
  intros Hp. destruct (Store.findFirstPending id st) eqn:Hf; [done|].
  apply findFirstPending_None in Hf. destruct Hp.
  unfold Safety.pending_count. by rewrite Hf.
Qed.

Lemma findFirstPending_none st :
  Safety.pending_count id (Store.messages st) = 0 →
  Store.findFirstPending id st = None.
Proof.
  unfold Safety.pending_count, Store.findFirstPending.
  intros Hp%length_zero_iff_nil. by rewrite Hp.
Qed.

Lemma run_S rounds os i st ss :
  Loop.run (S rounds) os i id st ss
  = let it := iteration (os i) id st ss in
    match it_outcome it with
    | Some (Suspended AtLoad) =>
      let rest := Loop.run rounds os (S i) id (it_store it) (it_sessions it) in
      {| it_store := it_store rest; it_sessions := it_sessions rest;
         it_issued := it_issued it ++ it_issued rest;
         it_outcome := it_outcome rest |}
    | _ => it
    end.
Proof. done. Qed.

Lemma run_again rounds os i st ss st1 ss1 iss :
  iteration (os i) id st ss
  = {| it_store := st1; it_sessions := ss1; it_issued := iss;
       it_outcome := Some (Suspended AtLoad) |} →
  it_outcome (Loop.run (S rounds) os i id st ss)
  = it_outcome (Loop.run rounds os (S i) id st1 ss1)
  ∧ it_store (Loop.run (S rounds) os i id st ss)
    = it_store (Loop.run rounds os (S i) id st1 ss1)
  ∧ it_issued (Loop.run (S rounds) os i id st ss)
    = iss ++ it_issued (Loop.run rounds os (S i) id st1 ss1).
Proof. intros H. rewrite run_S. cbv zeta. by rewrite H. Qed.

Lemma run_left rounds os i st ss st1 ss1 iss :
  iteration (os i) id st ss
  = {| it_store := st1; it_sessions := ss1; it_issued := iss;
       it_outcome := Some Returned |} →
  Loop.run (S rounds) os i id st ss
  = {| it_store := st1; it_sessions := ss1; it_issued := iss;
       it_outcome := Some Returned |}.
Proof. intros H. rewrite run_S. cbv zeta. by rewrite H. Qed.

Lemma run_drains (p : nat) :
  ∀ (os : nat → nat → Oracle) (i : nat) (st : Store.t)
    (ss : Gateway.Sessions) (c : Campaign.t),
  Store.campaigns st !! id = Some c →
  Campaign.status c = CampaignStatus.RUNNING →
  is_Some (ss !! Campaign.instanceId c) →
  NoDup (Message.id <$> Store.messages st) →
  Safety.pending_count id (Store.messages st) = p →
  let r := Loop.run (S p) os i id st ss in
  it_outcome r = Some Returned
  ∧ (∃ c', Store.campaigns (it_store r) !! id = Some c'
           ∧ Campaign.status c' = CampaignStatus.COMPLETED
           ∧ is_Some (Campaign.completedAt c')
           ∧ Campaign.sentMessages c' + Campaign.failedMessages c'
             = Campaign.sentMessages c + Campaign.failedMessages c + p
           ∧ Campaign.sentMessages c ≤ Campaign.sentMessages c'
           ∧ Campaign.failedMessages c ≤ Campaign.failedMessages c'
           ∧ Campaign.totalMessages c' = Campaign.totalMessages c)
  ∧ Safety.pending_count id (Store.messages (it_store r)) = 0
  ∧ length (it_issued r) ≤ p
  ∧ Message.id <$> Store.messages (it_store r) = Message.id <$> Store.messages st
  ∧ (∀ m, m ∈ Store.messages st → ¬ Store.pending_of id m →
          m ∈ Store.messages (it_store r))
  ∧ (∀ id', id' ≠ id →
       Store.campaigns (it_store r) !! id' = Store.campaigns st !! id').
Proof.
  induction p as [|p IH]; intros os i st ss c Hc Hrunning Hsess Hnd Hp r;
    subst r;
    assert (Hconn : Gateway.getStatus ss (Campaign.instanceId c)
                    = Gateway.connected) by (by apply getStatus_connected).
  - rewrite (run_left _ _ _ _ _ _ _ _
               (iteration_completes (os i) st ss c Hc Hrunning Hconn
                  (findFirstPending_none st Hp))).
    cbn [it_outcome it_store it_issued Store.campaigns Store.messages].
    split_and!; try done.
    + eexists. rewrite lookup_insert_eq. split; [done|].
      cbn. split_and!; try done; lia.
    + intros id' Hne. by rewrite lookup_insert_ne.
  - destruct (findFirstPending_pending st) as [m Hm]; [lia|].
    destruct (iteration_marks (os i) st ss c m Hc Hrunning Hconn Hm)
      as (data_m & data_c & Hit & Hdata).
    destruct (findFirstPending_Some _ _ _ Hm) as [Hin Hpend].
    assert (Hdm : (∀ m0, Message.id (data_m m0) = Message.id m0)
                  ∧ (∀ m0, Message.campaignId (data_m m0) = Message.campaignId m0)
                  ∧ (∀ m0, Message.status (data_m m0) ≠ "PENDING"%string)).
    { destruct Hdata as [[-> _]|(e & -> & _)]; by split_and!. }
    destruct Hdm as (Hdid & Hdcamp & Hdst).
    assert (Hdc : Campaign.status (data_c c) = CampaignStatus.RUNNING
                  ∧ Campaign.instanceId (data_c c) = Campaign.instanceId c
                  ∧ Campaign.totalMessages (data_c c) = Campaign.totalMessages c
                  ∧ Campaign.sentMessages c ≤ Campaign.sentMessages (data_c c)
                  ∧ Campaign.failedMessages c ≤ Campaign.failedMessages (data_c c)
                  ∧ Campaign.sentMessages (data_c c)
                    + Campaign.failedMessages (data_c c)
                    = Campaign.sentMessages c + Campaign.failedMessages c + 1).
    { destruct Hdata as [[_ ->]|(e & _ & ->)]; cbn; split_and!; try done; lia. }
    destruct Hdc as (Hst1 & Hinst1 & Htot1 & Hs1 & Hf1 & Hsum1).
    remember {| Store.campaigns := <[id := data_c c]> (Store.campaigns st);
                Store.messages :=
                  Store.update_where_id (Message.id m) data_m
                    <$> Store.messages st;
                Store.instances := Store.instances st |} as st1 eqn:Est1.
    remember (Gateway.sessions_after (send ss st c m (net (os i 2)))) as ss1
      eqn:Ess1.
    destruct (run_again (S p) _ _ _ _ _ _ _ Hit) as (Ho & Hs & Hi).
    rewrite Ho, Hs, Hi. clear Hit Ho Hs Hi.
    assert (Hm1 : Store.messages st1
                  = Store.update_where_id (Message.id m) data_m
                      <$> Store.messages st) by (by rewrite Est1).
    assert (Hc1 : Store.campaigns st1
                  = <[id := data_c c]> (Store.campaigns st))
      by (by rewrite Est1).
    clear Est1.
    assert (Hp1 : Safety.pending_count id (Store.messages st1) = p).
    { pose proof (pending_count_mark id (Message.id m) data_m
                    (Store.messages st) m Hnd Hin eq_refl Hpend Hdcamp Hdst id)
        as Hmark.
      rewrite decide_True in Hmark by done. rewrite Hm1. lia. }
    assert (Hsess1 : is_Some (ss1 !! Campaign.instanceId (data_c c))).
    { rewrite Hinst1, Ess1. destruct Hsess as [x Hx]. exists x.
      by apply send_keeps_sessions. }
    assert (Hnd1 : NoDup (Message.id <$> Store.messages st1)).
    { rewrite Hm1. by rewrite update_ids. }
    destruct (IH os (S i) st1 ss1 (data_c c)) as
      (Hout & (c' & Hc' & Hcomp & Hat & Hsum & Hs & Hf & Htot) & Hzero & Hiss
       & Hids & Hrows & Hother);
      [rewrite Hc1; apply lookup_insert_eq|done|done|done|done|].
    split_and!; try done.
    + exists c'. split_and!; try done; lia.
    + rewrite length_app. 
      assert (length (option_list (Gateway.issued (send ss st c m (net (os i 2)))))
              ≤ 1) by (destruct (Gateway.issued _); simpl; lia).
      lia.
    + rewrite Hids, Hm1. by apply update_ids.
    + intros m0 Hin0 Hnp. apply Hrows.
      * rewrite Hm1. apply list_elem_of_fmap.
        exists m0. split; [|done]. unfold Store.update_where_id.
        rewrite decide_False; [done|]. intros Heq. apply Hnp.
        by rewrite (key_unique (Store.messages st) m0 m Hnd Hin0 Hin Heq).
      * done.
    + intros id' Hne. rewrite Hother by done. rewrite Hc1.
      by rewrite lookup_insert_ne.
Qed.

(** X17: left to itself, the loop works a campaign off.  For a RUNNING
    campaign whose instance has a cached session and which has [p]
    PENDING messages, [p] iterations and one more end the function with
    the campaign COMPLETED and [completedAt] set: every PENDING message
    of the campaign has been marked SENT or FAILED, the two counters
    together have grown by exactly [p] (neither has gone down), at most
    [p] requests have gone to the provider, and the rows that were not
    PENDING rows of the campaign are as they were.  This holds whatever
    the provider answers. *)
Theorem loop_completes_campaign (os : nat → nat → Oracle) (st : Store.t)
    (ss : Gateway.Sessions) (c : Campaign.t) :
  Store.campaigns st !! id = Some c →
  Campaign.status c = CampaignStatus.RUNNING →
  is_Some (ss !! Campaign.instanceId c) →
  NoDup (Message.id <$> Store.messages st) →
  let p := Safety.pending_count id (Store.messages st) in
  let r := Loop.run (S p) os 0 id st ss in
  it_outcome r = Some Returned
  ∧ (∃ c', Store.campaigns (it_store r) !! id = Some c'
           ∧ Campaign.status c' = CampaignStatus.COMPLETED
           ∧ is_Some (Campaign.completedAt c')
           ∧ Campaign.sentMessages c' + Campaign.failedMessages c'
             = Campaign.sentMessages c + Campaign.failedMessages c + p
           ∧ Campaign.sentMessages c ≤ Campaign.sentMessages c'
           ∧ Campaign.failedMessages c ≤ Campaign.failedMessages c'
           ∧ Campaign.totalMessages c' = Campaign.totalMessages c)
  ∧ Safety.pending_count id (Store.messages (it_store r)) = 0
  ∧ length (it_issued r) ≤ p
  ∧ Message.id <$> Store.messages (it_store r) = Message.id <$> Store.messages st
  ∧ (∀ m, m ∈ Store.messages st → ¬ Store.pending_of id m →
          m ∈ Store.messages (it_store r))
  ∧ (∀ id', id' ≠ id →
       Store.campaigns (it_store r) !! id' = Store.campaigns st !! id').
Proof.
  intros Hc Hrunning Hsess Hnd p. by apply run_drains.
Qed.

End drain.

(** ** From the creation request to the provider *)

Section wire.
Import Gateway.

(** X18: what the loop sends for a message of a campaign is decided by
    the content given at creation, but not by its [type].  With a
    non-empty [mediaUrl] the request is a media message whose type goes
    by the extension of the URL and whose caption is [text], or
    [caption] when there is no text (none for audio and stickers);
    without one it is a text message with that same text, possibly the
    empty string, also when the content was declared as media.  Two
    contents that differ in [type] only give the same call. *)
Theorem created_message_request (ss : Sessions) (st : Store.t)
    (campaign : Campaign.t) (campaignId instanceId : string)
    (instance : InstanceRow) (to : string) (content : Dispatcher.Content)
    (key : string * Z) (net : FetchResult) (req : Request) :
  let message := Dispatcher.new_message campaignId instanceId instance to content key in
  issued (Dispatcher.send ss st campaign message net) = Some req →
  let body := or_else (Dispatcher.text content) (or_else (Dispatcher.caption content) "") in
  Gateway.to (payload req) = to
  ∧ method req = "POST"%string
  ∧ (if truthy (Dispatcher.mediaUrl content) then
       Gateway.type (payload req)
         = mediaTypeOf (or_else (Dispatcher.mediaUrl content) "")
       ∧ media_link (payload req) = Dispatcher.mediaUrl content
       ∧ text_body (payload req) = None
       ∧ media_caption (payload req)
         = (if negb (String.eqb body "")
               && negb (bool_decide (Gateway.type (payload req)
                                       ∈ ["audio"; "sticker"]%string))
            then Some body else None)
     else
       Gateway.type (payload req) = "text"%string
       ∧ text_body (payload req) = Some body
       ∧ media_link (payload req) = None
       ∧ media_caption (payload req) = None)
  ∧ ∀ content',
      Dispatcher.text content' = Dispatcher.text content →
      Dispatcher.mediaUrl content' = Dispatcher.mediaUrl content →
      Dispatcher.caption content' = Dispatcher.caption content →
      Dispatcher.send ss st campaign
        (Dispatcher.new_message campaignId instanceId instance to content' key) net
      = Dispatcher.send ss st campaign message net.
Proof.
  intros message Hreq body. split_and!.
  4:{ intros content' Ht Hm Hc. subst message. unfold Dispatcher.send, Dispatcher.new_message.
      cbn [Message.mediaUrl Message.body Message.to]. by rewrite Ht, Hm, Hc. }
  all: revert Hreq; subst message; unfold Dispatcher.send, Dispatcher.new_message;
    cbn [Message.mediaUrl Message.body Message.to]; fold body;
    destruct (truthy (Dispatcher.mediaUrl content)) eqn:Hurl;
    unfold sendMedia, sendText, apiRequest;
    (destruct (getSession ss (Store.instances st) (Campaign.instanceId campaign))
       as [ss1 [e|s1]] eqn:Hg; [done|]);
    apply getSession_inr in Hg as [Hin _];
    rewrite (getSession_cached _ _ _ _ Hin);
    cbn [issued]; intros [= <-]; cbn [payload method Gateway.to Gateway.type
      text_body media_link media_caption]; try done.
  split_and!; try done.
  - destruct (Dispatcher.mediaUrl content) as [u|]; [|done]. simpl in *.
    by destruct (String.eqb u "").
  - destruct (String.eqb body "") eqn:Hb; cbn [negb andb truthy]; [done|].
    rewrite Hb. cbn [negb andb].
    destruct (String.eqb _ "audio") eqn:Ha.
    { apply String.eqb_eq in Ha as ->. done. }
    destruct (String.eqb _ "sticker") eqn:Hs.
    { apply String.eqb_eq in Hs as ->. done. }
    apply String.eqb_neq in Ha, Hs. cbn [negb andb].
    rewrite bool_decide_false; [done|].
    rewrite !elem_of_cons, elem_of_nil. tauto.
  - split_and!; try done.
    destruct (String.eqb body "") eqn:Hb; [|done].
    by apply String.eqb_eq in Hb as ->.
Qed.

(** X18 (witness): the first message of the sample campaign goes out as
    a text message. *)
Lemma created_message_request_witness :
  let call :=
    Dispatcher.send Sample.sessions1 Sample.store1 Sample.campaign1
      (Dispatcher.new_message "camp-1" "inst-1" Sample.instance1 "5511911110000"
         (Sample.text "hi") ("msg-1"%string, 10%Z))
      Sample.accepted in
  ∃ req, issued call = Some req
         ∧ Gateway.to (payload req) = "5511911110000"%string
         ∧ method req = "POST"%string.
Proof.
  eexists. split; [vm_compute; reflexivity|].
  destruct (created_message_request Sample.sessions1 Sample.store1
              Sample.campaign1 "camp-1" "inst-1" Sample.instance1
              "5511911110000" (Sample.text "hi") ("msg-1"%string, 10%Z)
              Sample.accepted
              {| url := "https://graph.facebook.com/v19.0/106540352242922/messages";
                 method := "POST"; authorization := "Bearer EAAG-token";
                 payload := {| Gateway.to := "5511911110000";
                               Gateway.type := "text";
                               text_body := Some "hi"%string;
                               media_link := None;
                               media_caption := None |} |})
    as (Hto & Hmethod & _).
  - vm_compute. reflexivity.
  - exact (conj Hto Hmethod).
Defined.

End wire.

(** ** The further properties at work on the sample data *)

(** X12 (witness): the sample inbound message, stored into the empty
    database. *)
Lemma post_keeps_rows_unique_witness :
  let s' := (Receiver.post Sample.uuid 5 (Some Sample.delivery)
               Sample.receiver0).1 in
  NoDup (Routing.provider_ids s') ∧ NoDup (Routing.contact_keys s').
Proof.
  destruct (post_keeps_rows_unique Sample.uuid 5 (Some Sample.delivery)
              Sample.receiver0) as (Hids & Hkeys & _).
  - vm_compute. apply NoDup_nil_2.
  - vm_compute. apply NoDup_nil_2.
  - exact (conj Hids Hkeys).
Defined.

(** X14 (witness): the sample message under a phone-number id that no
    instance has. *)
Lemma post_unroutable_witness :
  (Receiver.post Sample.uuid 5 (Some Sample.stray) Sample.receiver0).1
  = Sample.receiver0.
Proof.
  apply (post_unroutable Sample.uuid 5 Sample.stray Sample.receiver0).
  repeat constructor. intros v [= <-]. vm_compute. reflexivity.
Defined.

(** X16 (witness): a read receipt in the world at the end of the sample
    script. *)
Lemma receipts_miss_campaign_rows_witness :
  let ms := Store.messages (Dispatcher.store (Dispatcher.mem Sample.world1)) in
  Store.campaign_rows
    (Store.update_where_waMessageId "wamid.HBgLNTUxMTk5"
       (Message.ack "READ" None (Some 30%Z)) ms)
  = Store.campaign_rows ms.
Proof.
  destruct (receipts_miss_campaign_rows Sample.world1 "wamid.HBgLNTUxMTk5"
              "READ" None (Some 30%Z) "row-0" sample_reachable)
    as (_ & Hack & _).
  exact Hack.
Defined.

(** X17 (witness): the sample campaign, every send rejected by the
    provider. *)
Lemma loop_completes_campaign_witness :
  Dispatcher.it_outcome
    (Loop.run (S (Safety.pending_count "camp-1" (Store.messages Sample.store1)))
       (λ _, Sample.rejecting) 0 "camp-1" Sample.store1 Sample.sessions1)
  = Some Dispatcher.Returned.
Proof.
  destruct (loop_completes_campaign "camp-1" (λ _, Sample.rejecting)
              Sample.store1 Sample.sessions1 Sample.campaign1)
    as (Hout & _).
  - vm_compute. reflexivity.
  - reflexivity.
  - eexists. vm_compute. reflexivity.
  - vm_compute. repeat constructor; set_solver.
  - exact Hout.
Defined.
